(** * Lost-and-found registry: item lifecycle, handover protocol, sessions

    A shallow embedding of the storage layer ([lib/storage]), the
    handover dialog, the user-management dialog and the authentication
    context of the registry, and of the parts of the registration dialog,
    the location dialog and the item list that decide what is stored and
    shown, followed by the properties of the item lifecycle, of the
    access/session model, of the form validators and of the identifiers.

    Conventions of the embedding.
    - [localStorage] is an explicit [Storage] record that every operation
      takes and returns; a collection is written whole, as the code does
      ([JSON.stringify] of the full array), and [JSON.parse] of what was
      written is the value itself.
    - React component state is a record per component; an event handler is
      a function from the state before the event to the state after it.
    - The clock ([Date.now()], [new Date().toISOString()]), the random
      digits of the id generator and [crypto.randomUUID()] are inputs.
    - A string is kept as its UTF-8 encoding and read as JavaScript reads
      it, as a sequence of UTF-16 code units: [length] counts code units
      (two for a character outside the basic plane), the patterns of the
      validators match code unit by code unit, and white space, for
      [trim] as for [\s], is the WhiteSpace and LineTerminator set of
      ECMAScript, the no-break space and the other Unicode spaces
      included.  Equality of strings is equality of their encodings.
    - [toUpperCase] and [toLowerCase] are the conversions of the runtime's
      Unicode tables, which are no part of the program.  The functions
      that fold user input (log-in, step 1 and step 2 of the handover
      dialog, the duplicate test of the location dialog) take the pair of
      conversions as a parameter, and the properties proved of them hold
      for every pair; where a property needs more, it asks only that on
      strings of ASCII characters the conversions map a-z and A-Z onto
      each other.  Statements without the parameter are read at that
      ASCII mapping, which is all that [generateItemId] and the examples
      apply the conversions to.
    - Time values are integers of milliseconds.  For dates of the years
      0000 to 9999 every quantity the code computes from them is an
      integer below 2^53, and the quotient by the length of a day is far
      enough from the next integer for [Math.ceil] to be the exact
      ceiling. *)

From Stdlib Require Import ZArith String Ascii HexString List Lia Bool.
From stdpp Require Import base decidable option list strings fin vector.

Local Open Scope string_scope.

(* ===================================================================== *)
(** ** JavaScript string primitives used by the code *)
(* ===================================================================== *)

Module Js.

(** *** Characters *)

(** A character of a string as it is stored: its code point together
    with the bytes that encode it. *)
Definition is_cont (c : ascii) : bool :=
  let n := N_of_ascii c in (128 <=? n)%N && (n <? 192)%N.

(** The characters of a UTF-8 string, in order.  A byte that starts no
    complete, shortest-form encoding of a code point other than a
    surrogate is read as U+FFFD, one byte at a time. *)
Fixpoint chars (s : string) : list (N * string) :=
  match s with
  | EmptyString => []
  | String b0 r0 =>
      let n0 := N_of_ascii b0 in
      let single :=
        ((if (n0 <? 128)%N then n0 else 65533%N), String b0 EmptyString) :: chars r0 in
      if (n0 <? 194)%N then single
      else
        match r0 with
        | String b1 r1 =>
            let n1 := (N_of_ascii b1 - 128)%N in
            if negb (is_cont b1) then single
            else if (n0 <? 224)%N then
              (((n0 - 192) * 64 + n1)%N, String b0 (String b1 EmptyString)) :: chars r1
            else
              match r1 with
              | String b2 r2 =>
                  let n2 := (N_of_ascii b2 - 128)%N in
                  if negb (is_cont b2) then single
                  else if (n0 <? 240)%N then
                    let cp := ((n0 - 224) * 4096 + n1 * 64 + n2)%N in
                    if (cp <? 2048)%N || ((55296 <=? cp)%N && (cp <? 57344)%N)
                    then single
                    else (cp, String b0 (String b1 (String b2 EmptyString))) :: chars r2
                  else
                    match r2 with
                    | String b3 r3 =>
                        let n3 := (N_of_ascii b3 - 128)%N in
                        let cp :=
                          ((n0 - 240) * 262144 + n1 * 4096 + n2 * 64 + n3)%N in
                        if negb (is_cont b3) then single
                        else if (n0 <? 248)%N && (65536 <=? cp)%N && (cp <? 1114112)%N
                        then (cp, String b0 (String b1 (String b2 (String b3 EmptyString))))
                               :: chars r3
                        else single
                    | EmptyString => single
                    end
              | EmptyString => single
              end
        | EmptyString => single
        end
  end.

(** The UTF-16 code units of a character: itself, or a surrogate pair. *)
Definition units_of (cp : N) : list N :=
  if (cp <? 65536)%N then [cp]
  else [(55296 + (cp - 65536) / 1024)%N; (56320 + (cp - 65536) mod 1024)%N].

(** The string as JavaScript sees it: a sequence of UTF-16 code units. *)
Definition units (s : string) : list N :=
  concat (map (fun g => units_of (fst g)) (chars s)).

(** [s.length]. *)
Definition length (s : string) : nat := List.length (units s).

(** *** White space and digits *)

(** The code units matched by [\s] and stripped by
    [String.prototype.trim]: the WhiteSpace and LineTerminator code
    points of ECMAScript (tab, line feed, vertical tab, form feed,
    carriage return, space, no-break space, U+1680, U+2000 to U+200A,
    U+2028, U+2029, U+202F, U+205F, U+3000 and U+FEFF). *)
Definition is_space (u : N) : bool :=
  ((9 <=? u)%N && (u <=? 13)%N) || (u =? 32)%N || (u =? 160)%N || (u =? 5760)%N
  || ((8192 <=? u)%N && (u <=? 8202)%N) || (u =? 8232)%N || (u =? 8233)%N
  || (u =? 8239)%N || (u =? 8287)%N || (u =? 12288)%N || (u =? 65279)%N.

(** [\d]. *)
Definition is_digit (u : N) : bool := (48 <=? u)%N && (u <=? 57)%N.

(** *** Trimming *)

Fixpoint trim_start (l : list (N * string)) : list (N * string) :=
  match l with
  | [] => []
  | g :: r => if is_space (fst g) then trim_start r else l
  end.

(** [trim_end l] drops the trailing run of white space: a character is
    kept when something that is kept follows it or it is not white
    space. *)
Fixpoint trim_end (l : list (N * string)) : list (N * string) :=
  match l with
  | [] => []
  | g :: r =>
      match trim_end r with
      | [] => if is_space (fst g) then [] else [g]
      | r' => g :: r'
      end
  end.

(** The bytes of a sequence of characters. *)
Definition join (l : list (N * string)) : string :=
  fold_right (fun g acc => snd g ++ acc) EmptyString l.

(** [s.trim()]. *)
Definition trim (s : string) : string := join (trim_end (trim_start (chars s))).

(** *** Letter case *)

Definition upper_char (c : ascii) : ascii :=
  let n := nat_of_ascii c in
  if ((97 <=? n)%nat && (n <=? 122)%nat)%bool then ascii_of_nat (n - 32) else c.

Definition lower_char (c : ascii) : ascii :=
  let n := nat_of_ascii c in
  if ((65 <=? n)%nat && (n <=? 90)%nat)%bool then ascii_of_nat (n + 32) else c.

Fixpoint map_string (f : ascii -> ascii) (s : string) : string :=
  match s with
  | EmptyString => EmptyString
  | String c r => String (f c) (map_string f r)
  end.

(** [s.toUpperCase()] and [s.toLowerCase()] are the case conversions of
    the Unicode character database of the runtime, which is no part of
    the program: the functions that fold user input take them as a
    parameter, and what is proved of them holds for every such pair of
    functions. *)
Class CaseMap := mkCaseMap {
  toUpperCase : string -> string;
  toLowerCase : string -> string;
}.

(** The conversions on strings of ASCII characters, where they map the
    letters a-z and A-Z onto each other and keep every other character.
    This is the instance at which [generateItemId] (whose argument is a
    string of hexadecimal digits) and the examples are evaluated. *)
#[global] Instance ascii_case : CaseMap :=
  {| toUpperCase := map_string upper_char; toLowerCase := map_string lower_char |}.

Fixpoint ascii_only (s : string) : bool :=
  match s with
  | EmptyString => true
  | String c r => (N_of_ascii c <? 128)%N && ascii_only r
  end.

(** What is known of the runtime's conversions: on a string of ASCII
    characters they are the conversions above. *)
Class AsciiCase (cm : CaseMap) : Prop := mkAsciiCase {
  toUpperCase_ascii s :
    ascii_only s = true -> @toUpperCase cm s = map_string upper_char s;
  toLowerCase_ascii s :
    ascii_only s = true -> @toLowerCase cm s = map_string lower_char s;
}.


(** *** Truthiness *)

(** Truthiness of a string value: only the empty string is falsy. *)
Definition truthy (s : string) : bool :=
  match s with EmptyString => false | _ => true end.

(** [s || undefined]. *)
Definition or_undefined (s : string) : option string :=
  if truthy s then Some s else None.

(** Truthiness of [string | null]. *)
Definition truthy_opt (o : option string) : bool :=
  match o with Some s => truthy s | None => false end.

End Js.

(* ===================================================================== *)
(** ** Data model ([types]) *)
(* ===================================================================== *)

Inductive Status := active | stored | sold | handed_over.

#[global] Instance Status_eq_dec : EqDecision Status.
Proof. solve_decision. Defined.

Inductive Role := role_user | role_admin.

#[global] Instance Role_eq_dec : EqDecision Role.
Proof. solve_decision. Defined.

Record FoundItem := mkFoundItem {
  id : string;
  foundDate : string;
  foundLocation : string;
  finderName : string;
  finderContact : string;
  itemName : string;
  description : string;
  brand : option string;
  material : option string;
  shape : option string;
  color : option string;
  size : option string;
  imageUrl : option string;
  createdAt : string;
  createdByUserId : string;
  status : Status;
}.

#[global] Instance FoundItem_eq_dec : EqDecision FoundItem.
Proof. solve_decision. Defined.

(** [{ ...item, status: s }] and the in-place [items[i].status = s]. *)
Definition with_status (s : Status) (it : FoundItem) : FoundItem :=
  {| id := id it; foundDate := foundDate it; foundLocation := foundLocation it;
     finderName := finderName it; finderContact := finderContact it;
     itemName := itemName it; description := description it;
     brand := brand it; material := material it; shape := shape it;
     color := color it; size := size it; imageUrl := imageUrl it;
     createdAt := createdAt it; createdByUserId := createdByUserId it;
     status := s |}.

(** The argument of [saveFoundItem]:
    [Omit<FoundItem, 'id' | 'createdAt' | 'status' | 'createdByUserId'>]. *)
Record NewItemData := mkNewItemData {
  n_foundDate : string;
  n_foundLocation : string;
  n_finderName : string;
  n_finderContact : string;
  n_itemName : string;
  n_description : string;
  n_brand : option string;
  n_material : option string;
  n_shape : option string;
  n_color : option string;
  n_size : option string;
  n_imageUrl : option string;
}.

(** The [recipientData] argument of the two handover functions. *)
Record RecipientData := mkRecipientData {
  recipientName : string;
  recipientAddress : string;
  recipientEmail : option string;
  recipientPhone : option string;
  recipientIdDocType : option string;
  recipientIdDocNumber : option string;
}.

#[global] Instance RecipientData_eq_dec : EqDecision RecipientData.
Proof. solve_decision. Defined.

(** [HandedOverItem extends FoundItem]: the item part, the custody stamp
    and the recipient fields. *)
Record HandedOverItem := mkHandedOverItem {
  ho_item : FoundItem;
  handedOverAt : string;
  handedOverByUserId : string;
  ho_recipient : RecipientData;
}.

#[global] Instance HandedOverItem_eq_dec : EqDecision HandedOverItem.
Proof. solve_decision. Defined.

Record User := mkUser {
  u_id : string;
  u_email : string;
  u_name : string;
  u_password : option string;
  u_role : Role;
  u_hasExtendedAccess : option bool;
  u_extendedAccessUntil : option string;
  u_createdAt : option string;
  u_createdByUserId : option string;
}.

#[global] Instance User_eq_dec : EqDecision User.
Proof. solve_decision. Defined.

(** [localStorage], one field per key.  The two item keys are read with
    [data ? JSON.parse(data) : []], so an absent key and an empty array are
    the same collection; the users key is read by [getUsers], which tells
    them apart.  [last_activity] holds [Date.now().toString()], read back
    with [parseInt(_, 10)]: the integer itself. *)
Record Storage := mkStorage {
  found_items : list FoundItem;
  handed_over_items : list HandedOverItem;
  users : option (list User);
  current_user : option User;
  last_activity : option Z;
}.

Definition set_found_items (l : list FoundItem) (st : Storage) : Storage :=
  {| found_items := l; handed_over_items := handed_over_items st;
     users := users st; current_user := current_user st;
     last_activity := last_activity st |}.

Definition set_handed_over_items (l : list HandedOverItem) (st : Storage) : Storage :=
  {| found_items := found_items st; handed_over_items := l;
     users := users st; current_user := current_user st;
     last_activity := last_activity st |}.

Definition set_users (l : list User) (st : Storage) : Storage :=
  {| found_items := found_items st; handed_over_items := handed_over_items st;
     users := Some l; current_user := current_user st;
     last_activity := last_activity st |}.

Definition set_current_user (u : option User) (st : Storage) : Storage :=
  {| found_items := found_items st; handed_over_items := handed_over_items st;
     users := users st; current_user := u;
     last_activity := last_activity st |}.

Definition set_last_activity (t : option Z) (st : Storage) : Storage :=
  {| found_items := found_items st; handed_over_items := handed_over_items st;
     users := users st; current_user := current_user st;
     last_activity := t |}.

(* ===================================================================== *)
(** ** The storage layer ([lib/storage]) *)
(* ===================================================================== *)

(** *** Item identifiers *)

(** [n.toString(16)] for a non-negative integer. *)
Definition toString16 (n : N) : string :=
  match n with
  | N0 => "0"
  | Npos p => HexString.Raw.of_pos p ""
  end.

Fixpoint repeat_char (c : ascii) (n : nat) : string :=
  match n with
  | O => EmptyString
  | S k => String c (repeat_char c k)
  end.

(** [s.padStart(w, c)] for a one-character filler. *)
Definition padStart (w : nat) (c : ascii) (s : string) : string :=
  repeat_char c (w - String.length s) ++ s.

(** The eight draws [Math.floor(Math.random() * 16)], each printed in base
    sixteen, joined. *)
Definition random_hex (rnd : vec (fin 16) 8) : string :=
  fold_right (fun d acc => toString16 (N.of_nat (fin_to_nat d)) ++ acc) ""
             (vec_to_list rnd).

(** [generateItemId]: seconds since the epoch in eight hexadecimal digits,
    eight random hexadecimal digits, upper-cased. *)
Definition generateItemId (now : Z) (rnd : vec (fin 16) 8) : string :=
  let timestamp := padStart 8 "0" (toString16 (Z.to_N (now / 1000))) in
  let random := random_hex rnd in
  Js.toUpperCase (timestamp ++ random).

(** *** Users *)

Definition defaultUsers (now_iso : string) : list User :=
  [ {| u_id := "1"; u_email := "admin@example.com"; u_name := "Adminisztrátor";
       u_password := Some "admin123"; u_role := role_admin;
       u_hasExtendedAccess := None; u_extendedAccessUntil := None;
       u_createdAt := Some now_iso; u_createdByUserId := None |};
    {| u_id := "2"; u_email := "user@example.com"; u_name := "Felhasználó";
       u_password := Some "user123"; u_role := role_user;
       u_hasExtendedAccess := None; u_extendedAccessUntil := None;
       u_createdAt := Some now_iso; u_createdByUserId := Some "1" |} ].

Definition initializeDefaultUsers (now_iso : string) (st : Storage)
  : list User * Storage :=
  let us := match users st with Some l => l | None => [] end in
  if Nat.eqb (List.length us) 0
  then (defaultUsers now_iso, set_users (defaultUsers now_iso) st)
  else (us, st).

Definition getUsers (now_iso : string) (st : Storage) : list User * Storage :=
  match users st with
  | None => initializeDefaultUsers now_iso st
  | Some l => (l, st)
  end.

Definition getCurrentUser (st : Storage) : option User := current_user st.

Definition setCurrentUser (u : option User) (st : Storage) : Storage :=
  set_current_user u st.

(** The credential test shared by [loginUser] and (with the id) by
    [verifyUserCredentials]. *)
Definition credentials_match {cm : Js.CaseMap} (email password : string) (u : User)
  : Prop :=
  Js.toLowerCase (u_email u) = Js.toLowerCase email /\ u_password u = Some password.

#[global] Instance credentials_match_dec {cm : Js.CaseMap} email password u :
  Decision (credentials_match email password u).
Proof. unfold credentials_match. apply _. Defined.

Definition loginUser {cm : Js.CaseMap} (now_iso : string) (email password : string)
    (st : Storage)
  : option User * Storage :=
  let '(_, st0) := initializeDefaultUsers now_iso st in
  let '(us, st1) := getUsers now_iso st0 in
  match List.find (fun u => bool_decide (credentials_match email password u)) us with
  | Some user => (Some user, setCurrentUser (Some user) st1)
  | None => (None, st1)
  end.

Definition verifyUserCredentials {cm : Js.CaseMap} (now_iso : string)
    (email password userId : string) (st : Storage) : bool * Storage :=
  let '(us, st1) := getUsers now_iso st in
  match List.find (fun u => bool_decide (u_id u = userId /\ credentials_match email password u)) us with
  | Some _ => (true, st1)
  | None => (false, st1)
  end.

Definition logoutUser (st : Storage) : Storage := setCurrentUser None st.

(** [Omit<User, 'id' | 'createdAt'>]. *)
Record UserData := mkUserData {
  d_email : string;
  d_name : string;
  d_password : option string;
  d_role : Role;
  d_hasExtendedAccess : option bool;
  d_extendedAccessUntil : option string;
  d_createdByUserId : option string;
}.

Definition createUser (uuid now_iso : string) (userData : UserData)
    (createdBy : string) (st : Storage) : User * Storage :=
  let '(us, st1) := getUsers now_iso st in
  let newUser :=
    {| u_id := uuid; u_email := d_email userData; u_name := d_name userData;
       u_password := d_password userData; u_role := d_role userData;
       u_hasExtendedAccess := d_hasExtendedAccess userData;
       u_extendedAccessUntil := d_extendedAccessUntil userData;
       u_createdAt := Some now_iso; u_createdByUserId := Some createdBy |} in
  (newUser, set_users (us ++ [newUser]) st1).

(** [Partial<User>]: a key is absent ([None]) or present with a value; for
    an optional field the value may be [undefined], which the spread copies
    and [JSON.stringify] then drops. *)
Record UserUpdates := mkUserUpdates {
  p_id : option string;
  p_email : option string;
  p_name : option string;
  p_password : option (option string);
  p_role : option Role;
  p_hasExtendedAccess : option (option bool);
  p_extendedAccessUntil : option (option string);
  p_createdAt : option (option string);
  p_createdByUserId : option (option string);
}.

Definition no_updates : UserUpdates :=
  mkUserUpdates None None None None None None None None None.

(** [{ ...u, ...updates }]. *)
Definition apply_updates (u : User) (p : UserUpdates) : User :=
  {| u_id := default (u_id u) (p_id p);
     u_email := default (u_email u) (p_email p);
     u_name := default (u_name u) (p_name p);
     u_password := default (u_password u) (p_password p);
     u_role := default (u_role u) (p_role p);
     u_hasExtendedAccess := default (u_hasExtendedAccess u) (p_hasExtendedAccess p);
     u_extendedAccessUntil := default (u_extendedAccessUntil u) (p_extendedAccessUntil p);
     u_createdAt := default (u_createdAt u) (p_createdAt p);
     u_createdByUserId := default (u_createdByUserId u) (p_createdByUserId p) |}.

Definition updateUser (now_iso : string) (userId : string) (updates : UserUpdates)
    (st : Storage) : option User * Storage :=
  let '(us, st1) := getUsers now_iso st in
  match list_find (fun u => u_id u = userId) us with
  | Some (index, u) =>
      let u' := apply_updates u updates in
      (Some u', set_users (<[index := u']> us) st1)
  | None => (None, st1)
  end.

Definition deleteUser (now_iso : string) (userId : string) (st : Storage)
  : bool * Storage :=
  let '(us, st1) := getUsers now_iso st in
  let filtered := filter (fun u => u_id u <> userId) us in
  if negb (Nat.eqb (List.length filtered) (List.length us))
  then (true, set_users filtered st1)
  else (false, st1).

(** *** Found items *)

Definition getFoundItems (st : Storage) : list FoundItem := found_items st.

Definition getFoundItemById (itemId : string) (st : Storage) : option FoundItem :=
  snd <$> list_find (fun item => id item = itemId) (getFoundItems st).

Definition saveFoundItem (now : Z) (rnd : vec (fin 16) 8) (now_iso : string)
    (item : NewItemData) (createdBy : string) (st : Storage)
  : FoundItem * Storage :=
  let items := getFoundItems st in
  let newItem :=
    {| id := generateItemId now rnd;
       foundDate := n_foundDate item; foundLocation := n_foundLocation item;
       finderName := n_finderName item; finderContact := n_finderContact item;
       itemName := n_itemName item; description := n_description item;
       brand := n_brand item; material := n_material item; shape := n_shape item;
       color := n_color item; size := n_size item; imageUrl := n_imageUrl item;
       createdAt := now_iso; createdByUserId := createdBy;
       status := active |} in
  (newItem, set_found_items (items ++ [newItem]) st).

Definition updateItemStatus (itemId : string) (s : Status) (st : Storage) : Storage :=
  let items := getFoundItems st in
  match list_find (fun item => id item = itemId) items with
  | Some (index, item) => set_found_items (<[index := with_status s item]> items) st
  | None => st
  end.

Definition deleteItem (itemId : string) (st : Storage) : Storage :=
  let items := getFoundItems st in
  let filtered := filter (fun item => id item <> itemId) items in
  set_found_items filtered st.

Definition getHandedOverItems (st : Storage) : list HandedOverItem :=
  handed_over_items st.

(** [{ ...item, status: 'handed_over', handedOverAt, handedOverByUserId,
       ...recipientData }]: the recipient keys are not keys of a found
    item, so the last spread only adds fields. *)
Definition mk_handed_over (item : FoundItem) (now_iso by_user : string)
    (rd : RecipientData) : HandedOverItem :=
  {| ho_item := with_status handed_over item;
     handedOverAt := now_iso;
     handedOverByUserId := by_user;
     ho_recipient := rd |}.

(** The common body of the two handover functions, after [findIndex] has
    answered. *)
Definition archive_at (found : option (nat * FoundItem)) (now_iso by_user : string)
    (rd : RecipientData) (st : Storage) : option HandedOverItem * Storage :=
  match found with
  | None => (None, st)
  | Some (itemIndex, item) =>
      let handedOverItem := mk_handed_over item now_iso by_user rd in
      let st1 := set_found_items (delete itemIndex (getFoundItems st)) st in
      let st2 := set_handed_over_items (getHandedOverItems st1 ++ [handedOverItem]) st1 in
      (Some handedOverItem, st2)
  end.

Definition handOverItem (now_iso : string) (itemId by_user : string)
    (rd : RecipientData) (st : Storage) : option HandedOverItem * Storage :=
  archive_at (list_find (fun item => id item = itemId) (getFoundItems st))
             now_iso by_user rd st.

Definition handOverStoredItem (now_iso : string) (itemId by_user : string)
    (rd : RecipientData) (st : Storage) : option HandedOverItem * Storage :=
  archive_at (list_find (fun item => id item = itemId /\ status item = stored)
                        (getFoundItems st))
             now_iso by_user rd st.

Definition restoreFromStorage (itemId : string) (st : Storage) : bool * Storage :=
  let items := getFoundItems st in
  match list_find (fun item => id item = itemId /\ status item = stored) items with
  | Some (index, item) =>
      (true, set_found_items (<[index := with_status active item]> items) st)
  | None => (false, st)
  end.

Definition getStoredItems (st : Storage) : list FoundItem :=
  filter (fun item => status item = stored) (getFoundItems st).

Definition hasExtendedAccess (user : option User) : bool :=
  match user with
  | None => false
  | Some u =>
      if decide (u_role u = role_admin) then true
      else match u_hasExtendedAccess u with Some b => b | None => false end
  end.

(** *** Elapsed days and the age gates *)

Definition MS_PER_DAY : Z := 1000 * 60 * 60 * 24.

(** [Math.ceil(a / b)] for an integer [a] and a positive integer [b]. *)
Definition ceil_div (a b : Z) : Z := (- ((- a) / b))%Z.

Section ElapsedDays.

(** [new Date(s).getTime()]: the time value in milliseconds, or [None]
    for an invalid date (whose time value is NaN).  How a date string is
    read is the platform's business. *)
Variable date_time : string -> option Z.

(** [getDaysSinceFound], with [new Date()] as the argument [now]; [None]
    is NaN. *)
Definition getDaysSinceFound (now : Z) (fd : string) : option Z :=
  match date_time fd with
  | Some found =>
      let diffTime := Z.abs (now - found) in
      Some (ceil_div diffTime MS_PER_DAY)
  | None => None
  end.

(** [d >= n] on numbers: false when [d] is NaN. *)
Definition num_ge (d : option Z) (n : Z) : bool :=
  match d with Some x => (n <=? x)%Z | None => false end.

(** The gates computed per row by the item list view. *)
Definition canStore (now : Z) (item : FoundItem) : bool :=
  let daysSinceFound := getDaysSinceFound now (foundDate item) in
  num_ge daysSinceFound 100 && bool_decide (status item = active).

Definition canSell (now : Z) (item : FoundItem) : bool :=
  let daysSinceFound := getDaysSinceFound now (foundDate item) in
  num_ge daysSinceFound 366
  && (bool_decide (status item = active) || bool_decide (status item = stored)).

(** What the specification calls elapsed days: the ceiling of the signed
    difference. *)
Definition signed_elapsed_days (now found : Z) : Z :=
  ceil_div (now - found) MS_PER_DAY.

End ElapsedDays.

(* ===================================================================== *)
(** ** Regular expressions of the form validators *)
(* ===================================================================== *)

(** The validators use anchored patterns built from character classes,
    concatenation and [+].  A pattern without the [u] flag reads a string
    one UTF-16 code unit at a time; [test] on an anchored pattern is
    membership of the whole sequence of code units in the pattern's
    language, decided here by derivatives. *)
Module Regex.

Inductive re :=
| Void
| Eps
| Class (p : N -> bool)
| Seq (r1 r2 : re)
| Alt (r1 r2 : re)
| Star (r : re).

Definition Plus (r : re) : re := Seq r (Star r).

Fixpoint nullable (r : re) : bool :=
  match r with
  | Void => false
  | Eps => true
  | Class _ => false
  | Seq r1 r2 => nullable r1 && nullable r2
  | Alt r1 r2 => nullable r1 || nullable r2
  | Star _ => true
  end.

Fixpoint deriv (c : N) (r : re) : re :=
  match r with
  | Void => Void
  | Eps => Void
  | Class p => if p c then Eps else Void
  | Seq r1 r2 =>
      if nullable r1
      then Alt (Seq (deriv c r1) r2) (deriv c r2)
      else Seq (deriv c r1) r2
  | Alt r1 r2 => Alt (deriv c r1) (deriv c r2)
  | Star r1 => Seq (deriv c r1) (Star r1)
  end.

Fixpoint test (r : re) (s : list N) : bool :=
  match s with
  | [] => nullable r
  | c :: s' => test (deriv c r) s'
  end.

End Regex.

(* ===================================================================== *)
(** ** The authentication context ([contexts/AuthContext]) *)
(* ===================================================================== *)

Definition INACTIVITY_TIMEOUT : Z := 2 * 60 * 1000.

(** The provider's [user] state together with the storage it reads and
    writes. *)
Record Auth := mkAuth {
  user : option User;
  store : Storage;
}.

Inductive Toast :=
| toast_error (msg : string)
| toast_success (msg : string)
| toast_info (msg : string).

Definition handleLogout (a : Auth) : Auth :=
  let st1 := logoutUser (store a) in
  {| user := None; store := set_last_activity None st1 |}.

(** The body of the ten-second interval callback; [None] for the toast
    when nothing is shown. *)
Definition checkInactivity (now : Z) (a : Auth) : Auth * option Toast :=
  match last_activity (store a) with
  | Some lastActivity =>
      let elapsed := (now - lastActivity)%Z in
      if (INACTIVITY_TIMEOUT <? elapsed)%Z
      then (handleLogout a, Some (toast_info "Inaktivitás miatt kijelentkeztettük."))
      else (a, None)
  | None => (a, None)
  end.

Definition updateActivity (now : Z) (a : Auth) : Auth :=
  {| user := user a; store := set_last_activity (Some now) (store a) |}.

Definition resetInactivityTimer (now : Z) (a : Auth) : Auth :=
  match user a with
  | Some _ => updateActivity now a
  | None => a
  end.

Definition handleLogin {cm : Js.CaseMap} (now : Z) (now_iso : string)
    (email password : string)
    (a : Auth) : bool * Auth :=
  match loginUser now_iso email password (store a) with
  | (Some loggedInUser, st1) =>
      (true, {| user := Some loggedInUser; store := set_last_activity (Some now) st1 |})
  | (None, st1) => (false, {| user := user a; store := st1 |})
  end.

Definition isAuthenticated_ctx (a : Auth) : bool :=
  match user a with Some _ => true | None => false end.

Definition isAdmin (a : Auth) : bool :=
  match user a with
  | Some u => bool_decide (u_role u = role_admin)
  | None => false
  end.

(* ===================================================================== *)
(** ** The handover dialog ([components/HandoverDialog]) *)
(* ===================================================================== *)

Inductive Step := step_auth | step_scan | step_form.

#[global] Instance Step_eq_dec : EqDecision Step.
Proof. solve_decision. Defined.

Record FormData := mkFormData {
  f_recipientName : string;
  f_recipientAddress : string;
  f_recipientEmail : string;
  f_recipientPhone : string;
  f_recipientIdDocType : string;
  f_recipientIdDocNumber : string;
}.

Definition emptyForm : FormData := mkFormData "" "" "" "" "" "".

(** The dialog's [useState] cells. *)
Record Dialog := mkDialog {
  step : Step;
  authEmail : string;
  authPassword : string;
  isAuthenticated : bool;
  handoverUserId : option string;
  scannedId : string;
  isScanned : bool;
  manualEntry : bool;
  formData : FormData;
}.

(** The state set by the effect that runs when the dialog opens. *)
Definition initialDialog : Dialog :=
  {| step := step_auth; authEmail := ""; authPassword := "";
     isAuthenticated := false; handoverUserId := None;
     scannedId := ""; isScanned := false; manualEntry := false;
     formData := emptyForm |}.

Definition set_step (s : Step) (d : Dialog) : Dialog :=
  {| step := s; authEmail := authEmail d; authPassword := authPassword d;
     isAuthenticated := isAuthenticated d; handoverUserId := handoverUserId d;
     scannedId := scannedId d; isScanned := isScanned d;
     manualEntry := manualEntry d; formData := formData d |}.

Definition set_scannedId (v : string) (d : Dialog) : Dialog :=
  {| step := step d; authEmail := authEmail d; authPassword := authPassword d;
     isAuthenticated := isAuthenticated d; handoverUserId := handoverUserId d;
     scannedId := v; isScanned := isScanned d;
     manualEntry := manualEntry d; formData := formData d |}.

Definition set_isScanned (b : bool) (d : Dialog) : Dialog :=
  {| step := step d; authEmail := authEmail d; authPassword := authPassword d;
     isAuthenticated := isAuthenticated d; handoverUserId := handoverUserId d;
     scannedId := scannedId d; isScanned := b;
     manualEntry := manualEntry d; formData := formData d |}.

Definition set_authenticated (uid : string) (d : Dialog) : Dialog :=
  {| step := step d; authEmail := authEmail d; authPassword := authPassword d;
     isAuthenticated := true; handoverUserId := Some uid;
     scannedId := scannedId d; isScanned := isScanned d;
     manualEntry := manualEntry d; formData := formData d |}.

Definition set_formData (f : FormData) (d : Dialog) : Dialog :=
  {| step := step d; authEmail := authEmail d; authPassword := authPassword d;
     isAuthenticated := isAuthenticated d; handoverUserId := handoverUserId d;
     scannedId := scannedId d; isScanned := isScanned d;
     manualEntry := manualEntry d; formData := f |}.

(** *** Step 1 *)

Definition handleAuthSubmit {cm : Js.CaseMap} (now : Z) (now_iso : string)
    (d : Dialog) (a : Auth)
  : Dialog * Auth * Toast :=
  let bad := toast_error "Hibás e-mail cím vagy jelszó!" in
  let '(us, st1) := getUsers now_iso (store a) in
  let a1 := {| user := user a; store := st1 |} in
  match List.find (fun u => bool_decide
                     (Js.toLowerCase (u_email u) = Js.toLowerCase (authEmail d))) us with
  | None => (d, a1, bad)
  | Some matchedUser =>
      let '(verified, st2) :=
        verifyUserCredentials now_iso (authEmail d) (authPassword d)
                              (u_id matchedUser) st1 in
      let a2 := {| user := user a; store := st2 |} in
      if verified then
        let d1 := set_step step_scan (set_authenticated (u_id matchedUser) d) in
        if bool_decide (u_id <$> user a = Some (u_id matchedUser))
        then (d1, a2, toast_success "Azonosítás sikeres!")
        else (d1, snd (handleLogin now now_iso (authEmail d) (authPassword d) a2),
              toast_success ("Felhasználóváltás: " ++ u_name matchedUser))
      else (d, a2, bad)
  end.

(** *** Step 2 *)

Definition verifyScannedId (item : option FoundItem) (value : string) (d : Dialog)
  : Dialog * Toast :=
  match item with
  | Some it =>
      if bool_decide (value = id it)
      then (set_step step_form (set_isScanned true d),
            toast_success "Azonosító sikeresen leolvasva!")
      else (set_scannedId "" d, toast_error "Az azonosító nem egyezik a tárggyal!")
  | None => (set_scannedId "" d, toast_error "Az azonosító nem egyezik a tárggyal!")
  end.

(** The [onChange] handler of the scan field; the state updates of one
    event are batched, so the later [setScannedId('')] of a failed
    verification wins over the earlier [setScannedId(value)]. *)
Definition handleScanInput {cm : Js.CaseMap} (item : option FoundItem)
    (input : string) (d : Dialog)
  : Dialog * option Toast :=
  let value := Js.toUpperCase input in
  let d1 := set_scannedId value d in
  if Nat.eqb (Js.length value) 16
  then let '(d2, t) := verifyScannedId item value d1 in (d2, Some t)
  else (d1, None).

Definition handleManualVerify (item : option FoundItem) (d : Dialog) : Dialog * Toast :=
  if Nat.eqb (Js.length (scannedId d)) 16
  then verifyScannedId item (scannedId d) d
  else (d, toast_error "Az azonosító 16 karakter hosszú kell legyen!").

(** *** Step 3 *)

Definition not_space_at (c : N) : bool :=
  negb (Js.is_space c) && negb (N.eqb c 64).

(** [/^[^\s@]+@[^\s@]+\.[^\s@]+$/]; 64 is the code unit of [@], 46 that
    of the dot. *)
Definition emailRegex : Regex.re :=
  Regex.Seq (Regex.Plus (Regex.Class not_space_at))
    (Regex.Seq (Regex.Class (N.eqb 64))
      (Regex.Seq (Regex.Plus (Regex.Class not_space_at))
        (Regex.Seq (Regex.Class (N.eqb 46))
          (Regex.Plus (Regex.Class not_space_at))))).

Definition phone_char (c : N) : bool :=
  Js.is_digit c || Js.is_space c
  || N.eqb c 43 || N.eqb c 45 || N.eqb c 40 || N.eqb c 41.

(** [/^[\d\s\+\-\(\)]+$/]; 43, 45, 40 and 41 are the code units of
    [+], [-] and the two parentheses. *)
Definition phoneRegex : Regex.re := Regex.Plus (Regex.Class phone_char).

Definition validateEmail (email : string) : bool :=
  if negb (Js.truthy email) then true else Regex.test emailRegex (Js.units email).

Definition validatePhone (phone : string) : bool :=
  if negb (Js.truthy phone) then true else Regex.test phoneRegex (Js.units phone).

Definition recipientData_of (f : FormData) : RecipientData :=
  {| recipientName := Js.trim (f_recipientName f);
     recipientAddress := Js.trim (f_recipientAddress f);
     recipientEmail := Js.or_undefined (Js.trim (f_recipientEmail f));
     recipientPhone := Js.or_undefined (Js.trim (f_recipientPhone f));
     recipientIdDocType := Some (f_recipientIdDocType f);
     recipientIdDocNumber := Some (Js.trim (f_recipientIdDocNumber f)) |}.

(** [handleSubmit].  The dialog state is only read; the success branch
    also calls [onHandoverComplete()] and [onOpenChange(false)], which the
    success toast stands for. *)
Definition handleSubmit (now_iso : string) (item : option FoundItem)
    (d : Dialog) (st : Storage) : Storage * Toast :=
  let f := formData d in
  if negb (isAuthenticated d) || negb (Js.truthy_opt (handoverUserId d)) then
    (st, toast_error "Kérjük, először azonosítsa magát!")
  else if negb (isScanned d) then
    (st, toast_error "Kérjük, olvassa le a nyilvántartó címkén szereplő kódot!")
  else if negb (Js.truthy (Js.trim (f_recipientName f))) then
    (st, toast_error "Az átvevő neve kötelező!")
  else if negb (Js.truthy (Js.trim (f_recipientAddress f))) then
    (st, toast_error "Az átvevő lakcíme kötelező!")
  else if negb (Js.truthy (f_recipientIdDocType f)) then
    (st, toast_error "Az okmány típusa kötelező!")
  else if negb (Js.truthy (Js.trim (f_recipientIdDocNumber f))) then
    (st, toast_error "Az okmány azonosítója kötelező!")
  else if negb (validateEmail (f_recipientEmail f)) then
    (st, toast_error "Érvénytelen e-mail cím formátum!")
  else if negb (validatePhone (f_recipientPhone f)) then
    (st, toast_error "Érvénytelen telefonszám formátum!")
  else
    match item, handoverUserId d with
    | None, _ => (st, toast_error "Hiba történt!")
    | Some _, None => (st, toast_error "Kérjük, először azonosítsa magát!")
    | Some it, Some uid =>
        let recipientData := recipientData_of f in
        let '(result, st') :=
          if bool_decide (status it = stored)
          then handOverStoredItem now_iso (id it) uid recipientData st
          else handOverItem now_iso (id it) uid recipientData st in
        match result with
        | Some _ => (st', toast_success "Tárgy sikeresen kiadva!")
        | None => (st', toast_error "Kiadás sikertelen!")
        end
    end.

(** *** The dialog as a state machine *)

Definition set_authData (email password : string) (d : Dialog) : Dialog :=
  {| step := step d; authEmail := email; authPassword := password;
     isAuthenticated := isAuthenticated d; handoverUserId := handoverUserId d;
     scannedId := scannedId d; isScanned := isScanned d;
     manualEntry := manualEntry d; formData := formData d |}.

Definition set_manualEntry (b : bool) (d : Dialog) : Dialog :=
  {| step := step d; authEmail := authEmail d; authPassword := authPassword d;
     isAuthenticated := isAuthenticated d; handoverUserId := handoverUserId d;
     scannedId := scannedId d; isScanned := isScanned d;
     manualEntry := b; formData := formData d |}.

(** What the operator can do before submitting.  Each control exists only
    while its step is rendered. *)
Inductive Event :=
| ev_open
| ev_auth_input (email password : string)
| ev_auth_submit (now : Z) (now_iso : string)
| ev_scan_input (input : string)
| ev_toggle_manual
| ev_manual_verify
| ev_back
| ev_form_change (f : FormData).

Definition dispatch {cm : Js.CaseMap} (item : option FoundItem) (s : Dialog * Auth)
    (e : Event)
  : Dialog * Auth :=
  let '(d, a) := s in
  match e, step d with
  | ev_open, _ => (initialDialog, a)
  | ev_auth_input email password, step_auth => (set_authData email password d, a)
  | ev_auth_submit now now_iso, step_auth => fst (handleAuthSubmit now now_iso d a)
  | ev_scan_input input, step_scan => (fst (handleScanInput item input d), a)
  | ev_toggle_manual, step_scan => (set_manualEntry (negb (manualEntry d)) d, a)
  | ev_manual_verify, step_scan =>
      if manualEntry d && (0 <? Js.length (scannedId d))%nat
      then (fst (handleManualVerify item d), a) else (d, a)
  | ev_back, step_scan => (set_step step_auth d, a)
  | ev_back, step_form => (set_step step_scan d, a)
  | ev_form_change f, step_form => (set_formData f d, a)
  | _, _ => (d, a)
  end.

Definition run {cm : Js.CaseMap} (item : option FoundItem) (events : list Event)
    (a : Auth)
  : Dialog * Auth :=
  foldl (dispatch item) (initialDialog, a) events.


(* ===================================================================== *)
(** ** The user-management dialog ([components/UserManagement]) *)
(* ===================================================================== *)

Record NewUserForm := mkNewUserForm {
  nu_email : string;
  nu_name : string;
  nu_password : string;
  nu_role : Role;
}.

Definition emptyNewUser : NewUserForm := mkNewUserForm "" "" "" role_user.

(** The dialog's [useState] cells: the list shown (a snapshot taken by
    [loadUsers]), the add-user form and the pending delete confirmation. *)
Record UserAdmin := mkUserAdmin {
  shown_users : list User;
  showAddUser : bool;
  deleteConfirm : option string;
  newUser : NewUserForm;
}.

Definition loadUsers (now_iso : string) (c : UserAdmin) (st : Storage)
  : UserAdmin * Storage :=
  let '(allUsers, st1) := getUsers now_iso st in
  ({| shown_users := allUsers; showAddUser := showAddUser c;
      deleteConfirm := deleteConfirm c; newUser := newUser c |}, st1).

Definition set_deleteConfirm (o : option string) (c : UserAdmin) : UserAdmin :=
  {| shown_users := shown_users c; showAddUser := showAddUser c;
     deleteConfirm := o; newUser := newUser c |}.

Definition userData_of (f : NewUserForm) : UserData :=
  {| d_email := nu_email f; d_name := nu_name f; d_password := Some (nu_password f);
     d_role := nu_role f; d_hasExtendedAccess := None;
     d_extendedAccessUntil := None; d_createdByUserId := None |}.

Definition handleAddUser (uuid now_iso : string) (currentUser : option User)
    (c : UserAdmin) (st : Storage) : UserAdmin * Storage * Toast :=
  let f := newUser c in
  if negb (Js.truthy (nu_email f)) || negb (Js.truthy (nu_name f))
     || negb (Js.truthy (nu_password f)) then
    (c, st, toast_error "Kérjük, töltse ki az összes mezőt!")
  else match currentUser with
  | None => (c, st, toast_error "Bejelentkezés szükséges!")
  | Some cu =>
      if existsb (fun u => bool_decide (u_email u = nu_email f)) (shown_users c) then
        (c, st, toast_error "Ez az e-mail cím már foglalt!")
      else
        let '(_, st1) := createUser uuid now_iso (userData_of f) (u_id cu) st in
        let '(c1, st2) := loadUsers now_iso c st1 in
        ({| shown_users := shown_users c1; showAddUser := false;
            deleteConfirm := deleteConfirm c1; newUser := emptyNewUser |},
         st2, toast_success "Felhasználó sikeresen létrehozva!")
  end.

Definition handleDeleteUser (userId : string) (c : UserAdmin) : UserAdmin :=
  set_deleteConfirm (Some userId) c.

(** [confirmDelete]; no toast when there is nothing to confirm. *)
Definition confirmDelete (now_iso : string) (currentUser : option User)
    (c : UserAdmin) (st : Storage) : UserAdmin * Storage * option Toast :=
  match deleteConfirm c with
  | Some target =>
      if Js.truthy target then
        if bool_decide (Some target = u_id <$> currentUser) then
          (set_deleteConfirm None c, st, Some (toast_error "Nem törölheti saját magát!"))
        else
          let '(_, st1) := deleteUser now_iso target st in
          let '(c1, st2) := loadUsers now_iso c st1 in
          (set_deleteConfirm None c1, st2, Some (toast_success "Felhasználó törölve!"))
      else (c, st, None)
  | None => (c, st, None)
  end.

Definition role_update (r : Role) : UserUpdates :=
  mkUserUpdates None None None None (Some r) None None None None.

Definition handleRoleChange (now_iso : string) (currentUser : option User)
    (userId : string) (newRole : Role) (c : UserAdmin) (st : Storage)
  : UserAdmin * Storage * Toast :=
  if bool_decide (Some userId = u_id <$> currentUser) then
    (c, st, toast_error "Nem módosíthatja saját jogosultságát!")
  else
    let '(_, st1) := updateUser now_iso userId (role_update newRole) st in
    let '(c1, st2) := loadUsers now_iso c st1 in
    (c1, st2, toast_success "Jogosultság módosítva!").

(* ===================================================================== *)
(** ** Predicates of the specification *)
(* ===================================================================== *)

Local Open Scope list_scope.

Definition active_ids (st : Storage) : list string := id <$> found_items st.

Definition archived_ids (st : Storage) : list string :=
  (fun h => id (ho_item h)) <$> handed_over_items st.

(** The ids of the store: those of the active items, then those of the
    archived ones. *)
Definition all_ids (st : Storage) : list string :=
  active_ids st ++ archived_ids st.

(** An id is in exactly one of the two collections. *)
Definition in_exactly_one (i : string) (st : Storage) : Prop :=
  ((i ∈ active_ids st) /\ (i ∉ archived_ids st))
  \/ ((i ∉ active_ids st) /\ (i ∈ archived_ids st)).

(** Exclusivity as the specification words it: every id of an item of the
    store is in exactly one collection. *)
Definition exclusive (st : Storage) : Prop :=
  forall i, i ∈ all_ids st -> in_exactly_one i st.

(** Identifiers are pairwise distinct over both collections together. *)
Definition unique_ids (st : Storage) : Prop := NoDup (all_ids st).

(** The storage apart from the two item collections. *)
Definition same_accounts (st st' : Storage) : Prop :=
  users st' = users st /\ current_user st' = current_user st
  /\ last_activity st' = last_activity st.

(** Two found items that agree on every field but (possibly) the status. *)
Definition same_but_status (a b : FoundItem) : Prop :=
  with_status (status b) a = b.

(** Two found items that agree, field by field, on everything other than
    the status. *)
Definition same_fields (a b : FoundItem) : Prop :=
  id b = id a /\ foundDate b = foundDate a /\ foundLocation b = foundLocation a
  /\ finderName b = finderName a /\ finderContact b = finderContact a
  /\ itemName b = itemName a /\ description b = description a
  /\ brand b = brand a /\ material b = material a /\ shape b = shape a
  /\ color b = color a /\ size b = size a /\ imageUrl b = imageUrl a
  /\ createdAt b = createdAt a /\ createdByUserId b = createdByUserId a.


(** A required recipient field is missing: blank name, address or document
    number, or no document type chosen. *)
Definition required_missing (f : FormData) : Prop :=
  Js.trim (f_recipientName f) = "" \/ Js.trim (f_recipientAddress f) = ""
  \/ f_recipientIdDocType f = "" \/ Js.trim (f_recipientIdDocNumber f) = "".

(** A non-empty optional field fails its format check. *)
Definition bad_format (f : FormData) : Prop :=
  (f_recipientEmail f <> ""
   /\ Regex.test emailRegex (Js.units (f_recipientEmail f)) = false)
  \/ (f_recipientPhone f <> ""
      /\ Regex.test phoneRegex (Js.units (f_recipientPhone f)) = false).

(** The dialog has come to step 3: authenticated as [uid] in step 1 and
    scanned in step 2. *)
Definition at_step3 (d : Dialog) (uid : string) : Prop :=
  step d = step_form /\ isAuthenticated d = true /\ isScanned d = true
  /\ handoverUserId d = Some uid /\ uid <> "".

(** Past step 1 the operator is authenticated; at step 3 the tag has been
    scanned. *)
Definition dialog_inv (d : Dialog) : Prop :=
  (step d <> step_auth -> isAuthenticated d = true /\ is_Some (handoverUserId d))
  /\ (step d = step_form -> isScanned d = true).

Definition logged_out (a : Auth) : Auth :=
  {| user := None;
     store := set_last_activity None (set_current_user None (store a)) |}.

Definition emails_of (st : Storage) : list string :=
  u_email <$> default [] (users st).

(* ===================================================================== *)
(** ** Sample data *)
(* ===================================================================== *)

Definition empty_storage : Storage :=
  {| found_items := []; handed_over_items := []; users := None;
     current_user := None; last_activity := None |}.

Definition zero_draws : vec (fin 16) 8 :=
  [# 0%fin; 0%fin; 0%fin; 0%fin; 0%fin; 0%fin; 0%fin; 0%fin].

Definition umbrella : NewItemData :=
  {| n_foundDate := "2024-01-01"; n_foundLocation := "Station";
     n_finderName := "A. Finder"; n_finderContact := "";
     n_itemName := "Umbrella"; n_description := "black";
     n_brand := None; n_material := None; n_shape := None;
     n_color := None; n_size := None; n_imageUrl := None |}.

Definition sample_item (i : string) (fd : string) (s : Status) : FoundItem :=
  {| id := i; foundDate := fd; foundLocation := "Station";
     finderName := "A. Finder"; finderContact := "";
     itemName := "Umbrella"; description := "black";
     brand := None; material := None; shape := None;
     color := None; size := None; imageUrl := None;
     createdAt := "2024-01-01T10:00:00.000Z"; createdByUserId := "2";
     status := s |}.

Definition sample_recipient : RecipientData :=
  {| recipientName := "C. Claimant"; recipientAddress := "1 Main Street";
     recipientEmail := None; recipientPhone := None;
     recipientIdDocType := Some "passport"; recipientIdDocNumber := Some "AB123456" |}.

(** Two registrations in the same second whose random digits coincide. *)
Definition twice_registered : Storage :=
  let st1 := snd (saveFoundItem 1704103200000 zero_draws "2024-01-01T10:00:00.000Z"
                                umbrella "2" empty_storage) in
  snd (saveFoundItem 1704103200500 zero_draws "2024-01-01T10:00:00.500Z"
                     umbrella "2" st1).

Definition one_registered : Storage :=
  snd (saveFoundItem 1704103200000 zero_draws "2024-01-01T10:00:00.000Z"
                     umbrella "2" empty_storage).

(** Midnight UTC of the dates used in the examples, as [Date] reads a
    date-only ISO string. *)
Definition calendar (s : string) : option Z :=
  if decide (s = "2024-01-01") then Some 1704067200000%Z
  else if decide (s = "2024-07-19") then Some 1721347200000%Z
  else if decide (s = "2026-01-01") then Some 1767225600000%Z
  else None.

(** An item registered on 2024-01-01 with a found date of 2024-07-19. *)
Definition found_in_future : FoundItem :=
  sample_item "65928D2000000000" "2024-07-19" active.

Definition found_far_in_future : FoundItem :=
  sample_item "65928D2000000001" "2026-01-01" active.

Definition found_new_year : FoundItem :=
  sample_item "65928D2000000002" "2024-01-01" active.


Definition tagged_item : FoundItem :=
  sample_item "A1B2C3D4E5F6A7B8" "2024-01-01" active.

Definition admin_user : User :=
  {| u_id := "1"; u_email := "admin@example.com"; u_name := "Adminisztrátor";
     u_password := Some "admin123"; u_role := role_admin;
     u_hasExtendedAccess := None; u_extendedAccessUntil := None;
     u_createdAt := Some "2024-01-01T00:00:00.000Z"; u_createdByUserId := None |}.

Definition seeded_storage : Storage :=
  snd (initializeDefaultUsers "2024-01-01T00:00:00.000Z" empty_storage).

Definition user_admin_opened : UserAdmin :=
  fst (loadUsers "2024-01-01T00:00:00.000Z"
         (mkUserAdmin [] false None emptyNewUser) seeded_storage).

Definition session_at (T : Z) : Auth :=
  {| user := Some admin_user;
     store := set_last_activity (Some T) (set_current_user (Some admin_user) seeded_storage) |}.

Definition adding (f : NewUserForm) : UserAdmin :=
  {| shown_users := shown_users user_admin_opened; showAddUser := true;
     deleteConfirm := None; newUser := f |}.

Definition filled_form : FormData :=
  {| f_recipientName := " C. Claimant "; f_recipientAddress := "1 Main Street";
     f_recipientEmail := "claimant@example.com"; f_recipientPhone := "+36 30 123 4567";
     f_recipientIdDocType := "útlevél"; f_recipientIdDocNumber := "AB123456" |}.

(** The no-break space U+00A0, as its two bytes. *)
Definition nbsp : string := String (ascii_of_nat 194) (String (ascii_of_nat 160) "").

(** A form typed with no-break spaces: around the name and inside the
    phone number. *)
Definition padded_form : FormData :=
  {| f_recipientName := nbsp ++ "Kovács Éva" ++ nbsp;
     f_recipientAddress := "Fő utca 1.";
     f_recipientEmail := "claimant@example.com";
     f_recipientPhone := "+36" ++ nbsp ++ "30" ++ nbsp ++ "123" ++ nbsp ++ "4567";
     f_recipientIdDocType := "útlevél"; f_recipientIdDocNumber := "AB123456" |}.

(** The same form with a name made of one no-break space. *)
Definition blank_name_form : FormData :=
  {| f_recipientName := nbsp; f_recipientAddress := "Fő utca 1.";
     f_recipientEmail := "claimant@example.com"; f_recipientPhone := "";
     f_recipientIdDocType := "útlevél"; f_recipientIdDocNumber := "AB123456" |}.

Definition at_form_step (f : FormData) : Dialog :=
  {| step := step_form; authEmail := "admin@example.com"; authPassword := "admin123";
     isAuthenticated := true; handoverUserId := Some "1";
     scannedId := "A1B2C3D4E5F6A7B8"; isScanned := true; manualEntry := false;
     formData := f |}.

Definition sold_tagged_item : FoundItem :=
  sample_item "A1B2C3D4E5F6A7B9" "2024-01-01" sold.

Definition two_items : Storage :=
  set_found_items [sold_tagged_item; tagged_item] seeded_storage.

(* ===================================================================== *)
(** ** Further functions of the storage layer ([lib/storage]) *)
(* ===================================================================== *)

(** *** Extended access *)

(** [{ hasExtendedAccess: b, extendedAccessUntil: undefined }]: both keys
    are present, the second with the value [undefined]. *)
Definition access_update (b : bool) : UserUpdates :=
  mkUserUpdates None None None None None (Some (Some b)) (Some None) None None.

Definition grantExtendedAccess (now_iso : string) (userId : string) (st : Storage)
  : option User * Storage :=
  updateUser now_iso userId (access_update true) st.

Definition revokeExtendedAccess (now_iso : string) (userId : string) (st : Storage)
  : option User * Storage :=
  updateUser now_iso userId (access_update false) st.

(** *** Locations *)

Record Location := mkLocation {
  l_id : string;
  l_name : string;
  l_createdAt : string;
  l_createdByUserId : string;
}.

#[global] Instance Location_eq_dec : EqDecision Location.
Proof. solve_decision. Defined.

(** The location functions read and write the locations key only; their
    state is the array under that key, an absent key being read as the
    empty array. *)
Definition getLocations (ls : list Location) : list Location := ls.

Definition saveLocation (uuid now_iso : string) (name createdBy : string)
    (ls : list Location) : Location * list Location :=
  let locations := getLocations ls in
  let newLocation :=
    {| l_id := uuid; l_name := name; l_createdAt := now_iso;
       l_createdByUserId := createdBy |} in
  (newLocation, locations ++ [newLocation]).

Definition deleteLocation (locId : string) (ls : list Location)
  : bool * list Location :=
  let locations := getLocations ls in
  let filtered := filter (fun l => l_id l <> locId) locations in
  if negb (Nat.eqb (List.length filtered) (List.length locations))
  then (true, filtered)
  else (false, ls).

Definition with_name (name : string) (l : Location) : Location :=
  {| l_id := l_id l; l_name := name; l_createdAt := l_createdAt l;
     l_createdByUserId := l_createdByUserId l |}.

Definition updateLocation (locId name : string) (ls : list Location)
  : option Location * list Location :=
  let locations := getLocations ls in
  match list_find (fun l => l_id l = locId) locations with
  | Some (index, l) => (Some (with_name name l), <[index := with_name name l]> locations)
  | None => (None, ls)
  end.

(** *** The two time windows *)

(** [foundDate >= start && item.status === 'active'], the dates compared
    by their time values; an invalid date compares false. *)
Definition in_window (date_time : string -> option Z) (start : Z) (item : FoundItem)
  : Prop :=
  num_ge (date_time (foundDate item)) start = true /\ status item = active.

#[global] Instance in_window_dec date_time start item :
  Decision (in_window date_time start item).
Proof. unfold in_window. apply _. Defined.

Definition getItemsLast90Days (date_time : string -> option Z) (now : Z)
    (items : list FoundItem) : list FoundItem :=
  let ninetyDaysAgo := (now - 90 * 24 * 60 * 60 * 1000)%Z in
  filter (in_window date_time ninetyDaysAgo) items.

Definition getItemsLast366Days (date_time : string -> option Z) (now : Z)
    (items : list FoundItem) : list FoundItem :=
  let yearAgo := (now - 366 * 24 * 60 * 60 * 1000)%Z in
  filter (in_window date_time yearAgo) items.

(* ===================================================================== *)
(** ** Further parts of the components *)
(* ===================================================================== *)

(** *** The authentication context *)

(** The effect run when the provider mounts: a saved user is restored
    unless the idle window has elapsed since the recorded activity. *)
Definition restoreSession (now : Z) (a : Auth) : Auth :=
  match getCurrentUser (store a) with
  | Some savedUser =>
      match last_activity (store a) with
      | Some lastActivity =>
          let elapsed := (now - lastActivity)%Z in
          if (INACTIVITY_TIMEOUT <? elapsed)%Z
          then handleLogout a
          else {| user := Some savedUser; store := store a |}
      | None => {| user := Some savedUser; store := store a |}
      end
  | None => a
  end.

(** *** The item rows ([ItemListView], [ItemCard]) *)

Definition canHandover (isStoredView isAdmin isAuthenticated : bool)
    (item : FoundItem) : bool :=
  if isStoredView then isAdmin
  else isAuthenticated && bool_decide (status item = active).

Definition canRestore (isAdmin : bool) (item : FoundItem) : bool :=
  isAdmin && bool_decide (status item = stored).

(** *** The item list ([ItemList]) *)

(** The visibility step of [displayedItems], before the search filters
    and the sort. *)
Definition visible_items (date_time : string -> option Z) (now : Z)
    (isAdmin userHasExtendedAccess showAll : bool) (items : list FoundItem)
  : list FoundItem :=
  if isAdmin && showAll then filter (fun item => status item = active) items
  else if userHasExtendedAccess && showAll then getItemsLast366Days date_time now items
  else getItemsLast90Days date_time now items.

Record ItemCounts := mkItemCounts {
  count_active : nat;
  count_storable : nat;
  count_stored : nat;
  count_total : nat;
}.

Definition itemCounts (date_time : string -> option Z) (now : Z)
    (items storedItems : list FoundItem) : ItemCounts :=
  let activeItems := filter (fun item => status item = active) items in
  let storableItems :=
    filter (fun item => num_ge (getDaysSinceFound date_time now (foundDate item)) 100 = true)
           activeItems in
  {| count_active := List.length activeItems;
     count_storable := List.length storableItems;
     count_stored := List.length storedItems;
     count_total := List.length activeItems + List.length storedItems |}.

(** *** The location dialog ([LocationManagement]) *)

Record LocationAdmin := mkLocationAdmin {
  shown_locations : list Location;
  newLocationName : string;
  editingId : option string;
  editingName : string;
}.

Definition loadLocations (c : LocationAdmin) (ls : list Location) : LocationAdmin :=
  {| shown_locations := getLocations ls; newLocationName := newLocationName c;
     editingId := editingId c; editingName := editingName c |}.

Definition handleAdd {cm : Js.CaseMap} (uuid now_iso : string)
    (currentUser : option User)
    (c : LocationAdmin) (ls : list Location) : LocationAdmin * list Location * Toast :=
  if negb (Js.truthy (Js.trim (newLocationName c))) then
    (c, ls, toast_error "Adja meg a helyszín nevét!")
  else match currentUser with
  | None => (c, ls, toast_error "Bejelentkezés szükséges!")
  | Some u =>
      if existsb (fun l => bool_decide
                    (Js.toLowerCase (l_name l)
                     = Js.trim (Js.toLowerCase (newLocationName c))))
                 (shown_locations c) then
        (c, ls, toast_error "Ez a helyszín már létezik!")
      else
        let '(_, ls1) := saveLocation uuid now_iso (Js.trim (newLocationName c)) (u_id u) ls in
        let c1 := {| shown_locations := shown_locations c; newLocationName := "";
                     editingId := editingId c; editingName := editingName c |} in
        (loadLocations c1 ls1, ls1, toast_success "Helyszín hozzáadva!")
  end.

Definition handleDeleteLocation (locId : string) (c : LocationAdmin)
    (ls : list Location) : LocationAdmin * list Location * Toast :=
  let '(_, ls1) := deleteLocation locId ls in
  (loadLocations c ls1, ls1, toast_success "Helyszín törölve!").

Definition cancelEdit (c : LocationAdmin) : LocationAdmin :=
  {| shown_locations := shown_locations c; newLocationName := newLocationName c;
     editingId := None; editingName := "" |}.

(** [saveEdit]; when there is no (or an empty) id under edit only the
    edit cells are reset, without a toast. *)
Definition saveEdit (c : LocationAdmin) (ls : list Location)
  : LocationAdmin * list Location * option Toast :=
  if negb (Js.truthy (Js.trim (editingName c))) then
    (c, ls, Some (toast_error "Adja meg a helyszín nevét!"))
  else if Js.truthy_opt (editingId c) then
    match editingId c with
    | Some eid =>
        let '(_, ls1) := updateLocation eid (Js.trim (editingName c)) ls in
        (cancelEdit (loadLocations c ls1), ls1, Some (toast_success "Helyszín módosítva!"))
    | None => (cancelEdit c, ls, None)
    end
  else (cancelEdit c, ls, None).

(** *** The registration dialog ([AddItemDialog]) *)

Record AddForm := mkAddForm {
  a_foundDate : string;
  a_foundLocation : string;
  a_finderName : string;
  a_finderContact : string;
  a_itemName : string;
  a_description : string;
  a_brand : string;
  a_material : string;
  a_shape : string;
  a_color : string;
  a_size : string;
}.

(** [/^\d{4}-\d{2}-\d{2}$/]; 45 is the code unit of the dash. *)
Definition dateRegex : Regex.re :=
  let d := Regex.Class Js.is_digit in
  let dash := Regex.Class (N.eqb 45) in
  Regex.Seq d (Regex.Seq d (Regex.Seq d (Regex.Seq d
    (Regex.Seq dash (Regex.Seq d (Regex.Seq d
      (Regex.Seq dash (Regex.Seq d d)))))))).

(** [validateForm]: [None] when it returns true, the error toast it shows
    when it returns false. *)
Definition validateForm (f : AddForm) : option Toast :=
  if negb (Js.truthy (Js.trim (a_foundLocation f))) then
    Some (toast_error "A találás helye kötelező!")
  else if negb (Js.truthy (Js.trim (a_finderName f))) then
    Some (toast_error "A találó neve kötelező!")
  else if negb (Js.truthy (Js.trim (a_itemName f))) then
    Some (toast_error "A tárgy megnevezése kötelező!")
  else if negb (Js.truthy (a_foundDate f)) then
    Some (toast_error "A találás dátuma kötelező!")
  else if negb (Regex.test dateRegex (Js.units (a_foundDate f))) then
    Some (toast_error "Érvénytelen dátum formátum!")
  else None.

(** [{ ...formData, imageUrl: imageUrl || undefined }] *)
Definition newItemData_of (f : AddForm) (imageUrl : string) : NewItemData :=
  {| n_foundDate := a_foundDate f; n_foundLocation := a_foundLocation f;
     n_finderName := a_finderName f; n_finderContact := a_finderContact f;
     n_itemName := a_itemName f; n_description := a_description f;
     n_brand := Some (a_brand f); n_material := Some (a_material f);
     n_shape := Some (a_shape f); n_color := Some (a_color f);
     n_size := Some (a_size f); n_imageUrl := Js.or_undefined imageUrl |}.

(** The part of the dialog's [handleSubmit] up to the registration; the
    sheet generation that may follow does not touch the storage. *)
Definition handleAddSubmit (now : Z) (rnd : vec (fin 16) 8) (now_iso : string)
    (currentUser : option User) (f : AddForm) (imageUrl : string) (st : Storage)
  : option FoundItem * Storage * option Toast :=
  match validateForm f with
  | Some t => (None, st, Some t)
  | None =>
      match currentUser with
      | None => (None, st, Some (toast_error "Bejelentkezés szükséges!"))
      | Some u =>
          let '(newItem, st1) :=
            saveFoundItem now rnd now_iso (newItemData_of f imageUrl) (u_id u) st in
          (Some newItem, st1, Some (toast_success "Tárgy sikeresen rögzítve!"))
      end
  end.

(* ===================================================================== *)
(** ** The language of a pattern *)
(* ===================================================================== *)

(** What it means for a sequence of code units to match a pattern,
    against which the derivative matcher is checked. *)
Inductive matches : Regex.re -> list N -> Prop :=
| m_eps : matches Regex.Eps []
| m_class p c : p c = true -> matches (Regex.Class p) [c]
| m_seq r1 r2 s1 s2 :
    matches r1 s1 -> matches r2 s2 -> matches (Regex.Seq r1 r2) (s1 ++ s2)
| m_alt_l r1 r2 s : matches r1 s -> matches (Regex.Alt r1 r2) s
| m_alt_r r1 r2 s : matches r2 s -> matches (Regex.Alt r1 r2) s
| m_star_nil r : matches (Regex.Star r) []
| m_star_cons r s1 s2 :
    matches r s1 -> matches (Regex.Star r) s2 -> matches (Regex.Star r) (s1 ++ s2).

(** Every character of the string satisfies the test. *)
Fixpoint all_chars (p : ascii -> bool) (s : string) : bool :=
  match s with
  | EmptyString => true
  | String c r => p c && all_chars p r
  end.

(** A non-empty run of code units that are neither white space nor [@]. *)
Definition email_part (s : list N) : Prop :=
  s <> [] /\ forallb not_space_at s = true.

Definition is_hex_upper (c : ascii) : bool :=
  let n := nat_of_ascii c in
  ((48 <=? n)%nat && (n <=? 57)%nat) || ((65 <=? n)%nat && (n <=? 70)%nat).

Definition saved_session (T : Z) : Auth :=
  {| user := None; store := store (session_at T) |}.

Definition at_auth_step (email password : string) : Dialog :=
  set_authData email password initialDialog.

(** The two item collections of a storage. *)
Definition same_items (st st' : Storage) : Prop :=
  found_items st' = found_items st /\ handed_over_items st' = handed_over_items st.

(** How often a code unit occurs. *)
Fixpoint count_unit (c : N) (s : list N) : nat :=
  match s with
  | [] => 0
  | x :: r => (if N.eqb x c then 1 else 0) + count_unit c r
  end.

Definition is_hex_lower (c : ascii) : bool :=
  let n := nat_of_ascii c in
  ((48 <=? n)%nat && (n <=? 57)%nat) || ((97 <=? n)%nat && (n <=? 102)%nat).

(** The names of the locations, compared as the duplicate check of the
    location dialog compares them. *)
Definition lower_names {cm : Js.CaseMap} (ls : list Location) : list string :=
  (fun l => Js.toLowerCase (l_name l)) <$> ls.

Definition distinct_names {cm : Js.CaseMap} (ls : list Location) : Prop :=
  NoDup (lower_names ls).

(** Of two characters the second is the first with its bytes mapped, and
    is white space exactly when the first is. *)
Definition mapped_char (f : ascii -> ascii) (g g' : N * string) : Prop :=
  Js.is_space (fst g') = Js.is_space (fst g) /\ snd g' = Js.map_string f (snd g).

Definition lobby : Location :=
  {| l_id := "loc-1"; l_name := "Lobby"; l_createdAt := "2024-01-02T08:00:00.000Z";
     l_createdByUserId := "1" |}.

Definition garage : Location :=
  {| l_id := "loc-2"; l_name := "Garage"; l_createdAt := "2024-01-02T09:00:00.000Z";
     l_createdByUserId := "1" |}.

Definition renaming_garage : LocationAdmin :=
  {| shown_locations := [lobby; garage]; newLocationName := "";
     editingId := Some "loc-2"; editingName := "lobby " |}.

(** The location dialog showing the two locations, a new name typed. *)
Definition adding_location (name : string) : LocationAdmin :=
  {| shown_locations := [lobby; garage]; newLocationName := name;
     editingId := None; editingName := "" |}.

(** An edit whose new name is one no-break space. *)
Definition editing_blank (eid : string) : LocationAdmin :=
  {| shown_locations := [lobby; garage]; newLocationName := "";
     editingId := Some eid; editingName := nbsp |}.

(* ===================================================================== *)
(** ** Lemmas on the storage layer *)
(* ===================================================================== *)

Lemma with_status_id s it : id (with_status s it) = id it.
Proof. reflexivity. Qed.

Lemma with_status_status s it : status (with_status s it) = s.
Proof. reflexivity. Qed.

Lemma with_status_same it : with_status (status it) it = it.
Proof. by destruct it. Qed.

Lemma same_but_status_with s it : same_but_status it (with_status s it).
Proof. reflexivity. Qed.

(** The first match of a stronger predicate at the position of the first
    match of a weaker one. *)
Lemma list_find_refine {A} (P Q : A -> Prop)
    `{!forall x, Decision (P x)} `{!forall x, Decision (Q x)} (l : list A) i x :
  (forall y, Q y -> P y) ->
  list_find P l = Some (i, x) -> Q x -> list_find Q l = Some (i, x).
Proof.
  intros HQP [Hi [_ Hmin]]%list_find_Some HQ.
  apply list_find_Some. split_and!; [done..|].
  intros j y Hj Hlt HQy. eapply Hmin; eauto.
Qed.

(** Case analysis on the answer of the [findIndex] of the goal: an index
    [i] holding [item], or no match. *)
Ltac case_find i item Hi :=
  match goal with
  | |- context [list_find ?P ?l] =>
      let Hfind := fresh "Hfind" in
      destruct (list_find P l) as [[i item]|] eqn:Hfind;
      [pose proof (proj1 (list_find_Some _ _ _ _) Hfind) as (Hi & _ & _)|]
  end.

Lemma getFoundItemById_Some itemId st item :
  getFoundItemById itemId st = Some item <->
  exists i, list_find (fun x => id x = itemId) (found_items st) = Some (i, item).
Proof.
  unfold getFoundItemById, getFoundItems.
  destruct (list_find _ _) as [[i x]|]; simpl; split.
  - intros [= ->]. eauto.
  - intros [j [= _ ->]]. done.
  - done.
  - intros [j [=]].
Qed.

Lemma getFoundItemById_None itemId st :
  getFoundItemById itemId st = None <->
  forall x, x ∈ found_items st -> id x <> itemId.
Proof.
  unfold getFoundItemById, getFoundItems.
  rewrite fmap_None, list_find_None, Forall_forall. done.
Qed.

(** With distinct identifiers, every stored item is the one found under
    its id. *)
Lemma getFoundItemById_unique st item :
  NoDup (active_ids st) -> item ∈ found_items st ->
  getFoundItemById (id item) st = Some item.
Proof.
  intros Hnd [i Hi]%list_elem_of_lookup.
  apply getFoundItemById_Some. exists i.
  apply list_find_Some. split_and!; [done..|].
  intros j y Hj Hlt Heq.
  assert (i = j); [|lia].
  eapply NoDup_lookup; [exact Hnd| |]; unfold active_ids;
    rewrite list_lookup_fmap.
  - by rewrite Hi.
  - rewrite Hj. simpl. by rewrite Heq.
Qed.

Lemma archive_at_Some i item now_iso by_user rd st :
  archive_at (Some (i, item)) now_iso by_user rd st =
    (Some (mk_handed_over item now_iso by_user rd),
     {| found_items := delete i (found_items st);
        handed_over_items := handed_over_items st ++ [mk_handed_over item now_iso by_user rd];
        users := users st; current_user := current_user st;
        last_activity := last_activity st |}).
Proof. reflexivity. Qed.

(* ===================================================================== *)
(** ** Restore from storage *)
(* ===================================================================== *)

Lemma restoreFromStorage_found itemId st i item :
  list_find (fun x => id x = itemId /\ status x = stored) (found_items st) = Some (i, item) ->
  restoreFromStorage itemId st =
    (true, set_found_items (<[i := with_status active item]> (found_items st)) st).
Proof. intros H. unfold restoreFromStorage, getFoundItems. by rewrite H. Qed.

Lemma restoreFromStorage_missing itemId st :
  list_find (fun x => id x = itemId /\ status x = stored) (found_items st) = None ->
  restoreFromStorage itemId st = (false, st).
Proof. intros H. unfold restoreFromStorage, getFoundItems. by rewrite H. Qed.

(** C10. [restoreFromStorage(id)] answers true exactly when the active
    collection holds an item with that id and status 'stored'.  When it
    answers true, the item at the position found (the first such item)
    has afterwards the status 'active' and, field by field, every other
    field as before; every other position of the collection, the archive
    and the rest of the storage are as before.  When it answers false the
    storage is as before. *)
Theorem restoreFromStorage_frame (itemId : string) (st : Storage) :
  let r := fst (restoreFromStorage itemId st) in
  let st' := snd (restoreFromStorage itemId st) in
  (r = true <->
     exists item, item ∈ found_items st /\ id item = itemId /\ status item = stored)
  /\ (r = true ->
      exists i item item',
        found_items st !! i = Some item /\ id item = itemId /\ status item = stored
        /\ (forall j x, j < i -> found_items st !! j = Some x ->
               ~ (id x = itemId /\ status x = stored))
        /\ found_items st' !! i = Some item'
        /\ status item' = active
        /\ same_fields item item'
        /\ item' = with_status active item
        /\ same_but_status item item'
        /\ (forall j, j <> i -> found_items st' !! j = found_items st !! j)
        /\ length (found_items st') = length (found_items st)
        /\ handed_over_items st' = handed_over_items st
        /\ same_accounts st st')
  /\ (r = false -> st' = st).
Proof.
  simpl.
  destruct (list_find (fun x => id x = itemId /\ status x = stored) (found_items st))
    as [[i item]|] eqn:Hfind.
  - rewrite (restoreFromStorage_found _ _ _ _ Hfind). simpl.
    apply list_find_Some in Hfind as (Hi & [Hid Hst] & Hmin).
    split_and!.
    + split; [|done]. intros _. exists item.
      split_and!; [|done..]. by eapply list_elem_of_lookup_2.
    + intros _. exists i, item, (with_status active item). split_and!; try done.
      * intros j x Hj Hx. by apply (Hmin j x).
      * apply list_lookup_insert_eq. by eapply lookup_lt_Some.
      * intros j Hj. by apply list_lookup_insert_ne.
      * apply length_insert.
    + done.
  - rewrite (restoreFromStorage_missing _ _ Hfind). simpl.
    rewrite list_find_None, Forall_forall in Hfind.
    split_and!; [|done..].
    split; [done|]. intros (item & Hin & Hid & Hst).
    exfalso. by apply (Hfind item Hin).
Qed.

(* ===================================================================== *)
(** ** Handing over by id *)
(* ===================================================================== *)

Lemma handOverItem_found now_iso itemId by_user rd st i item :
  list_find (fun x => id x = itemId) (found_items st) = Some (i, item) ->
  handOverItem now_iso itemId by_user rd st =
    archive_at (Some (i, item)) now_iso by_user rd st.
Proof. intros H. unfold handOverItem, getFoundItems. by rewrite H. Qed.


Lemma handOverStoredItem_found now_iso itemId by_user rd st i item :
  list_find (fun x => id x = itemId /\ status x = stored) (found_items st) = Some (i, item) ->
  handOverStoredItem now_iso itemId by_user rd st =
    archive_at (Some (i, item)) now_iso by_user rd st.
Proof. intros H. unfold handOverStoredItem, getFoundItems. by rewrite H. Qed.



(** The sold item of [two_items] is handed over by [handOverItem] and
    refused by [handOverStoredItem]; an unknown id is refused by both. *)
Example handOverItem_sold_sample :
  let r := handOverItem "2024-01-02T08:00:00.000Z" "A1B2C3D4E5F6A7B9" "1"
             sample_recipient two_items in
  status <$> (ho_item <$> fst r) = Some handed_over
  /\ active_ids (snd r) = ["A1B2C3D4E5F6A7B8"]
  /\ archived_ids (snd r) = ["A1B2C3D4E5F6A7B9"]
  /\ handOverStoredItem "2024-01-02T08:00:00.000Z" "A1B2C3D4E5F6A7B9" "1"
       sample_recipient two_items = (None, two_items)
  /\ handOverItem "2024-01-02T08:00:00.000Z" "0000000000000000" "1"
       sample_recipient two_items = (None, two_items).
Proof. repeat split; reflexivity. Qed.

Example restoreFromStorage_sample :
  let st := updateItemStatus "A1B2C3D4E5F6A7B8" stored two_items in
  status <$> found_items st = [sold; stored]
  /\ restoreFromStorage "A1B2C3D4E5F6A7B8" st = (true, two_items)
  /\ restoreFromStorage "A1B2C3D4E5F6A7B9" st = (false, st)
  /\ restoreFromStorage "A1B2C3D4E5F6A7B8" two_items = (false, two_items).
Proof. repeat split; reflexivity. Qed.

(* ===================================================================== *)
(** ** Exclusivity of the two collections *)
(* ===================================================================== *)

Lemma unique_ids_exclusive st : unique_ids st -> exclusive st.
Proof.
  unfold unique_ids, exclusive, in_exactly_one, all_ids.
  intros (_ & Hdisj & _)%NoDup_app i [Ha|Hh]%elem_of_app.
  - left. split; [done|]. by apply Hdisj.
  - right. split; [|done]. intros Ha. by apply (Hdisj i Ha).
Qed.

Lemma unique_ids_perm st st' :
  all_ids st' ≡ₚ all_ids st -> unique_ids st -> unique_ids st'.
Proof. unfold unique_ids. by intros ->. Qed.

(** Writing a status does not touch the ids. *)
Lemma all_ids_set_status st i item s :
  found_items st !! i = Some item ->
  all_ids (set_found_items (<[i := with_status s item]> (found_items st)) st)
  = all_ids st.
Proof.
  intros Hi. unfold all_ids, active_ids, archived_ids. simpl. f_equal.
  rewrite list_fmap_insert. apply list_insert_id.
  by rewrite list_lookup_fmap, Hi.
Qed.

Lemma all_ids_updateItemStatus itemId s st :
  all_ids (updateItemStatus itemId s st) = all_ids st.
Proof.
  unfold updateItemStatus, getFoundItems.
  case_find i item Hi; [|done]. by apply all_ids_set_status.
Qed.

Lemma all_ids_restoreFromStorage itemId st :
  all_ids (snd (restoreFromStorage itemId st)) = all_ids st.
Proof.
  unfold restoreFromStorage, getFoundItems.
  case_find i item Hi; [|done]. by apply all_ids_set_status.
Qed.

(** Archiving moves one id from the active to the archived ids. *)
Lemma all_ids_archive_at found now_iso by_user rd st :
  (forall i item, found = Some (i, item) -> found_items st !! i = Some item) ->
  all_ids (snd (archive_at found now_iso by_user rd st)) ≡ₚ all_ids st.
Proof.
  destruct found as [[i item]|]; [|done]. intros Hi.
  specialize (Hi i item eq_refl).
  rewrite archive_at_Some. unfold all_ids, active_ids, archived_ids. simpl.
  rewrite fmap_app. simpl.
  rewrite (delete_Permutation _ _ _ Hi) at 2. simpl.
  rewrite (app_assoc _ _ [id item]), <-Permutation_cons_append. done.
Qed.

Lemma all_ids_handOverItem now_iso itemId by_user rd st :
  all_ids (snd (handOverItem now_iso itemId by_user rd st)) ≡ₚ all_ids st.
Proof.
  apply all_ids_archive_at. intros i item Hfind.
  by apply list_find_Some in Hfind as (Hi & _ & _).
Qed.

Lemma all_ids_handOverStoredItem now_iso itemId by_user rd st :
  all_ids (snd (handOverStoredItem now_iso itemId by_user rd st)) ≡ₚ all_ids st.
Proof.
  apply all_ids_archive_at. intros i item Hfind.
  by apply list_find_Some in Hfind as (Hi & _ & _).
Qed.

Lemma all_ids_saveFoundItem now rnd now_iso item by_user st :
  all_ids (snd (saveFoundItem now rnd now_iso item by_user st))
  ≡ₚ generateItemId now rnd :: all_ids st.
Proof.
  unfold all_ids, active_ids, archived_ids, saveFoundItem, getFoundItems. simpl.
  rewrite fmap_app. simpl.
  rewrite <-app_assoc. simpl. by rewrite <-Permutation_middle.
Qed.

(** Deleting removes the id from the active ids and leaves the archive. *)
Lemma active_ids_deleteItem itemId st :
  active_ids (deleteItem itemId st) = filter (fun i => i <> itemId) (active_ids st).
Proof.
  unfold deleteItem, getFoundItems, active_ids. simpl.
  induction (found_items st) as [|x l IH]; [done|].
  rewrite fmap_cons, !filter_cons.
  destruct (decide (id x <> itemId)); by rewrite ?fmap_cons, IH.
Qed.

Lemma unique_ids_deleteItem itemId st :
  unique_ids st -> unique_ids (deleteItem itemId st).
Proof.
  unfold unique_ids, all_ids. rewrite active_ids_deleteItem.
  intros Hnd. eapply sublist_NoDup; [exact Hnd|].
  apply sublist_app; [apply sublist_filter|done].
Qed.

Example generateItemId_sample :
  generateItemId 1704103200000 zero_draws = "65928D2000000000".
Proof. reflexivity. Qed.

Example twice_registered_ids :
  active_ids twice_registered = ["65928D2000000000"; "65928D2000000000"]
  /\ archived_ids twice_registered = [].
Proof. split; reflexivity. Qed.

(** C2, as stated, fails. Registering two items within one second with
    equal random digits gives both the same id; the state still has every
    id in exactly one collection (the active one), and handing that id over
    moves only the first of the two, so the id is then in both.  And an id
    that [deleteItem] removes is afterwards in neither collection. *)
Lemma exclusive_not_preserved :
  (exclusive twice_registered
   /\ ~ exclusive (snd (handOverItem "2024-01-02T08:00:00.000Z" "65928D2000000000" "1"
                                     sample_recipient twice_registered)))
  /\ (in_exactly_one "65928D2000000000" one_registered
      /\ all_ids (deleteItem "65928D2000000000" one_registered) = []).
Proof.
  split; split.
  - intros i Hi. left. unfold all_ids in Hi. split.
    + rewrite (proj2 twice_registered_ids), app_nil_r in Hi. exact Hi.
    + rewrite (proj2 twice_registered_ids). apply not_elem_of_nil.
  - intros Hex.
    destruct (Hex "65928D2000000000") as [[_ Hn]|[Hn _]].
    + vm_compute. apply list_elem_of_here.
    + apply Hn. vm_compute. apply list_elem_of_here.
    + apply Hn. vm_compute. apply list_elem_of_here.
  - left. split.
    + vm_compute. apply list_elem_of_here.
    + vm_compute. apply not_elem_of_nil.
  - reflexivity.
Qed.

(** C2, amended. From a state whose ids are pairwise distinct over the
    active and the archived collection together (so every id is in exactly
    one collection, once), each store operation leads to such a state
    again.  [saveFoundItem] adds the generated id, which must be one not
    yet in use; [deleteItem] drops the id from the active collection;
    the other operations keep the ids of the store, the two handover
    functions moving one from the active to the archived side. *)
Theorem unique_ids_preserved (st : Storage) :
  unique_ids st ->
  exclusive st
  /\ (forall now rnd now_iso item by_user,
        let st' := snd (saveFoundItem now rnd now_iso item by_user st) in
        generateItemId now rnd ∉ all_ids st ->
        unique_ids st' /\ exclusive st'
        /\ all_ids st' ≡ₚ generateItemId now rnd :: all_ids st)
  /\ (forall itemId s,
        let st' := updateItemStatus itemId s st in
        unique_ids st' /\ exclusive st' /\ all_ids st' = all_ids st)
  /\ (forall itemId,
        let st' := deleteItem itemId st in
        unique_ids st' /\ exclusive st'
        /\ active_ids st' = filter (fun i => i <> itemId) (active_ids st)
        /\ archived_ids st' = archived_ids st)
  /\ (forall itemId,
        let st' := snd (restoreFromStorage itemId st) in
        unique_ids st' /\ exclusive st' /\ all_ids st' = all_ids st)
  /\ (forall now_iso itemId by_user rd,
        let st' := snd (handOverItem now_iso itemId by_user rd st) in
        unique_ids st' /\ exclusive st' /\ all_ids st' ≡ₚ all_ids st)
  /\ (forall now_iso itemId by_user rd,
        let st' := snd (handOverStoredItem now_iso itemId by_user rd st) in
        unique_ids st' /\ exclusive st' /\ all_ids st' ≡ₚ all_ids st).
Proof.
  intros Hnd.
  assert (forall st', unique_ids st' -> forall R : Prop, R ->
            unique_ids st' /\ exclusive st' /\ R) as Hpack.
  { intros st' H' R HR. split_and!; [done|by apply unique_ids_exclusive|done]. }
  split_and!.
  - by apply unique_ids_exclusive.
  - intros now rnd now_iso item by_user st' Hfresh.
    pose proof (all_ids_saveFoundItem now rnd now_iso item by_user st) as Hp.
    apply Hpack; [|exact Hp].
    unfold unique_ids. fold st' in Hp. rewrite Hp. apply NoDup_cons. by split.
  - intros itemId s st'.
    pose proof (all_ids_updateItemStatus itemId s st) as Hp.
    apply Hpack; [|exact Hp]. unfold unique_ids. fold st' in Hp. by rewrite Hp.
  - intros itemId st'. apply Hpack.
    + by apply unique_ids_deleteItem.
    + split; [apply active_ids_deleteItem|done].
  - intros itemId st'.
    pose proof (all_ids_restoreFromStorage itemId st) as Hp.
    apply Hpack; [|exact Hp]. unfold unique_ids. fold st' in Hp. by rewrite Hp.
  - intros now_iso itemId by_user rd st'.
    pose proof (all_ids_handOverItem now_iso itemId by_user rd st) as Hp.
    apply Hpack; [|exact Hp]. by eapply unique_ids_perm.
  - intros now_iso itemId by_user rd st'.
    pose proof (all_ids_handOverStoredItem now_iso itemId by_user rd st) as Hp.
    apply Hpack; [|exact Hp]. by eapply unique_ids_perm.
Qed.

Lemma unique_ids_preserved_witness :
  unique_ids one_registered
  /\ exclusive one_registered
  /\ unique_ids (snd (handOverItem "2024-01-02T08:00:00.000Z" "65928D2000000000" "1"
                                   sample_recipient one_registered)).
Proof.
  assert (unique_ids one_registered) as H.
  { unfold unique_ids. vm_compute. apply NoDup_singleton. }
  split; [exact H|].
  split.
  - exact (proj1 (unique_ids_preserved one_registered H)).
  - destruct (unique_ids_preserved one_registered H) as (_ & _ & _ & _ & _ & Hho & _).
    exact (proj1 (Hho _ _ _ _)).
Defined.

(* ===================================================================== *)
(** ** Elapsed days and the age gates *)
(* ===================================================================== *)

Lemma MS_PER_DAY_pos : (0 < MS_PER_DAY)%Z.
Proof. reflexivity. Qed.

Lemma ceil_div_bounds (a b : Z) :
  (0 < b)%Z -> ((ceil_div a b - 1) * b < a <= ceil_div a b * b)%Z.
Proof.
  intros Hb. unfold ceil_div.
  pose proof (Z.div_mod (- a) b ltac:(lia)) as Hdm.
  pose proof (Z.mod_pos_bound (- a) b Hb) as Hr.
  nia.
Qed.

Lemma ceil_div_least (a b n : Z) :
  (0 < b)%Z -> (a <= n * b)%Z -> (ceil_div a b <= n)%Z.
Proof.
  intros Hb Hn. pose proof (ceil_div_bounds a b Hb). nia.
Qed.

Lemma ceil_div_le_mono (a a' b : Z) :
  (0 < b)%Z -> (a <= a')%Z -> (ceil_div a b <= ceil_div a' b)%Z.
Proof.
  intros Hb Ha. apply ceil_div_least; [done|].
  pose proof (ceil_div_bounds a' b Hb). lia.
Qed.

Section AgeGates.

Variable date_time : string -> option Z.

Lemma getDaysSinceFound_past now fd found :
  date_time fd = Some found -> (found <= now)%Z ->
  getDaysSinceFound date_time now fd = Some (signed_elapsed_days now found).
Proof.
  intros Hfd Hle. unfold getDaysSinceFound, signed_elapsed_days.
  rewrite Hfd. by rewrite Z.abs_eq by lia.
Qed.

Lemma getDaysSinceFound_future now fd found :
  date_time fd = Some found -> (now <= found)%Z ->
  getDaysSinceFound date_time now fd = Some (signed_elapsed_days found now).
Proof.
  intros Hfd Hle. unfold getDaysSinceFound, signed_elapsed_days.
  rewrite Hfd. rewrite Z.abs_neq by lia. do 2 f_equal. lia.
Qed.

Lemma num_ge_mono_days now now' fd n :
  (forall found, date_time fd = Some found -> (found <= now)%Z) ->
  (now <= now')%Z ->
  num_ge (getDaysSinceFound date_time now fd) n = true ->
  num_ge (getDaysSinceFound date_time now' fd) n = true.
Proof.
  intros Hpast Hle.
  destruct (date_time fd) as [found|] eqn:Hfd.
  - specialize (Hpast found eq_refl).
    rewrite !(getDaysSinceFound_past _ _ found) by (done || lia).
    simpl. rewrite !Z.leb_le. intros Hn.
    etrans; [exact Hn|].
    apply ceil_div_le_mono; [apply MS_PER_DAY_pos|lia].
  - unfold getDaysSinceFound. by rewrite Hfd.
Qed.

(** C3, amended. For an item whose found date is not later than the
    earlier of two query times, the gates only open as time advances:
    [canStore] true at [now] stays true at every later [now'], and so
    does [canSell].  At any one time [canStore] is the test
    "elapsed days >= 100" on an active item and [canSell] the test
    "elapsed days >= 366" on an active or stored one. *)
Theorem age_gates_monotone (item : FoundItem) (now now' : Z) :
  (forall found, date_time (foundDate item) = Some found -> (found <= now)%Z) ->
  (now <= now')%Z ->
  (canStore date_time now item = true -> canStore date_time now' item = true)
  /\ (canSell date_time now item = true -> canSell date_time now' item = true)
  /\ (forall d, getDaysSinceFound date_time now (foundDate item) = Some d ->
        canStore date_time now item
          = bool_decide ((100 <= d)%Z /\ status item = active)
        /\ canSell date_time now item
          = bool_decide ((366 <= d)%Z /\ (status item = active \/ status item = stored))).
Proof.
  intros Hpast Hle. split_and!.
  - unfold canStore. rewrite !andb_true_iff. intros [Hd Hs]. split; [|done].
    by eapply num_ge_mono_days.
  - unfold canSell. rewrite !andb_true_iff. intros [Hd Hs]. split; [|done].
    by eapply num_ge_mono_days.
  - intros d Hd. unfold canStore, canSell. rewrite Hd. simpl.
    split.
    + destruct (Z.leb_spec 100 d), (decide (status item = active)) as [Hs|Hs];
        rewrite ?(bool_decide_eq_true_2 _ Hs), ?(bool_decide_eq_false_2 _ Hs); simpl;
        symmetry; (apply bool_decide_eq_true_2 || apply bool_decide_eq_false_2);
        first [by split | intros [? ?]; lia | by intros [? ?]].
    + destruct (Z.leb_spec 366 d), (status item);
        simpl; symmetry;
        (apply bool_decide_eq_true_2 || apply bool_decide_eq_false_2);
        first [ by split; [done|auto]
              | intros [? [?|?]]; (lia || done) ].
Qed.

(** C4, amended. The elapsed-days value is the ceiling, in whole days,
    of the absolute difference between the query time and the found
    date: the least [d] with [|now - found| <= d] days.  It is the
    ceiling of [now - found] when the found date is not in the future,
    and the ceiling of [found - now], a positive number, when it is.  It
    is a function of the query time and the item's found date only. *)
Theorem getDaysSinceFound_ceiling (now : Z) (fd : string) (found : Z) :
  date_time fd = Some found ->
  (exists d, getDaysSinceFound date_time now fd = Some d
     /\ ((d - 1) * MS_PER_DAY < Z.abs (now - found) <= d * MS_PER_DAY)%Z)
  /\ ((found <= now)%Z ->
      getDaysSinceFound date_time now fd = Some (signed_elapsed_days now found))
  /\ ((now < found)%Z ->
      getDaysSinceFound date_time now fd = Some (signed_elapsed_days found now)
      /\ (1 <= signed_elapsed_days found now)%Z)
  /\ (forall a b : FoundItem, foundDate a = fd -> foundDate b = fd ->
      getDaysSinceFound date_time now (foundDate a)
      = getDaysSinceFound date_time now (foundDate b)).
Proof.
  intros Hfd. split_and!.
  - exists (ceil_div (Z.abs (now - found)) MS_PER_DAY). split.
    + unfold getDaysSinceFound. by rewrite Hfd.
    + apply ceil_div_bounds, MS_PER_DAY_pos.
  - by apply getDaysSinceFound_past.
  - intros Hlt. split; [apply getDaysSinceFound_future; (done || lia)|].
    unfold signed_elapsed_days.
    pose proof (ceil_div_bounds (found - now) MS_PER_DAY MS_PER_DAY_pos).
    pose proof MS_PER_DAY_pos. nia.
  - intros a b -> ->. done.
Qed.

End AgeGates.

(** C3, as stated, fails. On 2024-01-01 at 10:00 UTC the item found "on"
    2024-07-19 counts 200 elapsed days and may be stored; on 2024-05-30 it
    counts 50 and may not.  Likewise [canSell] for a found date two years
    ahead: 731 days on 2024-01-01, 365 on 2025-01-01. *)
Lemma age_gates_not_monotone :
  ((1704103200000 <= 1717027200000)%Z
   /\ canStore calendar 1704103200000 found_in_future = true
   /\ canStore calendar 1717027200000 found_in_future = false)
  /\ ((1704103200000 <= 1735689600000)%Z
      /\ canSell calendar 1704103200000 found_far_in_future = true
      /\ canSell calendar 1735689600000 found_far_in_future = false).
Proof. split; (split; [lia|split; reflexivity]). Qed.

Lemma age_gates_monotone_witness :
  (forall found, calendar (foundDate found_new_year) = Some found ->
                 (found <= 1712707200000)%Z)
  /\ (1712707200000 <= 1735689600000)%Z
  /\ (canStore calendar 1712707200000 found_new_year = true ->
      canStore calendar 1735689600000 found_new_year = true)
  /\ canStore calendar 1712707200000 found_new_year = true
  /\ canSell calendar 1712707200000 found_new_year = false
  /\ canSell calendar 1735689600000 found_new_year = true.
Proof.
  assert (forall found, calendar (foundDate found_new_year) = Some found ->
                        (found <= 1712707200000)%Z) as Hpast.
  { intros found Hfound. vm_compute in Hfound. injection Hfound as <-. lia. }
  assert (1712707200000 <= 1735689600000)%Z as Hle by lia.
  split; [exact Hpast|]. split; [exact Hle|].
  split.
  - exact (proj1 (age_gates_monotone calendar found_new_year _ _ Hpast Hle)).
  - repeat split; reflexivity.
Defined.

(** C4, as stated, fails. For the found date 2024-07-19 queried on
    2024-01-01 at 10:00 UTC the code answers 200, while the ceiling of the
    signed difference is -199. *)
Lemma getDaysSinceFound_not_signed :
  calendar "2024-07-19" = Some 1721347200000%Z
  /\ getDaysSinceFound calendar 1704103200000 "2024-07-19" = Some 200%Z
  /\ signed_elapsed_days 1704103200000 1721347200000 = (-199)%Z.
Proof. repeat split; reflexivity. Qed.

Lemma getDaysSinceFound_ceiling_witness :
  calendar "2024-07-19" = Some 1721347200000%Z
  /\ getDaysSinceFound calendar 1704103200000 "2024-07-19"
     = Some (signed_elapsed_days 1721347200000 1704103200000)
  /\ signed_elapsed_days 1721347200000 1704103200000 = 200%Z.
Proof.
  split; [reflexivity|]. split; [|reflexivity].
  apply (getDaysSinceFound_ceiling calendar 1704103200000 "2024-07-19" 1721347200000
           eq_refl).
  lia.
Defined.

(* ===================================================================== *)
(** ** Step 2: scan confirmation *)
(* ===================================================================== *)









(* ===================================================================== *)
(** ** Self-protection in user management *)
(* ===================================================================== *)



(* ===================================================================== *)
(** ** Idle expiry *)
(* ===================================================================== *)

(** C7. For a logged-in session whose last recorded activity is [T], an
    inactivity check at [T + 121 s] logs out: the provider's user and the
    stored current user are cleared and the activity marker is removed.  A
    check at [T + 90 s] leaves the session as it is.  In general the check
    logs out exactly when more than 120 000 ms have elapsed. *)
Theorem idle_expiry (a : Auth) (u : User) (T : Z) :
  user a = Some u ->
  current_user (store a) = Some u ->
  last_activity (store a) = Some T ->
  (checkInactivity (T + 121000) a =
     (logged_out a, Some (toast_info "Inaktivitás miatt kijelentkeztettük."))
   /\ user (logged_out a) = None
   /\ current_user (store (logged_out a)) = None
   /\ last_activity (store (logged_out a)) = None)
  /\ checkInactivity (T + 90000) a = (a, None)
  /\ (forall now, (T + INACTIVITY_TIMEOUT < now)%Z ->
        fst (checkInactivity now a) = logged_out a)
  /\ (forall now, (now <= T + INACTIVITY_TIMEOUT)%Z ->
        checkInactivity now a = (a, None)).
Proof.
  intros _ _ HT. unfold checkInactivity. rewrite HT.
  replace (T + 121000 - T)%Z with 121000%Z by lia.
  replace (T + 90000 - T)%Z with 90000%Z by lia.
  split_and!; try reflexivity.
  - intros now Hnow.
    by assert ((INACTIVITY_TIMEOUT <? now - T)%Z = true) as -> by (apply Z.ltb_lt; lia).
  - intros now Hnow.
    by assert ((INACTIVITY_TIMEOUT <? now - T)%Z = false) as -> by (apply Z.ltb_ge; lia).
Qed.

Lemma idle_expiry_witness :
  user (session_at 1704103200000) = Some admin_user
  /\ current_user (store (session_at 1704103200000)) = Some admin_user
  /\ last_activity (store (session_at 1704103200000)) = Some 1704103200000%Z
  /\ user (fst (checkInactivity 1704103321000 (session_at 1704103200000))) = None
  /\ checkInactivity 1704103290000 (session_at 1704103200000)
     = (session_at 1704103200000, None).
Proof.
  split; [reflexivity|]. split; [reflexivity|]. split; [reflexivity|].
  pose proof (idle_expiry (session_at 1704103200000) admin_user 1704103200000
                eq_refl eq_refl eq_refl) as [[H121 _] [H90 _]].
  split.
  - change 1704103321000%Z with (1704103200000 + 121000)%Z. by rewrite H121.
  - exact H90.
Defined.

(* ===================================================================== *)
(** ** Adding a user *)
(* ===================================================================== *)

(** C8 at a concrete input. With the two seeded accounts registered, the
    admin adds a user whose e-mail is "Admin@example.com".  It differs from
    the registered "admin@example.com" only by letter case, the addition is
    accepted and the collection then holds both.  The exact e-mail
    "admin@example.com" is refused with the collection unchanged.  The
    credential checks fold case, so in handover step 1 the new account's own
    e-mail and password are refused: the look-up by e-mail finds the older
    account first. *)
Theorem handleAddUser_letter_case :
  let f := mkNewUserForm "Admin@example.com" "Second Admin" "secret" role_admin in
  let r := handleAddUser "0b9c7a52-55e1-4c1f-9d0e-6f2d3b8a7c11" "2024-01-02T08:00:00.000Z"
             (Some admin_user) (adding f) seeded_storage in
  Js.toLowerCase "Admin@example.com" = Js.toLowerCase "admin@example.com"
  /\ snd r = toast_success "Felhasználó sikeresen létrehozva!"
  /\ emails_of (snd (fst r))
     = ["admin@example.com"; "user@example.com"; "Admin@example.com"]
  /\ (let f' := mkNewUserForm "admin@example.com" "Second Admin" "secret" role_admin in
      handleAddUser "0b9c7a52-55e1-4c1f-9d0e-6f2d3b8a7c11" "2024-01-02T08:00:00.000Z"
        (Some admin_user) (adding f') seeded_storage
      = (adding f', seeded_storage, toast_error "Ez az e-mail cím már foglalt!"))
  /\ (let d := {| step := step_auth; authEmail := "Admin@example.com";
                  authPassword := "secret"; isAuthenticated := false;
                  handoverUserId := None; scannedId := ""; isScanned := false;
                  manualEntry := false; formData := emptyForm |} in
      let a := {| user := Some admin_user; store := snd (fst r) |} in
      snd (handleAuthSubmit 1704182500000 "2024-01-02T08:01:40.000Z" d a)
      = toast_error "Hibás e-mail cím vagy jelszó!").
Proof. vm_compute. repeat split; reflexivity. Qed.

(* ===================================================================== *)
(** ** Step 3: recipient capture and the hand-over itself *)
(* ===================================================================== *)

Lemma truthy_false s : Js.truthy s = false <-> s = "".
Proof. destruct s; simpl; split; (done || discriminate). Qed.

Lemma truthy_true s : Js.truthy s = true <-> s <> "".
Proof. destruct s; simpl; split; (done || discriminate). Qed.

Lemma validateEmail_false email :
  validateEmail email = false <->
  email <> "" /\ Regex.test emailRegex (Js.units email) = false.
Proof.
  unfold validateEmail. destruct email as [|c r].
  - split; [discriminate|]. by intros [? _].
  - change (Js.truthy (String c r)) with true. cbn [negb].
    split; [by split|]. by intros [_ ?].
Qed.

Lemma validatePhone_false phone :
  validatePhone phone = false <->
  phone <> "" /\ Regex.test phoneRegex (Js.units phone) = false.
Proof.
  unfold validatePhone. destruct phone as [|c r].
  - split; [discriminate|]. by intros [? _].
  - change (Js.truthy (String c r)) with true. cbn [negb].
    split; [by split|]. by intros [_ ?].
Qed.

Lemma or_undefined_spec s :
  Js.or_undefined s = (if decide (s = "") then None else Some s).
Proof. by destruct s. Qed.

Lemma handleSubmit_rejects now_iso item d st uid :
  at_step3 d uid ->
  required_missing (formData d) \/ bad_format (formData d) ->
  exists msg, handleSubmit now_iso item d st = (st, toast_error msg).
Proof.
  intros (_ & Hauth & Hscan & Huid & Hne) Hbad.
  unfold handleSubmit. rewrite Hauth, Hscan, Huid. simpl.
  apply truthy_true in Hne as ->. simpl.
  destruct (Js.truthy (Js.trim (f_recipientName (formData d)))) eqn:E1; simpl; [|eauto].
  destruct (Js.truthy (Js.trim (f_recipientAddress (formData d)))) eqn:E2; simpl; [|eauto].
  destruct (Js.truthy (f_recipientIdDocType (formData d))) eqn:E3; simpl; [|eauto].
  destruct (Js.truthy (Js.trim (f_recipientIdDocNumber (formData d)))) eqn:E4; simpl; [|eauto].
  destruct (validateEmail (f_recipientEmail (formData d))) eqn:E5; simpl; [|eauto].
  destruct (validatePhone (f_recipientPhone (formData d))) eqn:E6; simpl; [|eauto].
  exfalso.
  apply truthy_true in E1, E2, E3, E4.
  destruct Hbad as [[?|[?|[?|?]]]|[Hb|Hb]]; try done.
  - apply validateEmail_false in Hb. congruence.
  - apply validatePhone_false in Hb. congruence.
Qed.

Lemma handleSubmit_passes now_iso it d st uid :
  at_step3 d uid ->
  ~ required_missing (formData d) -> ~ bad_format (formData d) ->
  handleSubmit now_iso (Some it) d st =
    let '(result, st') :=
      if bool_decide (status it = stored)
      then handOverStoredItem now_iso (id it) uid (recipientData_of (formData d)) st
      else handOverItem now_iso (id it) uid (recipientData_of (formData d)) st in
    match result with
    | Some _ => (st', toast_success "Tárgy sikeresen kiadva!")
    | None => (st', toast_error "Kiadás sikertelen!")
    end.
Proof.
  intros (_ & Hauth & Hscan & Huid & Hne) Hreq Hfmt.
  unfold handleSubmit. rewrite Hauth, Hscan, Huid. simpl.
  apply truthy_true in Hne as ->. simpl.
  unfold required_missing in Hreq. unfold bad_format in Hfmt.
  destruct (Js.truthy (Js.trim (f_recipientName (formData d)))) eqn:E1; simpl;
    [|apply truthy_false in E1; tauto].
  destruct (Js.truthy (Js.trim (f_recipientAddress (formData d)))) eqn:E2; simpl;
    [|apply truthy_false in E2; tauto].
  destruct (Js.truthy (f_recipientIdDocType (formData d))) eqn:E3; simpl;
    [|apply truthy_false in E3; tauto].
  destruct (Js.truthy (Js.trim (f_recipientIdDocNumber (formData d)))) eqn:E4; simpl;
    [|apply truthy_false in E4; tauto].
  destruct (validateEmail (f_recipientEmail (formData d))) eqn:E5; simpl;
    [|apply validateEmail_false in E5; tauto].
  destruct (validatePhone (f_recipientPhone (formData d))) eqn:E6; simpl;
    [|apply validatePhone_false in E6; tauto].
  done.
Qed.

Lemma archive_at_None_unchanged found now_iso by_user rd st :
  fst (archive_at found now_iso by_user rd st) = None ->
  snd (archive_at found now_iso by_user rd st) = st.
Proof. by destruct found as [[i item]|]. Qed.

(** Whatever the dialog state, a submission that ends with an error toast
    has left the storage as it was. *)
Lemma handleSubmit_error_unchanged now_iso item d st msg :
  snd (handleSubmit now_iso item d st) = toast_error msg ->
  fst (handleSubmit now_iso item d st) = st.
Proof.
  unfold handleSubmit.
  repeat (match goal with |- context [if ?b then _ else _] =>
            destruct b; simpl; [done|] end).
  destruct item as [it|]; [|done].
  destruct (handoverUserId d) as [uid|]; [|done].
  case_bool_decide.
  - unfold handOverStoredItem.
    pose proof (archive_at_None_unchanged
      (list_find (fun x => id x = id it /\ status x = stored) (getFoundItems st))
      now_iso uid (recipientData_of (formData d)) st) as Hn.
    destruct (archive_at _ _ _ _ _) as [[h|] st']; simpl in *; [done|]. auto.
  - unfold handOverItem.
    pose proof (archive_at_None_unchanged
      (list_find (fun x => id x = id it) (getFoundItems st))
      now_iso uid (recipientData_of (formData d)) st) as Hn.
    destruct (archive_at _ _ _ _ _) as [[h|] st']; simpl in *; [done|]. auto.
Qed.

(** C1. Let the dialog be at step 3.  If a required recipient field is
    missing, or a non-empty e-mail or phone fails its format check, the
    submission ends with an error toast before any storage function is
    called, and storage (both item collections included) is what it was;
    indeed every submission that ends with an error leaves storage as it
    was.  If every check passes and the target item is present (the active
    collection holds an item under the dialog item's id, stored if the
    dialog shows it as stored), the one call removes that item from the
    active collection and appends to the archive the record made of it:
    all its fields, field by field, its status now 'handed_over', with
    the recipient fields (name, address and document number trimmed, the
    document type as chosen, e-mail and phone trimmed and left out when
    blank), the handover time stamp and the actor id of step 1.  White
    space is what [trim] and [\s] take for it, the no-break space and
    the other Unicode spaces included. *)
Theorem handover_atomicity (now_iso : string) (it : FoundItem) (d : Dialog)
    (st : Storage) (uid : string) :
  at_step3 d uid ->
  (required_missing (formData d) \/ bad_format (formData d) ->
     exists msg, handleSubmit now_iso (Some it) d st = (st, toast_error msg))
  /\ (forall msg, snd (handleSubmit now_iso (Some it) d st) = toast_error msg ->
        fst (handleSubmit now_iso (Some it) d st) = st)
  /\ (~ required_missing (formData d) -> ~ bad_format (formData d) ->
      forall target, getFoundItemById (id it) st = Some target ->
      (status it = stored -> status target = stored) ->
      exists i h,
        found_items st !! i = Some target
        /\ handleSubmit now_iso (Some it) d st =
             ({| found_items := delete i (found_items st);
                 handed_over_items := handed_over_items st ++ [h];
                 users := users st; current_user := current_user st;
                 last_activity := last_activity st |},
              toast_success "Tárgy sikeresen kiadva!")
        /\ same_but_status target (ho_item h)
        /\ same_fields target (ho_item h)
        /\ status (ho_item h) = handed_over
        /\ ho_recipient h = recipientData_of (formData d)
        /\ recipientName (ho_recipient h) = Js.trim (f_recipientName (formData d))
        /\ recipientAddress (ho_recipient h)
           = Js.trim (f_recipientAddress (formData d))
        /\ recipientIdDocType (ho_recipient h)
           = Some (f_recipientIdDocType (formData d))
        /\ recipientIdDocNumber (ho_recipient h)
           = Some (Js.trim (f_recipientIdDocNumber (formData d)))
        /\ recipientEmail (ho_recipient h)
           = (if decide (Js.trim (f_recipientEmail (formData d)) = "") then None
              else Some (Js.trim (f_recipientEmail (formData d))))
        /\ recipientPhone (ho_recipient h)
           = (if decide (Js.trim (f_recipientPhone (formData d)) = "") then None
              else Some (Js.trim (f_recipientPhone (formData d))))
        /\ handedOverAt h = now_iso
        /\ handedOverByUserId h = uid).
Proof.
  intros H3. split_and!.
  - by apply (handleSubmit_rejects _ _ _ _ uid).
  - apply handleSubmit_error_unchanged.
  - intros Hreq Hfmt target Hfound Hstored.
    pose proof Hfound as [i Hfind]%getFoundItemById_Some.
    exists i, (mk_handed_over target now_iso uid (recipientData_of (formData d))).
    rewrite (handleSubmit_passes _ _ _ _ _ H3 Hreq Hfmt).
    pose proof Hfind as (Hi & _ & _)%list_find_Some.
    split; [done|]. split; [|split_and!; try done; by apply or_undefined_spec].
    case_bool_decide as Hst.
    + rewrite (handOverStoredItem_found _ _ _ _ _ i target), archive_at_Some; [done|].
      eapply (list_find_refine (fun x => id x = id it)); [by intros y [? _]|done|].
      apply list_find_Some in Hfind as (_ & Hid & _). auto.
    + by rewrite (handOverItem_found _ _ _ _ _ _ _ Hfind), archive_at_Some.
Qed.

Example validators_sample :
  validateEmail "claimant@example.com" = true
  /\ validateEmail "" = true
  /\ validateEmail "claimant@example" = false
  /\ validateEmail "c laimant@example.com" = false
  /\ validateEmail ("cl" +:+ nbsp +:+ "aimant@example.com") = false
  /\ validatePhone "+36 30 123 4567" = true
  /\ validatePhone ("+36" +:+ nbsp +:+ "30" +:+ nbsp +:+ "123" +:+ nbsp +:+ "4567") = true
  /\ validatePhone "" = true
  /\ validatePhone "36-30/123" = false
  /\ Js.trim " C. Claimant " = "C. Claimant"
  /\ Js.trim (nbsp +:+ "Kovács Éva" +:+ nbsp) = "Kovács Éva"
  /\ Js.trim nbsp = ""
  /\ Js.length "éééééééé" = 8.
Proof. repeat split; reflexivity. Qed.

Lemma handover_atomicity_witness :
  at_step3 (at_form_step padded_form) "1"
  /\ ~ required_missing (formData (at_form_step padded_form))
  /\ ~ bad_format (formData (at_form_step padded_form))
  /\ getFoundItemById (id tagged_item) two_items = Some tagged_item
  /\ (exists h,
        handleSubmit "2024-01-02T08:00:00.000Z" (Some tagged_item)
          (at_form_step padded_form) two_items =
          ({| found_items := [sold_tagged_item];
              handed_over_items := [h];
              users := users two_items; current_user := current_user two_items;
              last_activity := last_activity two_items |},
           toast_success "Tárgy sikeresen kiadva!")
        /\ id (ho_item h) = "A1B2C3D4E5F6A7B8"
        /\ status (ho_item h) = handed_over
        /\ recipientName (ho_recipient h) = "Kovács Éva"
        /\ recipientPhone (ho_recipient h)
           = Some ("+36" +:+ nbsp +:+ "30" +:+ nbsp +:+ "123" +:+ nbsp +:+ "4567")
        /\ handedOverAt h = "2024-01-02T08:00:00.000Z"
        /\ handedOverByUserId h = "1")
  /\ required_missing blank_name_form
  /\ (exists msg,
        handleSubmit "2024-01-02T08:00:00.000Z" (Some tagged_item)
          (at_form_step blank_name_form) two_items = (two_items, toast_error msg)).
Proof.
  assert (at_step3 (at_form_step padded_form) "1") as H3.
  { unfold at_step3. simpl. repeat split; (reflexivity || discriminate). }
  assert (at_step3 (at_form_step blank_name_form) "1") as H3'.
  { unfold at_step3. simpl. repeat split; (reflexivity || discriminate). }
  assert (~ required_missing (formData (at_form_step padded_form))) as Hreq.
  { intros [H|[H|[H|H]]]; vm_compute in H; discriminate H. }
  assert (~ bad_format (formData (at_form_step padded_form))) as Hfmt.
  { intros [[_ H]|[_ H]]; vm_compute in H; discriminate H. }
  assert (getFoundItemById (id tagged_item) two_items = Some tagged_item) as Hfound.
  { reflexivity. }
  assert (required_missing blank_name_form) as Hblank.
  { left. reflexivity. }
  split; [exact H3|]. split; [exact Hreq|]. split; [exact Hfmt|].
  split; [exact Hfound|]. split; [|split; [exact Hblank|]].
  - destruct (proj2 (proj2 (handover_atomicity "2024-01-02T08:00:00.000Z" tagged_item
                              (at_form_step padded_form) two_items "1" H3))
                Hreq Hfmt tagged_item Hfound (fun H => H))
      as (i & h & Hi & Hsub & _ & Hsame & Hst & _ & Hname & _ & _ & _ & _ & Hphone
          & Hat & Hby).
    exists h. destruct i as [|[|i]]; [discriminate Hi| |discriminate Hi].
    split; [exact Hsub|]. split; [exact (proj1 Hsame)|]. split; [exact Hst|].
    split; [exact Hname|]. split; [exact Hphone|]. split; [exact Hat|exact Hby].
  - apply (proj1 (handover_atomicity "2024-01-02T08:00:00.000Z" tagged_item
                    (at_form_step blank_name_form) two_items "1" H3')).
    left. exact Hblank.
Defined.

(* ===================================================================== *)
(** ** The dialog as a state machine *)
(* ===================================================================== *)

Lemma dialog_inv_initial : dialog_inv initialDialog.
Proof. split; simpl; [done|discriminate]. Qed.

Lemma verifyScannedId_inv item value d :
  step d = step_scan -> dialog_inv d -> dialog_inv (fst (verifyScannedId item value d)).
Proof.
  intros Hs [Ha Hf]. unfold verifyScannedId.
  destruct item as [it|]; [case_bool_decide|]; simpl; split; simpl; auto.
  intros _. apply Ha. rewrite Hs. discriminate.
Qed.

Lemma handleAuthSubmit_inv {cm : Js.CaseMap} now now_iso d a :
  step d = step_auth -> dialog_inv d ->
  dialog_inv (fst (fst (handleAuthSubmit now now_iso d a))).
Proof.
  intros Hs Hinv. unfold handleAuthSubmit.
  destruct (getUsers now_iso (store a)) as [us st1].
  destruct (List.find _ us) as [matchedUser|]; [|done].
  destruct (verifyUserCredentials _ _ _ _ _) as [[|] st2]; [|done].
  assert (dialog_inv (set_step step_scan (set_authenticated (u_id matchedUser) d))).
  { split; simpl; [by eauto|discriminate]. }
  by case_bool_decide.
Qed.

Lemma handleScanInput_inv {cm : Js.CaseMap} item input d :
  step d = step_scan -> dialog_inv d ->
  dialog_inv (fst (handleScanInput item input d)).
Proof.
  intros Hs Hinv. unfold handleScanInput.
  assert (dialog_inv (set_scannedId (Js.toUpperCase input) d)) as Hinv1.
  { destruct Hinv. split; simpl; auto. }
  destruct (Nat.eqb _ 16); [|done].
  pose proof (verifyScannedId_inv item (Js.toUpperCase input)
                (set_scannedId (Js.toUpperCase input) d) Hs Hinv1) as Hv.
  by destruct (verifyScannedId _ _ _).
Qed.

Lemma handleManualVerify_inv item d :
  step d = step_scan -> dialog_inv d ->
  dialog_inv (fst (handleManualVerify item d)).
Proof.
  intros Hs Hinv. unfold handleManualVerify.
  destruct (Nat.eqb _ 16); [|done]. by apply verifyScannedId_inv.
Qed.

Create HintDb dialog.
#[local] Hint Resolve dialog_inv_initial handleAuthSubmit_inv handleScanInput_inv
  handleManualVerify_inv : dialog.

Lemma dispatch_inv {cm : Js.CaseMap} item d a e :
  dialog_inv d -> dialog_inv (fst (dispatch item (d, a) e)).
Proof.
  intros Hinv. pose proof Hinv as [Ha Hf].
  unfold dispatch.
  destruct e, (step d) eqn:Hs; simpl; auto with dialog.
  - destruct (manualEntry d && _); simpl; auto with dialog.
  - split; simpl; [done|discriminate].
  - split; simpl; [|discriminate]. intros _. apply Ha. discriminate.
Qed.

Lemma foldl_dispatch_inv {cm : Js.CaseMap} item events s :
  dialog_inv (fst s) -> dialog_inv (fst (foldl (dispatch item) s events)).
Proof.
  revert s. induction events as [|e events IH]; intros [d a] H; [done|].
  simpl. apply IH. by apply dispatch_inv.
Qed.

(** Whatever the operator did since the dialog opened, a dialog showing
    step 3 is authenticated, carries the actor id of step 1 and has the
    scan marked done. *)
Lemma step3_reached {cm : Js.CaseMap} item events a :
  let d := fst (run item events a) in
  step d = step_form ->
  isAuthenticated d = true /\ isScanned d = true /\ is_Some (handoverUserId d).
Proof.
  simpl. intros Hs.
  destruct (foldl_dispatch_inv item events (initialDialog, a) dialog_inv_initial)
    as [Ha Hf].
  destruct Ha as [? ?]; [unfold run in Hs; rewrite Hs; discriminate|]. auto.
Qed.

(** The seeded admin authenticates, scans the tag and is at step 3 as the
    handing-over actor "1"; a wrong password keeps the dialog at step 1. *)
Example run_reaches_step3 :
  let a := {| user := None; store := two_items |} in
  let d := fst (run (Some tagged_item)
                  [ev_auth_input "Admin@Example.com" "admin123";
                   ev_auth_submit 1704182400000 "2024-01-02T08:00:00.000Z";
                   ev_scan_input "a1b2c3d4e5f6a7b9";
                   ev_scan_input "a1b2c3d4e5f6a7b8"] a) in
  step d = step_form /\ handoverUserId d = Some "1" /\ isScanned d = true
  /\ step (fst (run (Some tagged_item)
                  [ev_auth_input "admin@example.com" "admin124";
                   ev_auth_submit 1704182400000 "2024-01-02T08:00:00.000Z"] a))
     = step_auth.
Proof. repeat split; reflexivity. Qed.

(* ===================================================================== *)
(** ** Users: seeding, credentials, management *)
(* ===================================================================== *)

Lemma lower_upper_char c : Js.lower_char (Js.upper_char c) = Js.lower_char c.
Proof. destruct c as [[] [] [] [] [] [] [] []]; reflexivity. Qed.

Lemma map_lower_upper s :
  Js.map_string Js.lower_char (Js.map_string Js.upper_char s)
  = Js.map_string Js.lower_char s.
Proof.
  induction s as [|c s IH]; [done|]. simpl. by rewrite lower_upper_char, IH.
Qed.

Lemma upper_char_ascii c :
  (N_of_ascii c <? 128)%N = true -> (N_of_ascii (Js.upper_char c) <? 128)%N = true.
Proof. destruct c as [[] [] [] [] [] [] [] []]; (discriminate || reflexivity). Qed.

Lemma ascii_only_upper s :
  Js.ascii_only s = true -> Js.ascii_only (Js.map_string Js.upper_char s) = true.
Proof.
  induction s as [|c s IH]; [done|]. simpl.
  intros [Hc Hs]%andb_true_iff. by rewrite upper_char_ascii, IH.
Qed.

(** On a string of ASCII characters, lower-casing the upper-cased string
    is lower-casing the string. *)
Lemma toLowerCase_toUpperCase {cm : Js.CaseMap} `{!Js.AsciiCase cm} s :
  Js.ascii_only s = true ->
  Js.toLowerCase (Js.toUpperCase s) = Js.toLowerCase s.
Proof.
  intros Hs. rewrite (Js.toUpperCase_ascii s Hs).
  rewrite !Js.toLowerCase_ascii by (done || by apply ascii_only_upper).
  apply map_lower_upper.
Qed.

Lemma initializeDefaultUsers_stored now_iso st :
  users (snd (initializeDefaultUsers now_iso st))
  = Some (fst (initializeDefaultUsers now_iso st)).
Proof.
  unfold initializeDefaultUsers.
  destruct (users st) as [[|u l]|] eqn:Hu; simpl; by rewrite ?Hu.
Qed.

(** What [getUsers] answers and leaves behind: the stored array, or the
    seeded accounts when the key is absent; afterwards the key holds what
    was answered, and nothing else has changed. *)
Lemma getUsers_spec now_iso st :
  let us := fst (getUsers now_iso st) in
  let st' := snd (getUsers now_iso st) in
  users st' = Some us
  /\ us = match users st with Some l => l | None => defaultUsers now_iso end
  /\ found_items st' = found_items st
  /\ handed_over_items st' = handed_over_items st
  /\ current_user st' = current_user st
  /\ last_activity st' = last_activity st.
Proof.
  unfold getUsers, initializeDefaultUsers.
  destruct (users st) as [l|] eqn:Hu; simpl; by rewrite ?Hu.
Qed.

Lemma getUsers_stored now_iso st l :
  users st = Some l -> getUsers now_iso st = (l, st).
Proof. intros H. unfold getUsers. by rewrite H. Qed.

(** X1. [initializeDefaultUsers] seeds the two default accounts exactly
    when the users key is absent or holds the empty array, and leaves a
    non-empty collection as it is; it never answers the empty list, and a
    second call (at whatever time) changes nothing more. *)
Theorem initializeDefaultUsers_seeds (now_iso now_iso' : string) (st : Storage) :
  let r := initializeDefaultUsers now_iso st in
  ((users st = None \/ users st = Some []) ->
     r = (defaultUsers now_iso, set_users (defaultUsers now_iso) st))
  /\ (forall u l, users st = Some (u :: l) -> r = (u :: l, st))
  /\ fst r <> []
  /\ users (snd r) = Some (fst r)
  /\ initializeDefaultUsers now_iso' (snd r) = (fst r, snd r)
  /\ (u_role <$> defaultUsers now_iso) = [role_admin; role_user].
Proof.
  unfold initializeDefaultUsers.
  destruct (users st) as [[|u l]|] eqn:Hu; simpl; rewrite ?Hu; simpl;
    split_and!; try done; try (intros [?|?]; done).
  by intros u0 l0 [= -> ->].
Qed.

Lemma find_bool_decide_Some {A} (P : A -> Prop) `{!forall x, Decision (P x)}
    (l : list A) x :
  List.find (fun y => bool_decide (P y)) l = Some x ->
  exists i, list_find P l = Some (i, x).
Proof.
  induction l as [|y l IH]; [done|]. simpl.
  case_bool_decide as Hy.
  - intros [= ->]. exists 0. simpl. by rewrite decide_True.
  - intros [i Hi]%IH. exists (S i). simpl. rewrite decide_False by done.
    by rewrite Hi.
Qed.

Lemma find_bool_decide_None {A} (P : A -> Prop) `{!forall x, Decision (P x)}
    (l : list A) :
  List.find (fun y => bool_decide (P y)) l = None <-> forall x, x ∈ l -> ~ P x.
Proof.
  induction l as [|y l IH]; simpl.
  - split; [|done]. intros _ x Hx. by apply elem_of_nil in Hx.
  - case_bool_decide as Hy.
    + split; [done|]. intros Hall.
      destruct (Hall y); [apply list_elem_of_here|done].
    + rewrite IH. split.
      * intros Hall x [->|Hx]%elem_of_cons; auto.
      * intros Hall x Hx. apply Hall. by apply list_elem_of_further.
Qed.

(** Turns [find ... = None] into the statement that no element passes. *)
Ltac find_none H :=
  match type of H with
  | List.find (fun y => bool_decide (@?P y)) ?l = None =>
      let H' := fresh in
      pose proof (proj1 (find_bool_decide_None P l) H) as H'; clear H; rename H' into H
  end.

Lemma loginUser_unfold {cm : Js.CaseMap} now_iso email password st :
  loginUser now_iso email password st =
    let us := fst (initializeDefaultUsers now_iso st) in
    let st1 := snd (initializeDefaultUsers now_iso st) in
    match List.find (fun u => bool_decide (credentials_match email password u)) us with
    | Some u => (Some u, setCurrentUser (Some u) st1)
    | None => (None, st1)
    end.
Proof.
  unfold loginUser.
  pose proof (initializeDefaultUsers_stored now_iso st) as Hs.
  destruct (initializeDefaultUsers now_iso st) as [us st0]. simpl in *.
  by rewrite (getUsers_stored _ _ _ Hs).
Qed.

(** The storage after [loginUser]: the users as seeded, the current user
    replaced on success only, the rest untouched. *)
Lemma loginUser_frame {cm : Js.CaseMap} now_iso email password st :
  let r := loginUser now_iso email password st in
  users (snd r) = Some (fst (initializeDefaultUsers now_iso st))
  /\ found_items (snd r) = found_items st
  /\ handed_over_items (snd r) = handed_over_items st
  /\ last_activity (snd r) = last_activity st
  /\ (fst r = None -> current_user (snd r) = current_user st).
Proof.
  simpl. rewrite loginUser_unfold. simpl.
  pose proof (initializeDefaultUsers_stored now_iso st) as Hs.
  assert (found_items (snd (initializeDefaultUsers now_iso st)) = found_items st
          /\ handed_over_items (snd (initializeDefaultUsers now_iso st))
             = handed_over_items st
          /\ current_user (snd (initializeDefaultUsers now_iso st)) = current_user st
          /\ last_activity (snd (initializeDefaultUsers now_iso st)) = last_activity st)
    as (Hf & Hh & Hc & Hl).
  { unfold initializeDefaultUsers. by destruct (Nat.eqb _ 0). }
  by destruct (List.find _ _).
Qed.

(** A user answered by [loginUser] is registered, has the credentials
    and is the stored current user afterwards. *)
Lemma loginUser_Some {cm : Js.CaseMap} now_iso email password st u :
  fst (loginUser now_iso email password st) = Some u ->
  u ∈ fst (initializeDefaultUsers now_iso st)
  /\ credentials_match email password u
  /\ current_user (snd (loginUser now_iso email password st)) = Some u.
Proof.
  rewrite loginUser_unfold. simpl.
  destruct (List.find _ _) as [v|] eqn:Hfind; simpl; [|done].
  intros [= ->].
  pose proof (find_bool_decide_Some _ _ _ Hfind) as [i Hi].
  apply list_find_Some in Hi as (Hlook & Hcred & _).
  split_and!; [by eapply list_elem_of_lookup_2|done..].
Qed.

(** X2. [loginUser] answers the first registered user (after seeding)
    whose e-mail and the given one have the same [toLowerCase] (whatever
    the runtime's conversion maps) and whose password is the given one,
    and records that user as the current user; when no user matches it
    answers null and the current user stays what it was.  The item
    collections and the activity marker are never touched. *)
Theorem loginUser_first_match {cm : Js.CaseMap} (now_iso email password : string)
    (st : Storage) :
  let us := fst (initializeDefaultUsers now_iso st) in
  let r := loginUser now_iso email password st in
  (forall u, fst r = Some u <->
     exists i, list_find (credentials_match email password) us = Some (i, u))
  /\ (forall u, fst r = Some u ->
        u ∈ us /\ credentials_match email password u
        /\ current_user (snd r) = Some u)
  /\ (fst r = None <-> forall u, u ∈ us -> ~ credentials_match email password u)
  /\ (fst r = None -> current_user (snd r) = current_user st)
  /\ users (snd r) = Some us
  /\ found_items (snd r) = found_items st
  /\ handed_over_items (snd r) = handed_over_items st
  /\ last_activity (snd r) = last_activity st.
Proof.
  simpl. rewrite loginUser_unfold. simpl.
  pose proof (initializeDefaultUsers_stored now_iso st) as Hs.
  assert (found_items (snd (initializeDefaultUsers now_iso st)) = found_items st
          /\ handed_over_items (snd (initializeDefaultUsers now_iso st))
             = handed_over_items st
          /\ current_user (snd (initializeDefaultUsers now_iso st)) = current_user st
          /\ last_activity (snd (initializeDefaultUsers now_iso st)) = last_activity st)
    as (Hf & Hh & Hc & Hl).
  { unfold initializeDefaultUsers. by destruct (Nat.eqb _ 0). }
  simpl in Hs.
  destruct (List.find _ _) as [u|] eqn:Hfind; simpl.
  - pose proof (find_bool_decide_Some _ _ _ Hfind) as [i Hi].
    pose proof Hi as (Hlook & Hcred & _)%list_find_Some.
    split_and!; try done.
    + intros u'. split.
      * intros [= <-]. eauto.
      * intros [j Hj]. rewrite Hi in Hj. by injection Hj as _ ->.
    + intros u' [= <-]. split_and!; [by eapply list_elem_of_lookup_2|done..].
    + split; [done|]. intros Hno. destruct (Hno u); [|done].
      by eapply list_elem_of_lookup_2.
  - pose proof (proj1 (find_bool_decide_None _ _) Hfind) as Hno.
    split_and!; try done.
    intros u. split; [done|]. intros [i (Hlook & Hcred & _)%list_find_Some].
    destruct (Hno u); [by eapply list_elem_of_lookup_2|done].
Qed.

Lemma credentials_match_lower {cm : Js.CaseMap} e1 e2 password u :
  Js.toLowerCase e1 = Js.toLowerCase e2 ->
  credentials_match e1 password u <-> credentials_match e2 password u.
Proof. unfold credentials_match. by intros ->. Qed.

Lemma find_ext_In {A} (f g : A -> bool) (l : list A) :
  (forall x, f x = g x) -> List.find f l = List.find g l.
Proof. intros H. induction l as [|x l IH]; simpl; [done|]. by rewrite H, IH. Qed.

(** X3. The credential checks see the e-mail only through its
    [toLowerCase], whatever the runtime's conversion maps: two e-mails
    with the same lower-case form give the same answer and the same
    storage in [loginUser] and in [verifyUserCredentials].  For an e-mail
    of ASCII characters the upper-cased e-mail logs in as the original
    does. *)
Theorem credentials_fold_case {cm : Js.CaseMap} (now_iso e1 e2 password : string)
    (st : Storage) :
  Js.toLowerCase e1 = Js.toLowerCase e2 ->
  loginUser now_iso e1 password st = loginUser now_iso e2 password st
  /\ (forall userId,
        verifyUserCredentials now_iso e1 password userId st
        = verifyUserCredentials now_iso e2 password userId st)
  /\ (Js.AsciiCase cm -> Js.ascii_only e1 = true ->
      loginUser now_iso (Js.toUpperCase e1) password st
      = loginUser now_iso e1 password st).
Proof.
  intros He.
  assert (forall a b, Js.toLowerCase a = Js.toLowerCase b ->
            loginUser now_iso a password st = loginUser now_iso b password st) as Hlogin.
  { intros a b Hab. rewrite !loginUser_unfold. simpl.
    rewrite (find_ext_In _ (fun u => bool_decide (credentials_match b password u))); [done|].
    intros u. apply bool_decide_ext. by apply credentials_match_lower. }
  split_and!.
  - by apply Hlogin.
  - intros userId. unfold verifyUserCredentials.
    destruct (getUsers now_iso st) as [us st1].
    rewrite (find_ext_In _ (fun u => bool_decide
               (u_id u = userId /\ credentials_match e2 password u))); [done|].
    intros u. apply bool_decide_ext.
    by rewrite (credentials_match_lower e1 e2).
  - intros Hcm Hascii. by apply Hlogin, toLowerCase_toUpperCase.
Qed.

Lemma credentials_fold_case_witness :
  Js.toLowerCase "ADMIN@Example.COM" = Js.toLowerCase "admin@example.com"
  /\ loginUser "2024-01-02T08:00:00.000Z" "ADMIN@Example.COM" "admin123" empty_storage
     = loginUser "2024-01-02T08:00:00.000Z" "admin@example.com" "admin123" empty_storage
  /\ (u_id <$> fst (loginUser "2024-01-02T08:00:00.000Z" "ADMIN@Example.COM"
                      "admin123" empty_storage)) = Some "1".
Proof.
  split; [reflexivity|]. split; [|reflexivity].
  exact (proj1 (credentials_fold_case (cm := Js.ascii_case)
                  "2024-01-02T08:00:00.000Z" "ADMIN@Example.COM"
                  "admin@example.com" "admin123" empty_storage eq_refl)).
Defined.

(** X4. A user that [loginUser] has just answered passes
    [verifyUserCredentials] under its own id with the same e-mail and
    password, and that check writes nothing. *)
Theorem login_then_verify {cm : Js.CaseMap} (now_iso now_iso' email password : string)
    (st : Storage) (u : User) :
  fst (loginUser now_iso email password st) = Some u ->
  verifyUserCredentials now_iso' email password (u_id u)
    (snd (loginUser now_iso email password st))
  = (true, snd (loginUser now_iso email password st)).
Proof.
  intros Hlogin.
  pose proof (loginUser_frame now_iso email password st) as (Hus & _).
  destruct (loginUser_Some _ _ _ _ _ Hlogin) as (Hin & Hcred & _).
  simpl in *.
  unfold verifyUserCredentials. rewrite (getUsers_stored _ _ _ Hus).
  destruct (List.find _ _) eqn:Hfind; [done|].
  find_none Hfind. by destruct (Hfind u Hin).
Qed.

Lemma login_then_verify_witness :
  (u_id <$> fst (loginUser "2024-01-02T08:00:00.000Z" "user@example.com" "user123"
                   empty_storage)) = Some "2"
  /\ fst (verifyUserCredentials "2024-01-02T08:00:05.000Z" "user@example.com" "user123" "2"
            (snd (loginUser "2024-01-02T08:00:00.000Z" "user@example.com" "user123"
                    empty_storage))) = true.
Proof.
  split; [reflexivity|].
  destruct (fst (loginUser "2024-01-02T08:00:00.000Z" "user@example.com" "user123"
                   empty_storage)) as [u|] eqn:Hu; [|discriminate Hu].
  assert (u_id u = "2") as Hid by (injection Hu as <-; reflexivity).
  rewrite <-Hid.
  by rewrite (login_then_verify _ "2024-01-02T08:00:05.000Z" _ _ _ u Hu).
Defined.

(** X5. [createUser] appends the new user, under the given identifier and
    with the creating user and the creation time stamped, to the stored
    (or seeded) collection, checking nothing; the older users keep their
    places.  The new user then passes [verifyUserCredentials] under its
    id, and [loginUser] succeeds with its e-mail and password. *)
Theorem createUser_registers {cm : Js.CaseMap} (uuid now_iso now_iso' : string)
    (data : UserData)
    (createdBy password : string) (st : Storage) :
  d_password data = Some password ->
  let r := createUser uuid now_iso data createdBy st in
  users (snd r) = Some (fst (getUsers now_iso st) ++ [fst r])
  /\ u_id (fst r) = uuid
  /\ u_email (fst r) = d_email data
  /\ u_role (fst r) = d_role data
  /\ u_createdAt (fst r) = Some now_iso
  /\ u_createdByUserId (fst r) = Some createdBy
  /\ found_items (snd r) = found_items st
  /\ handed_over_items (snd r) = handed_over_items st
  /\ current_user (snd r) = current_user st
  /\ verifyUserCredentials now_iso' (d_email data) password uuid (snd r) = (true, snd r)
  /\ is_Some (fst (loginUser now_iso' (d_email data) password (snd r))).
Proof.
  intros Hpw. simpl.
  pose proof (getUsers_spec now_iso st) as (_ & _ & Hf & Hh & Hc & _).
  unfold createUser. destruct (getUsers now_iso st) as [us st1]. simpl in *.
  set (nu := {| u_id := uuid; u_email := d_email data |}).
  assert (credentials_match (d_email data) password nu) as Hcred by (by split).
  split_and!; try done.
  - unfold verifyUserCredentials. rewrite (getUsers_stored _ _ (us ++ [nu])) by done.
    destruct (List.find _ _) eqn:Hfind; [done|].
    find_none Hfind.
    destruct (Hfind nu); [apply elem_of_app; right; apply list_elem_of_here|done].
  - rewrite loginUser_unfold. simpl.
    assert (initializeDefaultUsers now_iso' (set_users (us ++ [nu]) st1)
            = (us ++ [nu], set_users (us ++ [nu]) st1)) as ->.
    { unfold initializeDefaultUsers. simpl. by destruct us. }
    simpl. destruct (List.find _ _) eqn:Hfind; [by eexists|].
    find_none Hfind.
    destruct (Hfind nu); [apply elem_of_app; right; apply list_elem_of_here|done].
Qed.

Lemma createUser_registers_witness :
  d_password (userData_of (mkNewUserForm "clerk@example.com" "Clerk" "pw1" role_user))
  = Some "pw1"
  /\ emails_of (snd (createUser "0b9c7a52-55e1-4c1f-9d0e-6f2d3b8a7c11"
                       "2024-01-02T08:00:00.000Z"
                       (userData_of (mkNewUserForm "clerk@example.com" "Clerk" "pw1" role_user))
                       "1" empty_storage))
     = ["admin@example.com"; "user@example.com"; "clerk@example.com"]
  /\ verifyUserCredentials "2024-01-02T09:00:00.000Z" "clerk@example.com" "pw1"
       "0b9c7a52-55e1-4c1f-9d0e-6f2d3b8a7c11"
       (snd (createUser "0b9c7a52-55e1-4c1f-9d0e-6f2d3b8a7c11" "2024-01-02T08:00:00.000Z"
               (userData_of (mkNewUserForm "clerk@example.com" "Clerk" "pw1" role_user))
               "1" empty_storage))
     = (true,
        snd (createUser "0b9c7a52-55e1-4c1f-9d0e-6f2d3b8a7c11" "2024-01-02T08:00:00.000Z"
               (userData_of (mkNewUserForm "clerk@example.com" "Clerk" "pw1" role_user))
               "1" empty_storage)).
Proof.
  split; [reflexivity|]. split; [reflexivity|].
  pose proof (createUser_registers "0b9c7a52-55e1-4c1f-9d0e-6f2d3b8a7c11"
                "2024-01-02T08:00:00.000Z" "2024-01-02T09:00:00.000Z"
                (userData_of (mkNewUserForm "clerk@example.com" "Clerk" "pw1" role_user))
                "1" "pw1" empty_storage eq_refl) as H.
  exact (proj1 (proj2 (proj2 (proj2 (proj2 (proj2 (proj2 (proj2 (proj2 (proj2 H)))))))))).
Defined.

Lemma updateUser_unfold now_iso userId p st :
  updateUser now_iso userId p st =
    let us := fst (getUsers now_iso st) in
    let st1 := snd (getUsers now_iso st) in
    match list_find (fun u => u_id u = userId) us with
    | Some (index, u) =>
        (Some (apply_updates u p), set_users (<[index := apply_updates u p]> us) st1)
    | None => (None, st1)
    end.
Proof. unfold updateUser. by destruct (getUsers now_iso st). Qed.

Lemma updateUser_found now_iso userId p st i u :
  list_find (fun v => u_id v = userId) (fst (getUsers now_iso st)) = Some (i, u) ->
  updateUser now_iso userId p st =
    (Some (apply_updates u p),
     set_users (<[i := apply_updates u p]> (fst (getUsers now_iso st)))
               (snd (getUsers now_iso st))).
Proof. intros H. rewrite updateUser_unfold. cbv zeta. by rewrite H. Qed.

(** A user with another id is still registered, unchanged, after
    [updateUser]. *)
Lemma updateUser_keeps now_iso userId p st us cu :
  users st = Some us -> cu ∈ us -> u_id cu <> userId ->
  exists us', users (snd (updateUser now_iso userId p st)) = Some us' /\ cu ∈ us'.
Proof.
  intros Hus Hcu Hne. rewrite updateUser_unfold, (getUsers_stored _ _ _ Hus). simpl.
  destruct (list_find _ us) as [[i u]|] eqn:Hfind; simpl; [|by exists us].
  eexists. split; [done|].
  apply list_find_Some in Hfind as (Hi & Hid & _).
  apply list_elem_of_lookup in Hcu as [j Hj].
  apply list_elem_of_lookup. exists j.
  rewrite list_lookup_insert_ne; [done|]. intros ->. congruence.
Qed.


Lemma filter_length_eq {A} (P : A -> Prop) `{!forall x, Decision (P x)} (l : list A) :
  length (filter P l) = length l -> filter P l = l.
Proof.
  induction l as [|x l IH]; [done|].
  rewrite filter_cons. destruct (decide (P x)); simpl.
  - intros [= Hl]. by rewrite IH.
  - intros Hl. pose proof (length_filter P l). lia.
Qed.

Lemma deleteUser_unfold now_iso userId st :
  deleteUser now_iso userId st =
    let us := fst (getUsers now_iso st) in
    let st1 := snd (getUsers now_iso st) in
    let filtered := filter (fun u => u_id u <> userId) us in
    if negb (Nat.eqb (length filtered) (length us))
    then (true, set_users filtered st1) else (false, st1).
Proof. unfold deleteUser. by destruct (getUsers now_iso st). Qed.

(** A user with another id is still registered after [deleteUser]. *)
Lemma deleteUser_keeps now_iso userId st us cu :
  users st = Some us -> cu ∈ us -> u_id cu <> userId ->
  exists us', users (snd (deleteUser now_iso userId st)) = Some us' /\ cu ∈ us'.
Proof.
  intros Hus Hcu Hne. rewrite deleteUser_unfold, (getUsers_stored _ _ _ Hus). simpl.
  destruct (negb _); simpl.
  - eexists. split; [done|]. by apply list_elem_of_filter.
  - by exists us.
Qed.

(** X7. [deleteUser] answers true exactly when some user carries the id.
    Afterwards the collection is the old one without the users carrying
    that id (all of them, in the old order): no user with the id is left
    and every other user is kept.  For an id nobody carries nothing is
    written. *)
Theorem deleteUser_removes (now_iso userId : string) (st : Storage) :
  let us := fst (getUsers now_iso st) in
  let r := deleteUser now_iso userId st in
  (fst r = true <-> exists u, u ∈ us /\ u_id u = userId)
  /\ (fst r = false -> snd r = snd (getUsers now_iso st))
  /\ users (snd r) = Some (filter (fun u => u_id u <> userId) us)
  /\ (forall u, u ∈ default [] (users (snd r)) <-> u ∈ us /\ u_id u <> userId)
  /\ found_items (snd r) = found_items st
  /\ handed_over_items (snd r) = handed_over_items st
  /\ current_user (snd r) = current_user st.
Proof.
  simpl. rewrite deleteUser_unfold. simpl.
  pose proof (getUsers_spec now_iso st) as (Hus & _ & Hf & Hh & Hc & _). simpl in *.
  set (us := fst (getUsers now_iso st)) in *.
  set (st1 := snd (getUsers now_iso st)) in *.
  destruct (Nat.eqb (length (filter (fun u => u_id u <> userId) us)) (length us)) eqn:Hlen;
    simpl.
  - apply Nat.eqb_eq, filter_length_eq in Hlen.
    assert (forall u, u ∈ us -> u_id u <> userId) as Hno.
    { intros u Hu. rewrite <-Hlen in Hu. by apply list_elem_of_filter in Hu as [? _]. }
    split_and!; try done.
    + split; [done|]. intros (u & Hu & Hid). by destruct (Hno u Hu).
    + by rewrite Hlen.
    + rewrite Hus. simpl. intros u. split; [|by intros [? _]]. intros Hu. split; auto.
  - apply Nat.eqb_neq in Hlen.
    split_and!; try done.
    + split; [intros _|done].
      destruct (decide (Forall (fun u => u_id u <> userId) us)) as [Hall|Hex].
      * destruct Hlen. f_equal. clear -Hall.
        induction us as [|x l IH]; [done|]. apply Forall_cons in Hall as [Hx Hl].
        rewrite filter_cons, decide_True by done. by rewrite IH.
      * apply not_Forall_Exists in Hex; [|apply _].
        apply Exists_exists in Hex as (u & Hu & Hid).
        exists u. split; [done|]. by apply dec_stable.
    + simpl. intros u. by rewrite list_elem_of_filter, (comm and).
Qed.

Lemma list_find_insert_same {A} (P : A -> Prop) `{!forall x, Decision (P x)}
    (l : list A) i x y :
  list_find P l = Some (i, x) -> P y -> list_find P (<[i := y]> l) = Some (i, y).
Proof.
  intros (Hi & _ & Hmin)%list_find_Some Hy.
  apply list_find_Some. split_and!; [|done|].
  - apply list_lookup_insert_eq. by eapply lookup_lt_Some.
  - intros j z Hj Hlt. rewrite list_lookup_insert_ne in Hj by lia. by eapply Hmin.
Qed.

Lemma hasExtendedAccess_after u b :
  hasExtendedAccess (Some (apply_updates u (access_update b)))
  = bool_decide (u_role u = role_admin) || b.
Proof.
  unfold hasExtendedAccess. simpl.
  destruct (decide (u_role u = role_admin)) as [H|H].
  - by rewrite bool_decide_eq_true_2.
  - by rewrite bool_decide_eq_false_2.
Qed.

(** X8. Granting extended access to a registered user makes
    [hasExtendedAccess] true for the updated user and clears any expiry;
    revoking makes it false unless the user is an admin, for whom it is
    true whatever the flag.  Both change nothing else in the user, and a
    revoke after a grant leaves the collection as a revoke alone does. *)
Theorem extended_access_grant_revoke (now_iso userId : string) (st : Storage) (u : User) :
  (exists i, list_find (fun v => u_id v = userId) (fst (getUsers now_iso st)) = Some (i, u)) ->
  let g := grantExtendedAccess now_iso userId st in
  let r := revokeExtendedAccess now_iso userId st in
  (exists ug, fst g = Some ug
     /\ hasExtendedAccess (Some ug) = true
     /\ u_extendedAccessUntil ug = None
     /\ ug = apply_updates u (access_update true))
  /\ (exists ur, fst r = Some ur
        /\ hasExtendedAccess (Some ur) = bool_decide (u_role u = role_admin)
        /\ u_extendedAccessUntil ur = None
        /\ ur = apply_updates u (access_update false))
  /\ (forall b, u_id (apply_updates u (access_update b)) = u_id u
        /\ u_email (apply_updates u (access_update b)) = u_email u
        /\ u_name (apply_updates u (access_update b)) = u_name u
        /\ u_password (apply_updates u (access_update b)) = u_password u
        /\ u_role (apply_updates u (access_update b)) = u_role u)
  /\ revokeExtendedAccess now_iso userId (snd g) = r.
Proof.
  intros [i Hfind]. cbv zeta.
  unfold grantExtendedAccess, revokeExtendedAccess.
  rewrite !(updateUser_found _ _ _ _ _ _ Hfind). cbn [fst snd].
  split_and!.
  - eexists. split_and!; [done| |done..].
    rewrite hasExtendedAccess_after. apply orb_true_r.
  - eexists. split_and!; [done| |done..].
    rewrite hasExtendedAccess_after. apply orb_false_r.
  - done.
  - pose proof Hfind as (_ & Hid & _)%list_find_Some.
    pose proof (list_find_insert_same _ _ _ _ (apply_updates u (access_update true))
                  Hfind Hid) as Hfind'.
    rewrite (updateUser_found _ _ _ _ i (apply_updates u (access_update true))).
    + cbn [fst snd]. rewrite (getUsers_stored _ (set_users _ _) _ eq_refl).
      cbn [fst snd]. by rewrite list_insert_insert_eq.
    + by rewrite (getUsers_stored _ (set_users _ _) _ eq_refl).
Qed.

Lemma extended_access_grant_revoke_witness :
  (exists i, list_find (fun v => u_id v = "2")
               (fst (getUsers "2024-01-02T08:00:00.000Z" seeded_storage))
             = Some (i, nth 1 (defaultUsers "2024-01-01T00:00:00.000Z") admin_user))
  /\ hasExtendedAccess (fst (grantExtendedAccess "2024-01-02T08:00:00.000Z" "2"
                               seeded_storage)) = true
  /\ hasExtendedAccess (fst (revokeExtendedAccess "2024-01-02T08:00:00.000Z" "2"
                               seeded_storage)) = false.
Proof.
  assert (exists i, list_find (fun v => u_id v = "2")
               (fst (getUsers "2024-01-02T08:00:00.000Z" seeded_storage))
             = Some (i, nth 1 (defaultUsers "2024-01-01T00:00:00.000Z") admin_user)) as H.
  { exists 1. reflexivity. }
  split; [exact H|].
  destruct (extended_access_grant_revoke "2024-01-02T08:00:00.000Z" "2" seeded_storage
              _ H) as ((ug & Hg & Hga & _) & (ur & Hr & Hra & _) & _).
  split.
  - rewrite Hg. exact Hga.
  - rewrite Hr. exact Hra.
Defined.

(* ===================================================================== *)
(** ** The user dialog beyond self-protection *)
(* ===================================================================== *)

Lemma existsb_bool_decide_false {A} (P : A -> Prop) `{!forall x, Decision (P x)}
    (l : list A) :
  existsb (fun x => bool_decide (P x)) l = false <-> forall x, x ∈ l -> ~ P x.
Proof.
  induction l as [|y l IH]; simpl.
  - split; [|done]. intros _ x Hx. by apply elem_of_nil in Hx.
  - rewrite orb_false_iff, IH, bool_decide_eq_false. split.
    + intros [Hy Hl] x [->|Hx]%elem_of_cons; auto.
    + intros Hall. split; [apply Hall, list_elem_of_here|].
      intros x Hx. apply Hall. by apply list_elem_of_further.
Qed.

(** X9. [handleAddUser] writes nothing when the e-mail, the name or the
    password is empty, when nobody is logged in, or when a shown user has
    exactly the e-mail entered.  When the list shown is the stored
    collection and its e-mails are pairwise different, they are pairwise
    different after the call as well; an accepted user is appended with
    the acting user as creator, and the list shown is then the stored
    collection again. *)
Theorem handleAddUser_exact_unique (uuid now_iso : string) (cu : User)
    (c : UserAdmin) (st : Storage) (us : list User) :
  users st = Some us ->
  shown_users c = us ->
  NoDup (u_email <$> us) ->
  let r := handleAddUser uuid now_iso (Some cu) c st in
  let st' := snd (fst r) in
  NoDup (emails_of st')
  /\ ((nu_email (newUser c) = "" \/ nu_name (newUser c) = ""
       \/ nu_password (newUser c) = "" \/ nu_email (newUser c) ∈ (u_email <$> us)) ->
      st' = st /\ exists msg, snd r = toast_error msg)
  /\ (forall msg, snd r = toast_success msg ->
        exists nu, users st' = Some (us ++ [nu])
          /\ u_id nu = uuid /\ u_email nu = nu_email (newUser c)
          /\ u_role nu = nu_role (newUser c)
          /\ u_createdByUserId nu = Some (u_id cu)
          /\ shown_users (fst (fst r)) = us ++ [nu]).
Proof.
  intros Hus Hshown Hnd. simpl.
  unfold handleAddUser.
  destruct (Js.truthy (nu_email (newUser c))) eqn:E1; simpl.
  2:{ apply truthy_false in E1. unfold emails_of. rewrite Hus. simpl.
      split_and!; [done|by eauto|done]. }
  destruct (Js.truthy (nu_name (newUser c))) eqn:E2; simpl.
  2:{ apply truthy_false in E2. unfold emails_of. rewrite Hus. simpl.
      split_and!; [done|by eauto|done]. }
  destruct (Js.truthy (nu_password (newUser c))) eqn:E3; simpl.
  2:{ apply truthy_false in E3. unfold emails_of. rewrite Hus. simpl.
      split_and!; [done|by eauto|done]. }
  apply truthy_true in E1, E2, E3.
  destruct (existsb _ (shown_users c)) eqn:Hex.
  - cbn [fst snd]. unfold emails_of. rewrite Hus. simpl.
    split_and!; [done|by eauto|done].
  - rewrite existsb_bool_decide_false in Hex. rewrite Hshown in Hex.
    unfold createUser, loadUsers. rewrite (getUsers_stored _ _ _ Hus).
    set (nu := {| u_id := uuid |}).
    rewrite (getUsers_stored _ _ (us ++ [nu])) by done. simpl.
    assert (nu_email (newUser c) ∉ (u_email <$> us)) as Hfresh.
    { intros (u & Heq & Hu)%list_elem_of_fmap. by destruct (Hex u Hu). }
    split_and!.
    + unfold emails_of. simpl. rewrite fmap_app. simpl.
      rewrite <-Permutation_cons_append. apply NoDup_cons. by split.
    + intros [?|[?|[?|?]]]; done.
    + intros msg _. exists nu. by split_and!.
Qed.

Lemma handleAddUser_exact_unique_witness :
  users seeded_storage = Some (shown_users user_admin_opened)
  /\ NoDup (u_email <$> shown_users user_admin_opened)
  /\ NoDup (emails_of (snd (fst (handleAddUser "0b9c7a52-55e1-4c1f-9d0e-6f2d3b8a7c11"
                                    "2024-01-02T08:00:00.000Z" (Some admin_user)
                                    (adding (mkNewUserForm "clerk@example.com" "Clerk"
                                               "pw1" role_user))
                                    seeded_storage)))).
Proof.
  assert (NoDup (u_email <$> shown_users user_admin_opened)) as Hnd.
  { vm_compute. apply NoDup_cons. split.
    - intros [H|H]%elem_of_cons; [discriminate H|by apply elem_of_nil in H].
    - apply NoDup_singleton. }
  split; [reflexivity|]. split; [exact Hnd|].
  exact (proj1 (handleAddUser_exact_unique "0b9c7a52-55e1-4c1f-9d0e-6f2d3b8a7c11"
                  "2024-01-02T08:00:00.000Z" admin_user
                  (adding (mkNewUserForm "clerk@example.com" "Clerk" "pw1" role_user))
                  seeded_storage (shown_users user_admin_opened) eq_refl eq_refl Hnd)).
Defined.

(** X10. Whatever user a delete confirmation or a role change targets, the
    acting user's own stored record is still in the collection afterwards,
    unchanged, provided the acting user's id is not empty. *)
Theorem acting_user_kept (now_iso : string) (cu : User) (c : UserAdmin)
    (st : Storage) (us : list User) (target : string) (newRole : Role) :
  users st = Some us ->
  cu ∈ us ->
  u_id cu <> "" ->
  cu ∈ default [] (users (snd (fst (confirmDelete now_iso (Some cu) c st))))
  /\ cu ∈ default [] (users (snd (fst (handleRoleChange now_iso (Some cu) target
                                        newRole c st)))).
Proof.
  intros Hus Hcu Hne. split.
  - unfold confirmDelete.
    destruct (deleteConfirm c) as [t|]; [|cbn [fst snd]; by rewrite Hus].
    destruct (Js.truthy t); [|cbn [fst snd]; by rewrite Hus].
    simpl. case_bool_decide as Hself; [cbn [fst snd]; by rewrite Hus|].
    destruct (deleteUser_keeps now_iso t st us cu Hus Hcu) as (us' & Hus' & Hin).
    { intros Heq. apply Hself. by rewrite Heq. }
    destruct (deleteUser now_iso t st) as [b st1] eqn:Hdel. simpl in *.
    unfold loadUsers. rewrite (getUsers_stored _ _ _ Hus'). simpl.
    by rewrite Hus'.
  - unfold handleRoleChange. simpl.
    case_bool_decide as Hself; [cbn [fst snd]; by rewrite Hus|].
    destruct (updateUser_keeps now_iso target (role_update newRole) st us cu Hus Hcu)
      as (us' & Hus' & Hin).
    { intros Heq. apply Hself. by rewrite Heq. }
    destruct (updateUser now_iso target (role_update newRole) st) as [o st1] eqn:Hup.
    simpl in *.
    unfold loadUsers. rewrite (getUsers_stored _ _ _ Hus'). simpl.
    by rewrite Hus'.
Qed.

Lemma acting_user_kept_witness :
  users seeded_storage = Some (defaultUsers "2024-01-01T00:00:00.000Z")
  /\ admin_user ∈ defaultUsers "2024-01-01T00:00:00.000Z"
  /\ u_id admin_user <> ""
  /\ admin_user ∈ default [] (users (snd (fst (confirmDelete "2024-01-02T08:00:00.000Z"
                  (Some admin_user) (handleDeleteUser "2" user_admin_opened)
                  seeded_storage))))
  /\ emails_of (snd (fst (confirmDelete "2024-01-02T08:00:00.000Z"
                  (Some admin_user) (handleDeleteUser "2" user_admin_opened)
                  seeded_storage))) = ["admin@example.com"].
Proof.
  assert (admin_user ∈ defaultUsers "2024-01-01T00:00:00.000Z") as Hin.
  { apply list_elem_of_here. }
  assert (u_id admin_user <> "") as Hne by discriminate.
  split; [reflexivity|]. split; [exact Hin|]. split; [exact Hne|].
  split; [|reflexivity].
  exact (proj1 (acting_user_kept "2024-01-02T08:00:00.000Z" admin_user
                  (handleDeleteUser "2" user_admin_opened) seeded_storage
                  (defaultUsers "2024-01-01T00:00:00.000Z") "2" role_user
                  eq_refl Hin Hne)).
Defined.

(* ===================================================================== *)
(** ** Items: registration, status changes, deletion *)
(* ===================================================================== *)

Lemma getFoundItemById_app_l itemId st l x :
  getFoundItemById itemId st = Some x ->
  getFoundItemById itemId (set_found_items (found_items st ++ l) st) = Some x.
Proof.
  intros [i Hi]%getFoundItemById_Some. apply getFoundItemById_Some. exists i.
  simpl. by apply list_find_app_l.
Qed.

(** X11. [saveFoundItem] appends one item with status 'active', the
    creating user and the creation time recorded, and touches nothing
    else.  Every id that could be looked up before is still answered with
    the same item; the new item is the one found under the generated id
    when that id was not in use among the active items. *)
Theorem saveFoundItem_appends (now : Z) (rnd : vec (fin 16) 8) (now_iso : string)
    (item : NewItemData) (createdBy : string) (st : Storage) :
  let r := saveFoundItem now rnd now_iso item createdBy st in
  found_items (snd r) = found_items st ++ [fst r]
  /\ id (fst r) = generateItemId now rnd
  /\ status (fst r) = active
  /\ createdByUserId (fst r) = createdBy
  /\ createdAt (fst r) = now_iso
  /\ foundDate (fst r) = n_foundDate item
  /\ handed_over_items (snd r) = handed_over_items st
  /\ same_accounts st (snd r)
  /\ (forall i x, getFoundItemById i st = Some x -> getFoundItemById i (snd r) = Some x)
  /\ (generateItemId now rnd ∉ active_ids st ->
      getFoundItemById (generateItemId now rnd) (snd r) = Some (fst r)).
Proof.
  simpl. split_and!; try done.
  - intros i x Hx. by apply (getFoundItemById_app_l i st [_] x).
  - intros Hfresh. apply getFoundItemById_Some. exists (length (found_items st)).
    unfold saveFoundItem, getFoundItems. simpl.
    apply list_find_Some. split_and!.
    + by rewrite lookup_app_r, Nat.sub_diag.
    + done.
    + intros j y Hj Hlt Hid. rewrite lookup_app_l in Hj by done.
      apply Hfresh. unfold active_ids. apply list_elem_of_fmap.
      exists y. split; [done|]. by eapply list_elem_of_lookup_2.
Qed.

Lemma updateItemStatus_found itemId s st i item :
  list_find (fun x => id x = itemId) (found_items st) = Some (i, item) ->
  updateItemStatus itemId s st
  = set_found_items (<[i := with_status s item]> (found_items st)) st.
Proof. intros H. unfold updateItemStatus, getFoundItems. by rewrite H. Qed.

(** X12. [updateItemStatus] writes the status of the first item carrying
    the id and nothing else, and does nothing for an id that is absent; it
    checks neither the age of the item nor its present status.  Storing an
    item and restoring it from storage comes to setting its status to
    'active': the restore succeeds and every other field and item is as
    before. *)
Theorem store_then_restore (itemId : string) (st : Storage) (item : FoundItem) :
  getFoundItemById itemId st = Some item ->
  (forall s, exists i,
     found_items st !! i = Some item
     /\ found_items (updateItemStatus itemId s st)
        = <[i := with_status s item]> (found_items st)
     /\ handed_over_items (updateItemStatus itemId s st) = handed_over_items st
     /\ getFoundItemById itemId (updateItemStatus itemId s st)
        = Some (with_status s item))
  /\ restoreFromStorage itemId (updateItemStatus itemId stored st)
     = (true, updateItemStatus itemId active st)
  /\ (status item = active ->
      restoreFromStorage itemId (updateItemStatus itemId stored st) = (true, st)).
Proof.
  intros [i Hfind]%getFoundItemById_Some.
  pose proof Hfind as (Hi & Hid & Hmin)%list_find_Some.
  assert (forall s, list_find (fun x => id x = itemId)
                      (<[i := with_status s item]> (found_items st))
                    = Some (i, with_status s item)) as Hfind'.
  { intros s. eapply list_find_insert_same; [exact Hfind|done]. }
  assert (restoreFromStorage itemId (updateItemStatus itemId stored st)
          = (true, updateItemStatus itemId active st)) as Hrestore.
  { rewrite !(updateItemStatus_found _ _ _ _ _ Hfind).
    rewrite (restoreFromStorage_found _ _ i (with_status stored item)).
    - simpl. unfold set_found_items. simpl. by rewrite list_insert_insert_eq.
    - simpl. eapply (list_find_refine (fun x => id x = itemId));
        [by intros y [? _]|apply Hfind'|done]. }
  split_and!.
  - intros s. exists i. rewrite (updateItemStatus_found _ _ _ _ _ Hfind).
    split_and!; try done.
    apply getFoundItemById_Some. exists i. apply Hfind'.
  - exact Hrestore.
  - intros Hact. rewrite Hrestore, (updateItemStatus_found _ _ _ _ _ Hfind).
    f_equal. rewrite <-Hact, with_status_same, list_insert_id by done.
    by destruct st.
Qed.

Lemma store_then_restore_witness :
  getFoundItemById "A1B2C3D4E5F6A7B8" two_items = Some tagged_item
  /\ status tagged_item = active
  /\ restoreFromStorage "A1B2C3D4E5F6A7B8"
       (updateItemStatus "A1B2C3D4E5F6A7B8" stored two_items) = (true, two_items).
Proof.
  split; [reflexivity|]. split; [reflexivity|].
  exact (proj2 (proj2 (store_then_restore "A1B2C3D4E5F6A7B8" two_items tagged_item
                         eq_refl)) eq_refl).
Defined.

Lemma updateItemStatus_absent itemId s st :
  getFoundItemById itemId st = None -> updateItemStatus itemId s st = st.
Proof.
  unfold getFoundItemById, updateItemStatus, getFoundItems.
  by destruct (list_find _ _) as [[i x]|].
Qed.

Lemma lookup_other_after_filter (i itemId : string) (l : list FoundItem) :
  i <> itemId ->
  snd <$> list_find (fun x => id x = i) (filter (fun x => id x <> itemId) l)
  = snd <$> list_find (fun x => id x = i) l.
Proof.
  intros Hi. induction l as [|x l IH]; [done|].
  rewrite filter_cons. destruct (decide (id x <> itemId)) as [Hx|Hx]; simpl.
  - destruct (decide (id x = i)); [done|].
    destruct (list_find _ (filter _ l)) as [[j y]|],
             (list_find _ l) as [[j' y']|]; simpl in *; congruence.
  - apply dec_stable in Hx. rewrite decide_False by congruence.
    rewrite IH. by destruct (list_find _ l) as [[j y]|].
Qed.

(** X13. After [deleteItem] no active item carries the id: a look-up by
    that id finds nothing.  All items with the id go (not only the first),
    every other item stays in place and order, the archive is untouched,
    and deleting again, or deleting an id that is absent, changes
    nothing. *)
Theorem deleteItem_removes (itemId : string) (st : Storage) :
  getFoundItemById itemId (deleteItem itemId st) = None
  /\ found_items (deleteItem itemId st)
     = filter (fun x => id x <> itemId) (found_items st)
  /\ (forall x, x ∈ found_items (deleteItem itemId st)
                <-> x ∈ found_items st /\ id x <> itemId)
  /\ (forall i, i <> itemId ->
        getFoundItemById i (deleteItem itemId st) = getFoundItemById i st)
  /\ handed_over_items (deleteItem itemId st) = handed_over_items st
  /\ same_accounts st (deleteItem itemId st)
  /\ deleteItem itemId (deleteItem itemId st) = deleteItem itemId st
  /\ (getFoundItemById itemId st = None -> deleteItem itemId st = st).
Proof.
  assert (forall l : list FoundItem,
            Forall (fun x => id x <> itemId) l ->
            filter (fun x => id x <> itemId) l = l) as Hid.
  { induction l as [|x l IH]; [done|]. intros [Hx Hl]%Forall_cons.
    rewrite filter_cons, decide_True by done. by rewrite IH. }
  split_and!; try done.
  - apply getFoundItemById_None. unfold deleteItem, getFoundItems. simpl.
    intros x Hx. by apply list_elem_of_filter in Hx as [? _].
  - unfold deleteItem, getFoundItems. simpl. intros x.
    by rewrite list_elem_of_filter, (comm and).
  - intros i Hi. unfold getFoundItemById, deleteItem, getFoundItems. simpl.
    by apply lookup_other_after_filter.
  - unfold deleteItem, getFoundItems, set_found_items. simpl. f_equal.
    apply list_filter_filter_l. auto.
  - intros Hnone. unfold deleteItem, getFoundItems.
    rewrite Hid; [by destruct st|].
    apply Forall_forall. by apply getFoundItemById_None.
Qed.

(* ===================================================================== *)
(** ** The archive only grows *)
(* ===================================================================== *)

Lemma archive_at_prefix found now_iso by_user rd st :
  handed_over_items st `prefix_of`
    handed_over_items (snd (archive_at found now_iso by_user rd st)).
Proof.
  destruct found as [[i item]|]; [|done].
  rewrite archive_at_Some. simpl. by apply prefix_app_r.
Qed.

Lemma handleSubmit_prefix now_iso item d st :
  handed_over_items st `prefix_of`
    handed_over_items (fst (handleSubmit now_iso item d st)).
Proof.
  unfold handleSubmit.
  repeat (match goal with |- context [if ?b then _ else _] =>
            destruct b; simpl; [done|] end).
  destruct item as [it|]; [|done].
  destruct (handoverUserId d) as [uid|]; [|done].
  case_bool_decide.
  - unfold handOverStoredItem.
    pose proof (archive_at_prefix
      (list_find (fun x => id x = id it /\ status x = stored) (getFoundItems st))
      now_iso uid (recipientData_of (formData d)) st) as Hp.
    by destruct (archive_at _ _ _ _ _) as [[h|] st'].
  - unfold handOverItem.
    pose proof (archive_at_prefix
      (list_find (fun x => id x = id it) (getFoundItems st))
      now_iso uid (recipientData_of (formData d)) st) as Hp.
    by destruct (archive_at _ _ _ _ _) as [[h|] st'].
Qed.

(** X14. No function of the storage layer removes or rewrites an archived
    record: registration, status change, deletion and restore leave the
    archive as it is, and the two handover functions and the dialog's
    submission only ever append to it, so the archive before is a prefix
    of the archive after. *)
Theorem archive_append_only (st : Storage) :
  (forall now rnd now_iso item by_user,
     handed_over_items (snd (saveFoundItem now rnd now_iso item by_user st))
     = handed_over_items st)
  /\ (forall itemId s,
        handed_over_items (updateItemStatus itemId s st) = handed_over_items st)
  /\ (forall itemId, handed_over_items (deleteItem itemId st) = handed_over_items st)
  /\ (forall itemId,
        handed_over_items (snd (restoreFromStorage itemId st)) = handed_over_items st)
  /\ (forall now_iso itemId by_user rd,
        handed_over_items st `prefix_of`
          handed_over_items (snd (handOverItem now_iso itemId by_user rd st)))
  /\ (forall now_iso itemId by_user rd,
        handed_over_items st `prefix_of`
          handed_over_items (snd (handOverStoredItem now_iso itemId by_user rd st)))
  /\ (forall now_iso item d,
        handed_over_items st `prefix_of`
          handed_over_items (fst (handleSubmit now_iso item d st)))
  /\ (forall now_iso itemId by_user rd h,
        fst (handOverItem now_iso itemId by_user rd st) = Some h ->
        handed_over_items (snd (handOverItem now_iso itemId by_user rd st))
        = handed_over_items st ++ [h]).
Proof.
  split_and!; try done.
  - intros itemId s. unfold updateItemStatus.
    by destruct (list_find _ _) as [[i x]|].
  - intros itemId. unfold restoreFromStorage.
    by destruct (list_find _ _) as [[i x]|].
  - intros. apply archive_at_prefix.
  - intros. apply archive_at_prefix.
  - intros. apply handleSubmit_prefix.
  - intros now_iso itemId by_user rd h. unfold handOverItem.
    destruct (list_find _ _) as [[i x]|]; [|done].
    rewrite archive_at_Some. simpl. by intros [= <-].
Qed.

(* ===================================================================== *)
(** ** Elapsed days, time windows and row actions *)
(* ===================================================================== *)

Section Windows.

Variable date_time : string -> option Z.

(** X15. The elapsed-days value is never negative, is zero only at the
    very instant of the found date, is one or more at any other time, and
    is the same whether the found date lies [d] milliseconds behind or
    ahead. *)
Theorem getDaysSinceFound_nonneg (now : Z) (fd : string) (found : Z) :
  date_time fd = Some found ->
  exists d, getDaysSinceFound date_time now fd = Some d
    /\ (0 <= d)%Z
    /\ (d = 0%Z <-> now = found)
    /\ getDaysSinceFound date_time (found + (found - now)) fd = Some d.
Proof.
  intros Hfd. unfold getDaysSinceFound. rewrite Hfd.
  eexists. split; [done|].
  pose proof (ceil_div_bounds (Z.abs (now - found)) MS_PER_DAY MS_PER_DAY_pos) as Hb.
  pose proof MS_PER_DAY_pos.
  split_and!.
  - nia.
  - split.
    + intros H0. rewrite H0 in Hb. lia.
    + intros ->. rewrite Z.sub_diag. reflexivity.
  - do 2 f_equal. lia.
Qed.

Lemma in_window_mono start start' item :
  (start' <= start)%Z ->
  in_window date_time start item -> in_window date_time start' item.
Proof.
  unfold in_window, num_ge. intros Hle [Hd Hs]. split; [|done].
  destruct (date_time (foundDate item)); [|done].
  apply Z.leb_le. apply Z.leb_le in Hd. lia.
Qed.

(** X16. The 90-day and the 366-day selections keep the order of the
    list and hold active items only; an item is selected exactly when it
    is active and its found date is valid and not older than the window
    (a found date in the future is selected too).  Everything in the
    90-day selection is in the 366-day one, and selecting twice selects
    nothing less. *)
Theorem time_windows (now : Z) (items : list FoundItem) :
  (forall item, item ∈ getItemsLast90Days date_time now items <->
     item ∈ items /\ status item = active
     /\ exists found, date_time (foundDate item) = Some found
                      /\ (now - 7776000000 <= found)%Z)
  /\ (forall item, item ∈ getItemsLast366Days date_time now items <->
        item ∈ items /\ status item = active
        /\ exists found, date_time (foundDate item) = Some found
                         /\ (now - 31622400000 <= found)%Z)
  /\ getItemsLast90Days date_time now items
       `sublist_of` getItemsLast366Days date_time now items
  /\ getItemsLast366Days date_time now items `sublist_of` items
  /\ getItemsLast90Days date_time now (getItemsLast366Days date_time now items)
     = getItemsLast90Days date_time now items
  /\ getItemsLast90Days date_time now (getItemsLast90Days date_time now items)
     = getItemsLast90Days date_time now items.
Proof.
  assert (forall start item,
            in_window date_time start item <->
            status item = active
            /\ exists found, date_time (foundDate item) = Some found
                             /\ (start <= found)%Z) as Hw.
  { intros start item. unfold in_window, num_ge.
    destruct (date_time (foundDate item)) as [f|].
    - rewrite Z.leb_le. split.
      + intros [? ?]. split; [done|]. by exists f.
      + intros [? (f' & [= <-] & ?)]. done.
    - split; [by intros [? _]|]. by intros [_ (f' & ? & _)]. }
  unfold getItemsLast90Days, getItemsLast366Days.
  change (now - 90 * 24 * 60 * 60 * 1000)%Z with (now - 7776000000)%Z.
  change (now - 366 * 24 * 60 * 60 * 1000)%Z with (now - 31622400000)%Z.
  split_and!.
  - intros item. rewrite list_elem_of_filter, Hw. tauto.
  - intros item. rewrite list_elem_of_filter, Hw. tauto.
  - rewrite <-(list_filter_filter_l (in_window date_time (now - 7776000000))
                 (in_window date_time (now - 31622400000))).
    + apply sublist_filter.
    + intros x. apply in_window_mono. lia.
  - apply sublist_filter.
  - apply list_filter_filter_l. intros x. apply in_window_mono. lia.
  - apply list_filter_filter_l. auto.
Qed.

(** X17. What a user sees before searching: only active items of the list,
    in its order.  Without the show-all switch everybody gets the 90-day
    selection; with it an admin gets every active item, a user with
    extended access the 366-day selection, and a user without it still
    the 90-day one.  What a user gets is always part of what an admin with
    the switch gets. *)
Theorem visible_items_by_role (now : Z) (isAdmin ext showAll : bool)
    (items : list FoundItem) :
  visible_items date_time now isAdmin ext false items
    = getItemsLast90Days date_time now items
  /\ visible_items date_time now false false showAll items
     = getItemsLast90Days date_time now items
  /\ visible_items date_time now false true true items
     = getItemsLast366Days date_time now items
  /\ visible_items date_time now true ext true items
     = filter (fun item => status item = active) items
  /\ visible_items date_time now isAdmin ext showAll items
       `sublist_of` visible_items date_time now true ext true items
  /\ (forall item, item ∈ visible_items date_time now isAdmin ext showAll items ->
        item ∈ items /\ status item = active).
Proof.
  assert (forall start,
            filter (in_window date_time start) items
              `sublist_of` filter (fun item => status item = active) items) as Hsub.
  { intros start.
    rewrite <-(list_filter_filter_l (in_window date_time start)
                 (fun item => status item = active)).
    - apply sublist_filter.
    - by intros x [_ ?]. }
  assert (visible_items date_time now isAdmin ext showAll items
            `sublist_of` filter (fun item => status item = active) items) as Hall.
  { unfold visible_items, getItemsLast90Days, getItemsLast366Days.
    destruct isAdmin, ext, showAll; simpl; done || apply Hsub. }
  split_and!.
  - unfold visible_items. by rewrite !andb_false_r.
  - done.
  - done.
  - done.
  - exact Hall.
  - intros item Hin. pose proof (elem_of_sublist _ _ _ Hin Hall) as Hin'.
    by apply list_elem_of_filter in Hin' as [? ?].
Qed.

(** X18. On every row: an item that may be sold may also be stored, unless
    it is stored already; a stored item can never be stored again, and no
    item can at once be stored and be restored.  Restoring is offered to
    admins only, and outside the storage view handing over is offered
    only for active items and only to a logged-in user. *)
Theorem row_actions (now : Z) (item : FoundItem) (isAdmin isAuthenticated : bool) :
  (canSell date_time now item = true ->
     canStore date_time now item = true \/ status item = stored)
  /\ (status item = stored -> canStore date_time now item = false)
  /\ (canStore date_time now item = true -> canRestore isAdmin item = false)
  /\ (canRestore isAdmin item = true -> isAdmin = true /\ status item = stored)
  /\ (canHandover false isAdmin isAuthenticated item = true ->
        isAuthenticated = true /\ status item = active)
  /\ canHandover true isAdmin isAuthenticated item = isAdmin
  /\ (status item = sold \/ status item = handed_over ->
        canStore date_time now item = false /\ canSell date_time now item = false
        /\ canRestore isAdmin item = false
        /\ canHandover false isAdmin isAuthenticated item = false).
Proof.
  unfold canSell, canStore, canRestore, canHandover, num_ge.
  destruct (getDaysSinceFound date_time now (foundDate item)) as [d|];
    destruct (status item) eqn:Hs; simpl;
    rewrite ?andb_false_r, ?andb_true_r;
    split_and!; try done; try (intros [? ?]; done); try (intros [?|?]; done).
  all: try (destruct isAdmin, isAuthenticated; simpl; intuition congruence).
  destruct (Z.leb_spec 366 d), (Z.leb_spec 100 d); simpl; try lia; auto.
Qed.

(** X19. The admin statistics: the storable items are among the active
    ones, the total is the active count plus the stored count, and with
    the two lists as [loadItems] takes them from storage the total never
    exceeds the number of items kept. *)
Theorem itemCounts_bounds (now : Z) (st : Storage) :
  let k := itemCounts date_time now (getFoundItems st) (getStoredItems st) in
  count_storable k <= count_active k
  /\ count_total k = count_active k + count_stored k
  /\ count_total k <= length (found_items st)
  /\ count_stored k
     = length (filter (fun item => status item = stored) (found_items st)).
Proof.
  simpl. unfold getStoredItems, getFoundItems. split_and!; try done.
  - apply length_filter.
  - induction (found_items st) as [|x l IH]; [done|].
    rewrite !filter_cons.
    destruct (decide (status x = active)) as [Ha|Ha],
             (decide (status x = stored)) as [Hs|Hs]; simpl; try lia.
    congruence.
Qed.

End Windows.

Lemma getDaysSinceFound_nonneg_witness :
  calendar "2024-07-19" = Some 1721347200000%Z
  /\ exists d, getDaysSinceFound calendar 1704103200000 "2024-07-19" = Some d
       /\ (0 <= d)%Z.
Proof.
  split; [reflexivity|].
  destruct (getDaysSinceFound_nonneg calendar 1704103200000 "2024-07-19" 1721347200000
              eq_refl) as (d & Hd & Hpos & _).
  exists d. by split.
Defined.

(* ===================================================================== *)
(** ** Sessions *)
(* ===================================================================== *)

(** X20. When the provider mounts (no user in its state yet): a saved
    user is restored, with the storage untouched, if no activity was
    recorded or at most 120 000 ms have passed since; if more have passed
    the saved user and the activity marker are removed and nobody is
    logged in; with no saved user nothing happens.  In each case the
    provider's user afterwards is the stored current user. *)
Theorem restoreSession_cases (now : Z) (a : Auth) :
  user a = None ->
  let a' := restoreSession now a in
  user a' = current_user (store a')
  /\ (current_user (store a) = None -> a' = a)
  /\ (forall u, current_user (store a) = Some u -> last_activity (store a) = None ->
        a' = {| user := Some u; store := store a |})
  /\ (forall u T, current_user (store a) = Some u -> last_activity (store a) = Some T ->
        (now <= T + INACTIVITY_TIMEOUT)%Z ->
        a' = {| user := Some u; store := store a |})
  /\ (forall u T, current_user (store a) = Some u -> last_activity (store a) = Some T ->
        (T + INACTIVITY_TIMEOUT < now)%Z ->
        a' = logged_out a /\ user a' = None /\ last_activity (store a') = None).
Proof.
  intros Hu. simpl. unfold restoreSession, getCurrentUser.
  destruct (current_user (store a)) as [u|] eqn:Hc;
    [destruct (last_activity (store a)) as [T|] eqn:Hl;
      [destruct (Z.ltb_spec INACTIVITY_TIMEOUT (now - T))|]|];
    split_and!; try done;
    try (intros; simplify_eq; (lia || done)).
  by rewrite Hu, Hc.
Qed.

Lemma restoreSession_cases_witness :
  user (saved_session 1704103200000) = None
  /\ user (restoreSession 1704103290000 (saved_session 1704103200000)) = Some admin_user
  /\ user (restoreSession 1704103321000 (saved_session 1704103200000)) = None
  /\ user (restoreSession 1704103321000 (saved_session 1704103200000))
     = current_user (store (restoreSession 1704103321000 (saved_session 1704103200000))).
Proof.
  split; [reflexivity|]. split; [reflexivity|]. split; [reflexivity|].
  exact (proj1 (restoreSession_cases 1704103321000 (saved_session 1704103200000) eq_refl)).
Defined.

(** X21. A successful [handleLogin] makes the answered user both the
    provider's user and the stored current user and stamps the activity
    marker with the login time, so an inactivity check up to 120 000 ms
    later changes nothing; so does a check up to 120 000 ms after any
    later recorded activity.  A failed login changes neither the user nor
    the marker.  Once a check has logged the user out, further checks do
    nothing. *)
Theorem session_window {cm : Js.CaseMap} (now : Z) (now_iso email password : string)
    (a : Auth) :
  let r := handleLogin now now_iso email password a in
  (fst r = true ->
     exists u, user (snd r) = Some u
       /\ current_user (store (snd r)) = Some u
       /\ credentials_match email password u
       /\ last_activity (store (snd r)) = Some now
       /\ (forall now', (now' <= now + INACTIVITY_TIMEOUT)%Z ->
             checkInactivity now' (snd r) = (snd r, None))
       /\ (forall t now', (now' <= t + INACTIVITY_TIMEOUT)%Z ->
             checkInactivity now' (updateActivity t (snd r))
             = (updateActivity t (snd r), None))
       /\ (forall now' now'', (now + INACTIVITY_TIMEOUT < now')%Z ->
             checkInactivity now'' (fst (checkInactivity now' (snd r)))
             = (logged_out (snd r), None)))
  /\ (fst r = false ->
        user (snd r) = user a
        /\ current_user (store (snd r)) = current_user (store a)
        /\ last_activity (store (snd r)) = last_activity (store a)).
Proof.
  simpl. unfold handleLogin.
  pose proof (loginUser_frame now_iso email password (store a))
    as (_ & _ & _ & Hl & Hnone).
  pose proof (loginUser_Some now_iso email password (store a)) as Hsome.
  simpl in *.
  destruct (loginUser now_iso email password (store a)) as [[u|] st1]; simpl in *.
  - split; [intros _|done].
    destruct (Hsome u eq_refl) as (_ & Hcred & Hc).
    exists u. split_and!; try done.
    + intros now' Hle. unfold checkInactivity. simpl.
      by assert ((INACTIVITY_TIMEOUT <? now' - now)%Z = false) as ->
        by (apply Z.ltb_ge; lia).
    + intros t now' Hle. unfold checkInactivity. simpl.
      by assert ((INACTIVITY_TIMEOUT <? now' - t)%Z = false) as ->
        by (apply Z.ltb_ge; lia).
    + intros now' now'' Hlt. unfold checkInactivity at 2. simpl.
      by assert ((INACTIVITY_TIMEOUT <? now' - now)%Z = true) as ->
        by (apply Z.ltb_lt; lia).
  - split; [done|]. intros _. split_and!; [done|by apply Hnone|done].
Qed.

(* ===================================================================== *)
(** ** Step 1 of the handover dialog *)
(* ===================================================================== *)

Lemma NoDup_fmap_eq {A B} (f : A -> B) (l : list A) x y :
  NoDup (f <$> l) -> x ∈ l -> y ∈ l -> f x = f y -> x = y.
Proof.
  intros Hnd [i Hi]%list_elem_of_lookup [j Hj]%list_elem_of_lookup Hf.
  assert (i = j) as ->.
  { eapply NoDup_lookup; [exact Hnd| |]; rewrite list_lookup_fmap.
    - by rewrite Hi.
    - rewrite Hj. simpl. by rewrite Hf. }
  congruence.
Qed.

Lemma verifyUserCredentials_stored {cm : Js.CaseMap} now_iso email password userId st us :
  users st = Some us ->
  verifyUserCredentials now_iso email password userId st
  = (match List.find (fun u => bool_decide
                        (u_id u = userId /\ credentials_match email password u)) us with
     | Some _ => true | None => false end, st).
Proof.
  intros Hus. unfold verifyUserCredentials. rewrite (getUsers_stored _ _ _ Hus).
  by destruct (List.find _ _).
Qed.

Lemma loginUser_stored {cm : Js.CaseMap} now_iso email password st us :
  users st = Some us -> us <> [] ->
  loginUser now_iso email password st =
    match List.find (fun u => bool_decide (credentials_match email password u)) us with
    | Some u => (Some u, setCurrentUser (Some u) st)
    | None => (None, st)
    end.
Proof.
  intros Hus Hne. rewrite loginUser_unfold.
  assert (initializeDefaultUsers now_iso st = (us, st)) as ->; [|done].
  unfold initializeDefaultUsers. rewrite Hus. by destruct us.
Qed.

(** X22. Step 1 with user ids that are pairwise different.  A refused
    attempt leaves the dialog and the session as they were.  An accepted
    attempt picks the first registered user whose e-mail has the same
    [toLowerCase] as the entered one (whatever the runtime's conversion
    maps); that user has the entered password, becomes the handing-over
    actor, the dialog moves to step 2, and the session user afterwards
    carries the actor's id (the session is switched when it belonged to
    somebody else). *)
Theorem handleAuthSubmit_actor {cm : Js.CaseMap} (now : Z) (now_iso : string)
    (d : Dialog) (a : Auth) (us : list User) :
  users (store a) = Some us ->
  NoDup (u_id <$> us) ->
  let r := handleAuthSubmit now now_iso d a in
  (forall msg, snd r = toast_error msg -> fst (fst r) = d /\ snd (fst r) = a)
  /\ (forall msg, snd r = toast_success msg ->
        exists i m,
          list_find (fun u => Js.toLowerCase (u_email u) = Js.toLowerCase (authEmail d)) us
            = Some (i, m)
          /\ u_password m = Some (authPassword d)
          /\ fst (fst r) = set_step step_scan (set_authenticated (u_id m) d)
          /\ (u_id <$> user (snd (fst r))) = Some (u_id m)
          /\ (u_id <$> user a <> Some (u_id m) ->
              user (snd (fst r)) = Some m
              /\ current_user (store (snd (fst r))) = Some m
              /\ last_activity (store (snd (fst r))) = Some now)
          /\ (u_id <$> user a = Some (u_id m) -> snd (fst r) = a)).
Proof.
  intros Hus Hnd. simpl. unfold handleAuthSubmit.
  rewrite (getUsers_stored _ _ _ Hus).
  assert ({| user := user a; store := store a |} = a) as Heta by (by destruct a).
  destruct (List.find _ us) as [m|] eqn:Hm.
  2:{ rewrite Heta. split; [done|]. intros msg [=]. }
  apply find_bool_decide_Some in Hm as [i Hm].
  pose proof Hm as (Hi & Hmail & Hmin)%list_find_Some.
  assert (m ∈ us) as Hin by (by eapply list_elem_of_lookup_2).
  rewrite (verifyUserCredentials_stored _ _ _ _ _ _ Hus).
  destruct (List.find _ us) as [v|] eqn:Hv.
  2:{ rewrite Heta. split; [done|]. intros msg [=]. }
  apply find_bool_decide_Some in Hv as [j Hv].
  pose proof Hv as (Hj & [Hvid Hvcred] & _)%list_find_Some.
  assert (v = m) as ->.
  { eapply (NoDup_fmap_eq u_id); [exact Hnd| |exact Hin|exact Hvid].
    by eapply list_elem_of_lookup_2. }
  destruct Hvcred as [_ Hpw]. rewrite Heta.
  case_bool_decide as Hsame.
  - split; [intros msg [=]|]. intros msg _. exists i, m. by split_and!.
  - split; [intros msg [=]|]. intros msg _. exists i, m.
    unfold handleLogin.
    rewrite (loginUser_stored _ _ _ _ us Hus) by (by destruct us).
    assert (List.find (fun u => bool_decide
                         (credentials_match (authEmail d) (authPassword d) u)) us
            = Some m) as ->.
    { destruct (List.find _ us) as [w|] eqn:Hw.
      - apply find_bool_decide_Some in Hw as [k Hw].
        pose proof Hw as (Hk & [Hwmail Hwpw] & Hkmin)%list_find_Some.
        assert (k = i) as ->.
        { destruct (Nat.lt_trichotomy k i) as [Hlt|[->|Hlt]]; [|done|].
          - by destruct (Hmin k w Hk Hlt).
          - destruct (Hkmin i m Hi Hlt). by split. }
        congruence.
      - find_none Hw. destruct (Hw m Hin). by split. }
    simpl. split_and!; try done.
Qed.

Lemma handleAuthSubmit_actor_witness :
  users (store (session_at 1704103200000)) = Some (defaultUsers "2024-01-01T00:00:00.000Z")
  /\ NoDup (u_id <$> defaultUsers "2024-01-01T00:00:00.000Z")
  /\ fst (fst (handleAuthSubmit 1704103210000 "2024-01-01T10:00:10.000Z"
                 (at_auth_step "admin@example.com" "wrong")
                 (session_at 1704103200000)))
     = at_auth_step "admin@example.com" "wrong"
  /\ handoverUserId (fst (fst (handleAuthSubmit 1704103210000 "2024-01-01T10:00:10.000Z"
                                 (at_auth_step "User@Example.com" "user123")
                                 (session_at 1704103200000)))) = Some "2"
  /\ (u_id <$> user (snd (fst (handleAuthSubmit 1704103210000 "2024-01-01T10:00:10.000Z"
                                 (at_auth_step "User@Example.com" "user123")
                                 (session_at 1704103200000))))) = Some "2".
Proof.
  assert (NoDup (u_id <$> defaultUsers "2024-01-01T00:00:00.000Z")) as Hnd.
  { vm_compute. apply NoDup_cons. split.
    - intros [H|H]%elem_of_cons; [discriminate H|by apply elem_of_nil in H].
    - apply NoDup_singleton. }
  split; [reflexivity|]. split; [exact Hnd|].
  split; [|split; reflexivity].
  exact (proj1 (proj1 (handleAuthSubmit_actor (cm := Js.ascii_case)
                  1704103210000 "2024-01-01T10:00:10.000Z"
                  (at_auth_step "admin@example.com" "wrong")
                  (session_at 1704103200000) _ eq_refl Hnd)
                  "Hibás e-mail cím vagy jelszó!" eq_refl)).
Defined.

(* ===================================================================== *)
(** ** Abandoning the dialog *)
(* ===================================================================== *)

Lemma same_items_refl st : same_items st st.
Proof. done. Qed.

Lemma same_items_trans st1 st2 st3 :
  same_items st1 st2 -> same_items st2 st3 -> same_items st1 st3.
Proof. intros [? ?] [? ?]. split; congruence. Qed.

Lemma getUsers_same_items now_iso st : same_items st (snd (getUsers now_iso st)).
Proof. pose proof (getUsers_spec now_iso st) as (_ & _ & ? & ? & _). by split. Qed.

Lemma verifyUserCredentials_same_items {cm : Js.CaseMap} now_iso email password userId st :
  same_items st (snd (verifyUserCredentials now_iso email password userId st)).
Proof.
  unfold verifyUserCredentials.
  pose proof (getUsers_same_items now_iso st).
  destruct (getUsers now_iso st) as [us st1]. by destruct (List.find _ _).
Qed.

Lemma handleLogin_same_items {cm : Js.CaseMap} now now_iso email password a :
  same_items (store a) (store (snd (handleLogin now now_iso email password a))).
Proof.
  unfold handleLogin.
  pose proof (loginUser_frame now_iso email password (store a))
    as (_ & Hf & Hh & _). simpl in *.
  by destruct (loginUser now_iso email password (store a)) as [[u|] st1].
Qed.

Lemma handleAuthSubmit_same_items {cm : Js.CaseMap} now now_iso d a :
  same_items (store a) (store (snd (fst (handleAuthSubmit now now_iso d a)))).
Proof.
  unfold handleAuthSubmit.
  pose proof (getUsers_same_items now_iso (store a)) as H1.
  destruct (getUsers now_iso (store a)) as [us st1]. simpl in H1.
  destruct (List.find _ us) as [m|]; [|done].
  pose proof (verifyUserCredentials_same_items now_iso (authEmail d) (authPassword d)
                (u_id m) st1) as H2.
  destruct (verifyUserCredentials _ _ _ _ _) as [[|] st2]; simpl in H2.
  - pose proof (same_items_trans _ _ _ H1 H2) as H12.
    case_bool_decide; [done|]. simpl.
    eapply same_items_trans; [exact H12|].
    apply (handleLogin_same_items now now_iso (authEmail d) (authPassword d)
             {| user := user a; store := st2 |}).
  - by eapply same_items_trans.
Qed.

Lemma dispatch_same_items {cm : Js.CaseMap} item d a e :
  same_items (store a) (store (snd (dispatch item (d, a) e))).
Proof.
  unfold dispatch.
  destruct e, (step d); simpl; try done.
  - apply handleAuthSubmit_same_items.
  - by destruct (manualEntry d && _).
Qed.

(** X23. Nothing the operator does in the handover dialog before the
    final submission touches the items: after any sequence of opening,
    typing, authenticating, scanning, going back and filling the form, the
    active and the archived collection are exactly what they were, so the
    dialog can be abandoned at any step without a partial hand-over. *)
Theorem dialog_events_keep_items {cm : Js.CaseMap} (item : option FoundItem)
    (events : list Event)
    (a : Auth) :
  found_items (store (snd (run item events a))) = found_items (store a)
  /\ handed_over_items (store (snd (run item events a))) = handed_over_items (store a).
Proof.
  unfold run.
  assert (forall s, same_items (store (snd s))
                      (store (snd (foldl (dispatch item) s events)))) as H.
  { induction events as [|e events IH]; intros [d0 a0]; [done|].
    simpl. eapply same_items_trans; [|apply IH].
    apply dispatch_same_items. }
  exact (H (initialDialog, a)).
Qed.

(* ===================================================================== *)
(** ** The form validators *)
(* ===================================================================== *)

Lemma append_nil_l (s : string) : "" +:+ s = s.
Proof. reflexivity. Qed.

Lemma append_cons c (s1 s2 : string) : String c s1 +:+ s2 = String c (s1 +:+ s2).
Proof. reflexivity. Qed.

Lemma all_chars_app p s1 s2 :
  all_chars p (s1 +:+ s2) = all_chars p s1 && all_chars p s2.
Proof.
  induction s1 as [|c s1 IH]; rewrite ?append_nil_l, ?append_cons; simpl; [done|].
  by rewrite IH, andb_assoc.
Qed.

(** A string that is not empty has a first code unit. *)
Lemma chars_cons b r : Js.chars (String b r) <> [].
Proof.
  cbn [Js.chars]. cbv zeta.
  repeat match goal with
         | |- context [if ?c then _ else _] => destruct c
         | |- context [match ?s with EmptyString => _ | String _ _ => _ end] =>
             destruct s
         end; discriminate.
Qed.

Lemma units_of_cons cp : exists u l, Js.units_of cp = u :: l.
Proof. unfold Js.units_of. destruct (cp <? 65536)%N; eauto. Qed.

Lemma units_nil s : Js.units s = [] <-> s = "".
Proof.
  split; [|by intros ->].
  destruct s as [|b r]; [done|]. unfold Js.units.
  pose proof (chars_cons b r) as Hne.
  destruct (Js.chars (String b r)) as [|[cp bs] l]; [done|]. simpl.
  destruct (units_of_cons cp) as (u & t & ->). discriminate.
Qed.

Lemma app_cons_inv {A} (c : A) (s s1 s2 : list A) :
  s1 ++ s2 = c :: s ->
  (s1 = [] /\ s2 = c :: s) \/ (exists s1', s1 = c :: s1' /\ s = s1' ++ s2).
Proof.
  destruct s1 as [|c1 s1]; simpl.
  - intros ->. by left.
  - intros [= -> <-]. right. by eexists.
Qed.

Lemma nullable_matches r : Regex.nullable r = true <-> matches r [].
Proof.
  induction r as [| |p|r1 IH1 r2 IH2|r1 IH1 r2 IH2|r IH]; simpl.
  - split; [done|]. inversion 1.
  - split; [constructor|done].
  - split; [done|]. inversion 1.
  - rewrite andb_true_iff, IH1, IH2. split.
    + intros [H1 H2]. apply (m_seq _ _ [] [] H1 H2).
    + inversion 1 as [| |? ? s1 s2 H1 H2 Hr Hs| | | |]; subst.
      apply app_nil in Hs as [-> ->]. done.
  - rewrite orb_true_iff, IH1, IH2. split.
    + intros [?|?]; [by apply m_alt_l|by apply m_alt_r].
    + inversion 1; subst; auto.
  - split; [constructor|done].
Qed.

Lemma star_cons_inv r c s :
  matches (Regex.Star r) (c :: s) ->
  exists s1 s2, s = s1 ++ s2 /\ matches r (c :: s1) /\ matches (Regex.Star r) s2.
Proof.
  intros H. remember (Regex.Star r) as r' eqn:Hr. remember (c :: s) as s' eqn:Hs.
  revert c s Hr Hs.
  induction H as [| | | | | |r0 s1 s2 H1 _ H2 IH2]; intros a t Hr Hs; try discriminate.
  injection Hr as ->.
  apply app_cons_inv in Hs as [[-> ->]|(s1' & -> & ->)].
  - by apply IH2.
  - by exists s1', s2.
Qed.

Lemma deriv_matches c r s :
  matches (Regex.deriv c r) s <-> matches r (c :: s).
Proof.
  revert s.
  induction r as [| |p|r1 IH1 r2 IH2|r1 IH1 r2 IH2|r IH]; intros s; simpl.
  - split; inversion 1.
  - split; inversion 1.
  - destruct (p c) eqn:Hp.
    + split.
      * inversion 1; subst. by constructor.
      * inversion 1; subst. constructor.
    + split; [inversion 1|]. inversion 1; subst. congruence.
  - assert (matches (Regex.Seq (Regex.deriv c r1) r2) s ->
            matches (Regex.Seq r1 r2) (c :: s)) as Hfwd.
    { inversion 1 as [| |? ? s1 s2 H1 H2| | | |]; subst.
      apply IH1 in H1. apply (m_seq _ _ (c :: s1) s2 H1 H2). }
    assert (matches (Regex.Seq r1 r2) (c :: s) ->
            matches (Regex.Seq (Regex.deriv c r1) r2) s
            \/ (matches r1 [] /\ matches r2 (c :: s))) as Hbwd.
    { inversion 1 as [| |? ? s1 s2 H1 H2 Hr Hs| | | |]; subst.
      apply app_cons_inv in Hs as [[-> ->]|(s1' & -> & ->)].
      - by right.
      - left. apply m_seq; [by apply IH1|done]. }
    destruct (Regex.nullable r1) eqn:Hn.
    + split.
      * inversion 1; subst; [by apply Hfwd|].
        apply (m_seq _ _ [] (c :: s)); [by apply nullable_matches|by apply IH2].
      * intros [?|[_ ?]]%Hbwd; [by apply m_alt_l|]. apply m_alt_r. by apply IH2.
    + split; [exact Hfwd|].
      intros [?|[Hnil _]]%Hbwd; [done|].
      apply nullable_matches in Hnil. congruence.
  - split.
    + inversion 1; subst; [apply m_alt_l|apply m_alt_r]; by (apply IH1 || apply IH2).
    + inversion 1; subst; [apply m_alt_l|apply m_alt_r]; by (apply IH1 || apply IH2).
  - split.
    + inversion 1 as [| |? ? s1 s2 H1 H2| | | |]; subst.
      apply IH in H1. apply (m_star_cons _ (c :: s1) s2 H1 H2).
    + intros (s1 & s2 & -> & H1 & H2)%star_cons_inv.
      apply m_seq; [by apply IH|done].
Qed.

(** The matcher decides membership in the language of the pattern. *)
Lemma test_matches r s : Regex.test r s = true <-> matches r s.
Proof.
  revert r. induction s as [|c s IH]; intros r; simpl.
  - apply nullable_matches.
  - rewrite IH. apply deriv_matches.
Qed.

Lemma star_class_matches p s :
  matches (Regex.Star (Regex.Class p)) s <-> forallb p s = true.
Proof.
  split.
  - induction s as [|c s IH]; [done|].
    intros (s1 & s2 & -> & H1 & H2)%star_cons_inv.
    inversion H1; subst. simpl. rewrite andb_true_iff. split; [done|].
    by apply IH.
  - induction s as [|c s IH]; simpl; [constructor|].
    rewrite andb_true_iff. intros [Hc Hs].
    apply (m_star_cons _ [c] s); [by constructor|by apply IH].
Qed.

Lemma plus_class_matches p s :
  matches (Regex.Plus (Regex.Class p)) s <-> s <> [] /\ forallb p s = true.
Proof.
  unfold Regex.Plus. split.
  - inversion 1 as [| |? ? s1 s2 H1 H2| | | |]; subst.
    inversion H1; subst. simpl. split; [done|].
    rewrite andb_true_iff. split; [done|]. by apply star_class_matches.
  - intros [Hne Hall]. destruct s as [|c s]; [done|].
    simpl in Hall. apply andb_true_iff in Hall as [Hc Hs].
    apply (m_seq _ _ [c] s); [by constructor|by apply star_class_matches].
Qed.

Lemma class_eqb_matches c s :
  matches (Regex.Class (N.eqb c)) s <-> s = [c].
Proof.
  split.
  - inversion 1 as [|? c' Hc| | | | |]; subst. by apply N.eqb_eq in Hc as ->.
  - intros ->. constructor. apply N.eqb_refl.
Qed.

Lemma emailRegex_matches s :
  matches emailRegex s <->
  exists a b c, s = a ++ [64%N] ++ b ++ [46%N] ++ c
                /\ email_part a /\ email_part b /\ email_part c.
Proof.
  unfold emailRegex, email_part. split.
  - inversion 1 as [| |? ? a s1 Ha H1| | | |]; subst.
    inversion H1 as [| |? ? at1 s2 Hat H2| | | |]; subst.
    inversion H2 as [| |? ? b s3 Hb H3| | | |]; subst.
    inversion H3 as [| |? ? dot c Hdot Hc| | | |]; subst.
    apply class_eqb_matches in Hat as ->, Hdot as ->.
    apply plus_class_matches in Ha, Hb, Hc.
    by exists a, b, c.
  - intros (a & b & c & -> & Ha & Hb & Hc).
    apply plus_class_matches in Ha, Hb, Hc.
    apply m_seq; [done|]. apply (m_seq _ _ [64%N]); [by apply class_eqb_matches|].
    apply m_seq; [done|]. apply (m_seq _ _ [46%N]); [by apply class_eqb_matches|done].
Qed.

Lemma count_unit_app c s1 s2 :
  count_unit c (s1 ++ s2) = count_unit c s1 + count_unit c s2.
Proof. induction s1 as [|x s1 IH]; simpl; [done|]. rewrite IH. lia. Qed.

Lemma forallb_impl {A} (p q : A -> bool) s :
  (forall c, p c = true -> q c = true) -> forallb p s = true -> forallb q s = true.
Proof.
  intros Hpq. induction s as [|c s IH]; simpl; [done|].
  rewrite !andb_true_iff. intros [? ?]. auto.
Qed.

Lemma email_part_no_at s : forallb not_space_at s = true -> count_unit 64 s = 0.
Proof.
  induction s as [|c s IH]; simpl; [done|].
  unfold not_space_at at 1.
  intros [[_ Hc]%andb_true_iff Hs]%andb_true_iff.
  apply negb_true_iff in Hc. rewrite Hc. simpl. auto.
Qed.

Lemma validateEmail_matches email :
  validateEmail email = true <-> email = "" \/ matches emailRegex (Js.units email).
Proof.
  unfold validateEmail. destruct email as [|ch r].
  - split; auto.
  - change (Js.truthy (String ch r)) with true. cbn [negb].
    rewrite test_matches. split; [by right|]. by intros [?|?].
Qed.

(** X24. [validateEmail] accepts the empty string and otherwise exactly
    the strings whose code units have the form local@domain.tail, where
    each of the three parts is a non-empty run of code units other than
    white space and [@] (the domain may contain further dots).  White
    space is what [\s] matches, the no-break space and the other Unicode
    spaces included.  An accepted non-empty value therefore holds exactly
    one [@] and no white space; an address with a no-break space in it is
    refused. *)
Theorem validateEmail_shape (email : string) :
  (validateEmail email = true <->
     email = "" \/
     exists a b c, Js.units email = a ++ [64%N] ++ b ++ [46%N] ++ c
                   /\ email_part a /\ email_part b /\ email_part c)
  /\ (validateEmail email = true -> email <> "" ->
        count_unit 64 (Js.units email) = 1
        /\ forallb (fun u => negb (Js.is_space u)) (Js.units email) = true)
  /\ validateEmail ("cl" +:+ nbsp +:+ "aimant@example.com") = false
  /\ validateEmail "kovács.éva@example.com" = true.
Proof.
  split_and!; [| |reflexivity|reflexivity].
  - rewrite validateEmail_matches. by rewrite emailRegex_matches.
  - intros Hval Hne. apply validateEmail_matches in Hval as [?|Hm]; [done|].
    apply emailRegex_matches in Hm as (a & b & c & -> & Ha & Hb & Hc).
    destruct Ha as [_ Ha], Hb as [_ Hb], Hc as [_ Hc].
    split.
    + rewrite !count_unit_app.
      rewrite (email_part_no_at a), (email_part_no_at b), (email_part_no_at c) by done.
      reflexivity.
    + assert (forall s, forallb not_space_at s = true ->
                forallb (fun u => negb (Js.is_space u)) s = true) as Hns.
      { intros s. apply forallb_impl. intros u.
        unfold not_space_at. by rewrite andb_true_iff; intros [? _]. }
      rewrite !forallb_app.
      rewrite (Hns a), (Hns b), (Hns c) by done. reflexivity.
Qed.

(** X25. [validatePhone] accepts exactly the strings (the empty one
    included) all of whose code units are digits, white space or one of
    [+ - ( )]; it asks for no digit at all and for no particular
    arrangement.  White space is what [\s] matches, so a number typed
    with no-break spaces is accepted. *)
Theorem validatePhone_charset (phone : string) :
  (validatePhone phone = true <-> forallb phone_char (Js.units phone) = true)
  /\ validatePhone "+-() " = true
  /\ validatePhone ("+36" +:+ nbsp +:+ "30" +:+ nbsp +:+ "123" +:+ nbsp +:+ "4567")
     = true.
Proof.
  split_and!; [|reflexivity|reflexivity].
  unfold validatePhone. destruct phone as [|ch r]; [done|].
  change (Js.truthy (String ch r)) with true.
  cbn [negb]. rewrite test_matches. unfold phoneRegex. rewrite plus_class_matches.
  split; [by intros [_ ?]|]. split; [|done].
  by rewrite units_nil.
Qed.

(** X26. [validateForm] accepts a form exactly when the location, the
    finder's name and the item name are not blank (not made of white
    space only, the Unicode spaces counting as white space) and the found
    date consists of ten code units: four digits, a dash, two digits, a
    dash and two digits.  Nothing more is asked of the date: a month 13
    or a day in the future passes.  A form that is refused, or a missing
    user, leaves the storage untouched; an accepted one registers exactly
    one active item created by the acting user. *)
Theorem validateForm_accepts (f : AddForm) :
  (validateForm f = None <->
     Js.trim (a_foundLocation f) <> "" /\ Js.trim (a_finderName f) <> ""
     /\ Js.trim (a_itemName f) <> ""
     /\ exists y1 y2 y3 y4 m1 m2 d1 d2,
          Js.units (a_foundDate f) = [y1; y2; y3; y4; 45%N; m1; m2; 45%N; d1; d2]
          /\ forallb Js.is_digit [y1; y2; y3; y4; m1; m2; d1; d2] = true)
  /\ (forall now rnd now_iso cu imageUrl st,
        validateForm f <> None \/ cu = None ->
        let r := handleAddSubmit now rnd now_iso cu f imageUrl st in
        snd (fst r) = st /\ fst (fst r) = None)
  /\ (forall now rnd now_iso u imageUrl st,
        validateForm f = None ->
        let r := handleAddSubmit now rnd now_iso (Some u) f imageUrl st in
        exists item, fst (fst r) = Some item
          /\ found_items (snd (fst r)) = found_items st ++ [item]
          /\ handed_over_items (snd (fst r)) = handed_over_items st
          /\ status item = active /\ createdByUserId item = u_id u
          /\ foundDate item = a_foundDate f)
  /\ Js.trim nbsp = "".
Proof.
  split_and!; [| | |reflexivity].
  - unfold validateForm.
    destruct (Js.truthy (Js.trim (a_foundLocation f))) eqn:E1; simpl.
    2:{ apply truthy_false in E1. split; [done|]. by intros [? _]. }
    destruct (Js.truthy (Js.trim (a_finderName f))) eqn:E2; simpl.
    2:{ apply truthy_false in E2. split; [done|]. by intros (_ & ? & _). }
    destruct (Js.truthy (Js.trim (a_itemName f))) eqn:E3; simpl.
    2:{ apply truthy_false in E3. split; [done|]. by intros (_ & _ & ? & _). }
    apply truthy_true in E1, E2, E3.
    destruct (a_foundDate f) as [|b0 s] eqn:Hd.
    { split; [done|]. by intros (_ & _ & _ & (? & ? & ? & ? & ? & ? & ? & ? & ? & _)). }
    change (Js.truthy (String b0 s)) with true. cbn [negb].
    destruct (Regex.test dateRegex (Js.units (String b0 s))) eqn:Ht; simpl.
    + split; [intros _|done]. split_and!; try done.
      apply test_matches in Ht. unfold dateRegex in Ht.
      repeat match goal with
             | H : matches (Regex.Seq _ _) _ |- _ =>
                 inversion H; subst; clear H
             | H : matches (Regex.Class (N.eqb _)) _ |- _ =>
                 apply class_eqb_matches in H; subst
             | H : matches (Regex.Class Js.is_digit) _ |- _ =>
                 inversion H; subst; clear H
             end.
      do 8 eexists. split; [reflexivity|]. cbn [forallb].
      repeat match goal with
             | H : Js.is_digit _ = true |- _ => rewrite H; clear H
             end.
      reflexivity.
    + split; [done|].
      intros (_ & _ & _ & (z1 & z2 & z3 & z4 & m1 & m2 & d1 & d2 & Heq & Hdig)).
      rewrite Heq in Ht. cbn [forallb] in Hdig.
      repeat (apply andb_true_iff in Hdig as [? Hdig]).
      assert (Regex.test dateRegex [z1; z2; z3; z4; 45%N; m1; m2; 45%N; d1; d2]
              = true) as Hok; [|congruence].
      apply test_matches. unfold dateRegex.
      repeat match goal with
             | |- matches (Regex.Seq _ _) (?x :: ?t) =>
                 apply (m_seq _ _ [x] t)
             | |- matches (Regex.Class (N.eqb _)) _ => by apply class_eqb_matches
             | |- matches (Regex.Class Js.is_digit) _ => by constructor
             end.
  - intros now rnd now_iso cu imageUrl st Hbad. simpl. unfold handleAddSubmit.
    destruct (validateForm f); [done|]. by destruct Hbad as [?| ->].
  - intros now rnd now_iso u imageUrl st Hok. simpl. unfold handleAddSubmit.
    rewrite Hok. simpl. eexists. by split_and!.
Qed.

(* ===================================================================== *)
(** ** The format of item identifiers *)
(* ===================================================================== *)

Lemma length_append (s1 s2 : string) :
  String.length (s1 +:+ s2) = String.length s1 + String.length s2.
Proof.
  induction s1 as [|c s1 IH]; rewrite ?append_nil_l, ?append_cons; simpl; auto.
Qed.

Lemma map_string_append f (s1 s2 : string) :
  Js.map_string f (s1 +:+ s2) = Js.map_string f s1 +:+ Js.map_string f s2.
Proof.
  induction s1 as [|c s1 IH]; rewrite ?append_nil_l, ?append_cons; simpl;
    rewrite ?append_nil_l, ?append_cons; congruence.
Qed.

Lemma length_map_string f s : String.length (Js.map_string f s) = String.length s.
Proof. induction s; simpl; auto. Qed.

Lemma length_repeat_char c n : String.length (repeat_char c n) = n.
Proof. induction n; simpl; auto. Qed.

Lemma all_chars_repeat_char p c n : p c = true -> all_chars p (repeat_char c n) = true.
Proof. intros Hc. induction n; simpl; [done|]. by rewrite Hc. Qed.

(** The digits printed for a number below 16^k: at most k of them, all
    from [0-9a-f]. *)
Lemma of_pos_digits (k : nat) :
  forall p rest, (Z.pos p < 16 ^ Z.of_nat k)%Z ->
    String.length (HexString.Raw.of_pos p rest) <= k + String.length rest
    /\ (all_chars is_hex_lower rest = true ->
        all_chars is_hex_lower (HexString.Raw.of_pos p rest) = true).
Proof.
  induction k as [|k IH]; intros p rest Hp.
  { change (16 ^ Z.of_nat 0)%Z with 1%Z in Hp. lia. }
  rewrite Nat2Z.inj_succ, Z.pow_succ_r in Hp by lia.
  do 4 try destruct p as [p|p|];
    cbn [HexString.Raw.of_pos].
  all: try (split; [simpl; lia|intros Hr; simpl; by rewrite Hr]).
  all: try (match goal with
            | |- context [HexString.Raw.of_pos ?q (String ?c ?r)] =>
                destruct (IH q (String c r)) as [Hl Hc]; [lia|];
                split; [simpl in Hl; lia|intros Hr; apply Hc; simpl; by rewrite Hr]
            end).
Qed.

Lemma toString16_digits (k : nat) (n : N) :
  (0 < k)%nat -> (Z.of_N n < 16 ^ Z.of_nat k)%Z ->
  String.length (toString16 n) <= k /\ all_chars is_hex_lower (toString16 n) = true.
Proof.
  intros Hk Hn. destruct n as [|p]; simpl.
  - split; [lia|done].
  - destruct (of_pos_digits k p "") as [Hl Hc]; [done|].
    simpl in Hl. split; [lia|by apply Hc].
Qed.

Lemma padStart_digits (w : nat) (s : string) :
  String.length s <= w -> all_chars is_hex_lower s = true ->
  String.length (padStart w "0" s) = w
  /\ all_chars is_hex_lower (padStart w "0" s) = true.
Proof.
  intros Hl Hc. unfold padStart. split.
  - rewrite length_append, length_repeat_char. lia.
  - by rewrite all_chars_app, all_chars_repeat_char, Hc.
Qed.

Lemma digit_char (d : fin 16) :
  exists c, toString16 (N.of_nat (fin_to_nat d)) = String c ""
            /\ is_hex_lower c = true.
Proof.
  pose proof (fin_to_nat_lt d) as Hlt.
  destruct (fin_to_nat d) as [|n]; [by eexists|].
  do 15 (destruct n as [|n]; [by eexists|]). lia.
Qed.

Lemma random_hex_list_digits (l : list (fin 16)) :
  let s := fold_right (fun d acc => toString16 (N.of_nat (fin_to_nat d)) +:+ acc) "" l in
  String.length s = List.length l /\ all_chars is_hex_lower s = true.
Proof.
  induction l as [|d l [IHl IHc]]; [done|]. simpl.
  destruct (digit_char d) as (c & -> & Hc).
  rewrite append_cons, append_nil_l. simpl. rewrite Hc. auto.
Qed.

Lemma random_hex_digits (rnd : vec (fin 16) 8) :
  String.length (random_hex rnd) = 8 /\ all_chars is_hex_lower (random_hex rnd) = true.
Proof.
  destruct (random_hex_list_digits (vec_to_list rnd)) as [Hl Hc].
  rewrite length_vec_to_list in Hl. done.
Qed.

Lemma hex_upper_char c : is_hex_lower c = true -> is_hex_upper (Js.upper_char c) = true.
Proof. destruct c as [[] [] [] [] [] [] [] []]; (discriminate || reflexivity). Qed.

Lemma hex_upper_fixed c : is_hex_upper c = true -> Js.upper_char c = c.
Proof. destruct c as [[] [] [] [] [] [] [] []]; (discriminate || reflexivity). Qed.

Lemma hex_upper_lower c :
  is_hex_upper c = true -> Js.upper_char (Js.lower_char c) = c.
Proof. destruct c as [[] [] [] [] [] [] [] []]; (discriminate || reflexivity). Qed.

(** The conversions of the ASCII instance, spelled out. *)
Ltac ascii_case :=
  change (@Js.toUpperCase Js.ascii_case) with (Js.map_string Js.upper_char) in *;
  change (@Js.toLowerCase Js.ascii_case) with (Js.map_string Js.lower_char) in *.

Lemma toUpperCase_hex s :
  all_chars is_hex_lower s = true -> all_chars is_hex_upper (Js.toUpperCase s) = true.
Proof.
  ascii_case. induction s as [|c s IH]; [done|]. simpl.
  intros [Hc Hs]%andb_true_iff. by rewrite hex_upper_char, IH.
Qed.

Lemma toUpperCase_fixed s :
  all_chars is_hex_upper s = true -> Js.toUpperCase s = s.
Proof.
  ascii_case. induction s as [|c s IH]; [done|]. simpl.
  intros [Hc Hs]%andb_true_iff. by rewrite hex_upper_fixed, IH.
Qed.

Lemma toUpperCase_toLowerCase_hex s :
  all_chars is_hex_upper s = true -> Js.toUpperCase (Js.toLowerCase s) = s.
Proof.
  ascii_case. induction s as [|c s IH]; [done|]. simpl.
  intros [Hc Hs]%andb_true_iff. by rewrite hex_upper_lower, IH.
Qed.

(** A string of ASCII characters has one code unit per byte. *)
Lemma chars_ascii_cons b r :
  (N_of_ascii b <? 128)%N = true ->
  Js.chars (String b r) = (N_of_ascii b, String b "") :: Js.chars r.
Proof.
  intros Hb. cbn [Js.chars]. cbv zeta. rewrite Hb.
  assert ((N_of_ascii b <? 194)%N = true) as ->; [|done].
  apply N.ltb_lt in Hb. apply N.ltb_lt. lia.
Qed.

Lemma units_ascii_cons b r :
  (N_of_ascii b <? 128)%N = true ->
  Js.units (String b r) = N_of_ascii b :: Js.units r.
Proof.
  intros Hb. unfold Js.units. rewrite (chars_ascii_cons b r Hb). simpl.
  unfold Js.units_of.
  assert ((N_of_ascii b <? 65536)%N = true) as ->; [|done].
  apply N.ltb_lt in Hb. apply N.ltb_lt. lia.
Qed.

Lemma length_ascii s : Js.ascii_only s = true -> Js.length s = String.length s.
Proof.
  unfold Js.length. induction s as [|b r IH]; [done|]. simpl.
  intros [Hb Hr]%andb_true_iff. rewrite (units_ascii_cons b r Hb). simpl.
  by rewrite IH.
Qed.

Lemma hex_upper_ascii c : is_hex_upper c = true -> (N_of_ascii c <? 128)%N = true.
Proof. destruct c as [[] [] [] [] [] [] [] []]; (discriminate || reflexivity). Qed.

Lemma hex_upper_ascii_only s :
  all_chars is_hex_upper s = true -> Js.ascii_only s = true.
Proof.
  induction s as [|c s IH]; [done|]. simpl.
  intros [Hc Hs]%andb_true_iff. by rewrite hex_upper_ascii, IH.
Qed.

Lemma seconds_bound (now : Z) :
  (0 <= now < 4294967296000)%Z ->
  (Z.of_N (Z.to_N (now / 1000)) < 16 ^ Z.of_nat 8)%Z.
Proof.
  intros Hnow. rewrite Z2N.id by (apply Z.div_pos; lia).
  change (16 ^ Z.of_nat 8)%Z with 4294967296%Z.
  apply Z.div_lt_upper_bound; lia.
Qed.

(** X27. Between 1970 and the year 2106 (while the seconds since the epoch
    fit in eight hexadecimal digits) [generateItemId] returns exactly 16
    characters, all from [0-9A-F], and the string is its own upper-case
    form.  Such an id passes the length test of the handover dialog's
    scan step, and typing it in lower case is accepted for the item that
    carries it. *)
Theorem generateItemId_format (now : Z) (rnd : vec (fin 16) 8) :
  (0 <= now < 4294967296000)%Z ->
  let i := generateItemId now rnd in
  Js.length i = 16
  /\ all_chars is_hex_upper i = true
  /\ Js.toUpperCase i = i
  /\ (forall it d, id it = i ->
        step (fst (handleScanInput (Some it) (Js.toLowerCase i) d)) = step_form).
Proof.
  intros Hnow i.
  destruct (toString16_digits 8 (Z.to_N (now / 1000))) as [Hl Hc];
    [lia|by apply seconds_bound|].
  destruct (padStart_digits 8 _ Hl Hc) as [Hpl Hpc].
  destruct (random_hex_digits rnd) as [Hrl Hrc].
  assert (all_chars is_hex_upper i = true) as Hhex.
  { unfold i, generateItemId. apply toUpperCase_hex.
    by rewrite all_chars_app, Hpc, Hrc. }
  assert (Js.length i = 16) as Hlen.
  { rewrite (length_ascii i) by (by apply hex_upper_ascii_only).
    unfold i, generateItemId. ascii_case.
    rewrite length_map_string, length_append, Hpl, Hrl. reflexivity. }
  split_and!; [done|done|by apply toUpperCase_fixed|].
  intros it d Hid. unfold handleScanInput.
  rewrite (toUpperCase_toLowerCase_hex i Hhex), Hlen. cbn [Nat.eqb].
  unfold verifyScannedId. rewrite bool_decide_eq_true_2 by done. reflexivity.
Qed.

Lemma generateItemId_format_witness :
  (0 <= 1704182400000 < 4294967296000)%Z
  /\ Js.length (generateItemId 1704182400000 zero_draws) = 16
  /\ all_chars is_hex_upper (generateItemId 1704182400000 zero_draws) = true.
Proof.
  destruct (generateItemId_format 1704182400000 zero_draws) as (Hl & Hh & _);
    [lia|].
  split; [lia|]. split; [exact Hl|exact Hh].
Defined.

Lemma ascii_to_digit_upper c :
  HexString.ascii_to_digit (Js.upper_char c) = HexString.ascii_to_digit c.
Proof. destruct c as [[] [] [] [] [] [] [] []]; reflexivity. Qed.

Lemma to_N_upper s acc :
  HexString.Raw.to_N (Js.toUpperCase s) acc = HexString.Raw.to_N s acc.
Proof.
  ascii_case. revert acc.
  induction s as [|c s IH]; intros acc; [done|]. simpl.
  by rewrite ascii_to_digit_upper, IH.
Qed.

Lemma to_N_zeros n s :
  HexString.Raw.to_N (repeat_char "0" n +:+ s) 0 = HexString.Raw.to_N s 0.
Proof.
  induction n as [|n IH]; simpl; rewrite ?append_nil_l, ?append_cons; [done|].
  exact IH.
Qed.

Lemma to_N_toString16 n : HexString.Raw.to_N (toString16 n) 0 = n.
Proof.
  destruct n as [|p]; [done|]. simpl. by rewrite HexString.Raw.to_N_of_pos.
Qed.

(** The number printed can be read back from the padded, upper-cased
    digits. *)
Lemma to_N_timestamp w n :
  HexString.Raw.to_N (Js.toUpperCase (padStart w "0" (toString16 n))) 0 = n.
Proof. unfold padStart. by rewrite to_N_upper, to_N_zeros, to_N_toString16. Qed.

Lemma append_inj_length (s1 s2 t1 t2 : string) :
  String.length s1 = String.length t1 ->
  s1 +:+ s2 = t1 +:+ t2 -> s1 = t1 /\ s2 = t2.
Proof.
  revert t1. induction s1 as [|c s1 IH]; intros [|d t1] Hl; try discriminate;
    rewrite ?append_nil_l, ?append_cons; [done|].
  intros [= -> Heq]. injection Hl as Hl.
  destruct (IH _ Hl Heq) as [-> ->]. done.
Qed.

Lemma digit_inj (d1 d2 : fin 16) :
  Js.toUpperCase (toString16 (N.of_nat (fin_to_nat d1)))
  = Js.toUpperCase (toString16 (N.of_nat (fin_to_nat d2))) ->
  d1 = d2.
Proof.
  intros Heq. apply (f_equal (fun s => HexString.Raw.to_N s 0)) in Heq.
  rewrite !to_N_upper, !to_N_toString16 in Heq.
  apply Nat2N.inj in Heq. by apply (inj fin_to_nat).
Qed.

Lemma random_hex_list_inj (l1 l2 : list (fin 16)) :
  let hex := fold_right
               (fun d acc => toString16 (N.of_nat (fin_to_nat d)) +:+ acc) "" in
  Js.toUpperCase (hex l1) = Js.toUpperCase (hex l2) -> l1 = l2.
Proof.
  intros hex. ascii_case. revert l2.
  induction l1 as [|d1 l1 IH]; intros [|d2 l2]; simpl; [done| | |].
  - destruct (digit_char d2) as (c & -> & _).
    rewrite append_cons. discriminate.
  - destruct (digit_char d1) as (c & -> & _).
    rewrite append_cons. discriminate.
  - intros Heq. rewrite !map_string_append in Heq.
    apply append_inj_length in Heq as [Hd Hl].
    + f_equal; [by apply digit_inj|by apply IH].
    + destruct (digit_char d1) as (c1 & -> & _), (digit_char d2) as (c2 & -> & _).
      reflexivity.
Qed.

(** X28. Two identifiers generated between 1970 and 2106 are equal exactly
    when they were generated within the same second of the clock and with
    the same eight random digits: the identifier determines both. *)
Theorem generateItemId_collision (now1 now2 : Z) (rnd1 rnd2 : vec (fin 16) 8) :
  (0 <= now1 < 4294967296000)%Z -> (0 <= now2 < 4294967296000)%Z ->
  generateItemId now1 rnd1 = generateItemId now2 rnd2
  <-> (now1 / 1000 = now2 / 1000)%Z /\ rnd1 = rnd2.
Proof.
  intros H1 H2. split; [|by intros [Hs ->]; unfold generateItemId; rewrite Hs].
  unfold generateItemId. ascii_case. rewrite !map_string_append.
  intros Heq. apply append_inj_length in Heq as [Ht Hr].
  - split.
    + apply (f_equal (fun s => HexString.Raw.to_N s 0)) in Ht.
      pose proof (to_N_timestamp 8 (Z.to_N (now1 / 1000))) as E1.
      pose proof (to_N_timestamp 8 (Z.to_N (now2 / 1000))) as E2.
      ascii_case. rewrite E1, E2 in Ht.
      apply Z2N.inj in Ht; [done| |]; apply Z.div_pos; lia.
    + apply vec_to_list_inj2, random_hex_list_inj. exact Hr.
  - rewrite !length_map_string.
    destruct (toString16_digits 8 (Z.to_N (now1 / 1000))) as [Hl1 Hc1];
      [lia|by apply seconds_bound|].
    destruct (toString16_digits 8 (Z.to_N (now2 / 1000))) as [Hl2 Hc2];
      [lia|by apply seconds_bound|].
    destruct (padStart_digits 8 _ Hl1 Hc1) as [-> _].
    destruct (padStart_digits 8 _ Hl2 Hc2) as [-> _]. reflexivity.
Qed.

Lemma generateItemId_collision_witness :
  (0 <= 1704182400000 < 4294967296000)%Z
  /\ (0 <= 1704182400999 < 4294967296000)%Z
  /\ generateItemId 1704182400000 zero_draws = generateItemId 1704182400999 zero_draws.
Proof.
  split; [lia|]. split; [lia|].
  apply (generateItemId_collision 1704182400000 1704182400999 zero_draws zero_draws);
    [lia|lia|]. split; reflexivity.
Defined.

(* ===================================================================== *)
(** ** Locations *)
(* ===================================================================== *)

Lemma lower_char_ascii c :
  (N_of_ascii c <? 128)%N = true -> (N_of_ascii (Js.lower_char c) <? 128)%N = true.
Proof. destruct c as [[] [] [] [] [] [] [] []]; (discriminate || reflexivity). Qed.

Lemma is_space_lower_char c :
  Js.is_space (N_of_ascii (Js.lower_char c)) = Js.is_space (N_of_ascii c).
Proof. destruct c as [[] [] [] [] [] [] [] []]; reflexivity. Qed.

Lemma ascii_only_lower s :
  Js.ascii_only s = true -> Js.ascii_only (Js.map_string Js.lower_char s) = true.
Proof.
  induction s as [|c s IH]; [done|]. simpl.
  intros [Hc Hs]%andb_true_iff. by rewrite lower_char_ascii, IH.
Qed.

Lemma ascii_only_app s1 s2 :
  Js.ascii_only (s1 +:+ s2) = Js.ascii_only s1 && Js.ascii_only s2.
Proof.
  induction s1 as [|c s1 IH]; rewrite ?append_nil_l, ?append_cons; simpl; [done|].
  by rewrite IH, andb_assoc.
Qed.

(** The characters of a lower-cased ASCII string are those of the string,
    lower-cased one by one. *)
Lemma chars_lower s :
  Js.ascii_only s = true ->
  Forall2 (mapped_char Js.lower_char)
    (Js.chars s) (Js.chars (Js.map_string Js.lower_char s)).
Proof.
  induction s as [|b r IH]; [constructor|].
  cbn [Js.ascii_only Js.map_string]. intros [Hb Hr]%andb_true_iff.
  rewrite (chars_ascii_cons b r Hb).
  rewrite (chars_ascii_cons _ _ (lower_char_ascii b Hb)).
  constructor; [|by apply IH].
  split; [apply is_space_lower_char|done].
Qed.

Lemma chars_ascii_only s :
  Js.ascii_only s = true ->
  Forall (fun g => Js.ascii_only (snd g) = true) (Js.chars s).
Proof.
  induction s as [|b r IH]; [constructor|].
  cbn [Js.ascii_only]. intros [Hb Hr]%andb_true_iff.
  rewrite (chars_ascii_cons b r Hb). constructor; [|by apply IH].
  simpl. by rewrite Hb.
Qed.

Lemma trim_start_mapped f l l' :
  Forall2 (mapped_char f) l l' ->
  Forall2 (mapped_char f) (Js.trim_start l) (Js.trim_start l').
Proof.
  induction 1 as [|g g' l l' Hg Hl IH]; [constructor|]. simpl.
  rewrite (proj1 Hg). destruct (Js.is_space (fst g)); [done|]. by constructor.
Qed.

Lemma trim_end_mapped f l l' :
  Forall2 (mapped_char f) l l' ->
  Forall2 (mapped_char f) (Js.trim_end l) (Js.trim_end l').
Proof.
  induction 1 as [|g g' l l' Hg Hl IH]; [constructor|]. simpl.
  destruct IH as [|h h' t t' Hh Ht].
  - rewrite (proj1 Hg). destruct (Js.is_space (fst g)); [constructor|].
    by constructor.
  - constructor; [done|]. by constructor.
Qed.

Lemma join_mapped f l l' :
  Forall2 (mapped_char f) l l' -> Js.join l' = Js.map_string f (Js.join l).
Proof.
  induction 1 as [|g g' l l' [Hsp Hbs] Hl IH]; [done|].
  cbn [Js.join fold_right]. fold (Js.join l) (Js.join l').
  by rewrite map_string_append, Hbs, IH.
Qed.

Lemma trim_start_Forall (P : N * string -> Prop) l :
  Forall P l -> Forall P (Js.trim_start l).
Proof.
  induction 1 as [|g l Hg Hl IH]; [constructor|]. simpl.
  destruct (Js.is_space (fst g)); [done|]. by constructor.
Qed.

Lemma trim_end_Forall (P : N * string -> Prop) l :
  Forall P l -> Forall P (Js.trim_end l).
Proof.
  induction 1 as [|g l Hg Hl IH]; [constructor|]. simpl.
  destruct (Js.trim_end l); [|by constructor].
  destruct (Js.is_space (fst g)); by repeat constructor.
Qed.

Lemma join_ascii_only l :
  Forall (fun g => Js.ascii_only (snd g) = true) l -> Js.ascii_only (Js.join l) = true.
Proof.
  induction 1 as [|g l Hg Hl IH]; [done|].
  cbn [Js.join fold_right]. fold (Js.join l).
  by rewrite ascii_only_app, Hg, IH.
Qed.

Lemma trim_ascii_only s : Js.ascii_only s = true -> Js.ascii_only (Js.trim s) = true.
Proof.
  intros Hs. unfold Js.trim.
  by apply join_ascii_only, trim_end_Forall, trim_start_Forall, chars_ascii_only.
Qed.

(** On a string of ASCII characters lower-casing and trimming commute. *)
Lemma trim_toLowerCase {cm : Js.CaseMap} `{!Js.AsciiCase cm} s :
  Js.ascii_only s = true ->
  Js.toLowerCase (Js.trim s) = Js.trim (Js.toLowerCase s).
Proof.
  intros Hs.
  rewrite (Js.toLowerCase_ascii s Hs).
  rewrite (Js.toLowerCase_ascii _ (trim_ascii_only s Hs)).
  unfold Js.trim. symmetry.
  by apply join_mapped, trim_end_mapped, trim_start_mapped, chars_lower.
Qed.

Lemma existsb_false_elem {A} (f : A -> bool) (l : list A) :
  existsb f l = false -> forall x, x ∈ l -> f x = false.
Proof.
  induction l as [|y l IH]; simpl; [by intros _ x ?%elem_of_nil|].
  intros [Hy Hl]%orb_false_iff x [->|Hx]%elem_of_cons; auto.
Qed.

Lemma deleteLocation_filter locId ls :
  snd (deleteLocation locId ls) = filter (fun l => l_id l <> locId) ls.
Proof.
  unfold deleteLocation, getLocations.
  destruct (Nat.eqb_spec (length (filter (fun l => l_id l <> locId) ls)) (length ls))
    as [Heq|Hne]; simpl; [|done].
  symmetry. by apply filter_length_eq.
Qed.

(** X29. While the dialog shows the stored locations and the lower-case
    forms of their names are pairwise different, adding and deleting keep
    it so.  [handleAdd] either changes nothing or appends one location,
    named by the trimmed (non-blank) input and created by the acting
    user; a name whose lower-case form, trimmed, is that of a shown
    location is refused.  [handleDelete] removes exactly the locations
    with the given id.  For adding, the entered name is one on which
    lower-casing and trimming commute (the code lower-cases first for the
    test and trims only for the stored name); every name of ASCII
    characters is such a name. *)
Theorem location_names_distinct {cm : Js.CaseMap} (c : LocationAdmin)
    (ls : list Location) :
  shown_locations c = ls -> distinct_names ls ->
  (forall uuid now_iso cu,
     Js.toLowerCase (Js.trim (newLocationName c))
     = Js.trim (Js.toLowerCase (newLocationName c)) ->
     let r := handleAdd uuid now_iso cu c ls in
     shown_locations (fst (fst r)) = snd (fst r)
     /\ distinct_names (snd (fst r))
     /\ (snd (fst r) = ls
         \/ exists l, snd (fst r) = ls ++ [l] /\ l_id l = uuid
              /\ l_name l = Js.trim (newLocationName c) /\ l_name l <> ""
              /\ Some (l_createdByUserId l) = u_id <$> cu)
     /\ ((exists l, l ∈ ls /\ Js.toLowerCase (l_name l)
                                = Js.toLowerCase (Js.trim (newLocationName c))) ->
         snd (fst r) = ls))
  /\ (forall locId,
     let r := handleDeleteLocation locId c ls in
     shown_locations (fst (fst r)) = snd (fst r)
     /\ distinct_names (snd (fst r))
     /\ snd (fst r) = filter (fun l => l_id l <> locId) ls)
  /\ (Js.AsciiCase cm -> Js.ascii_only (newLocationName c) = true ->
      Js.toLowerCase (Js.trim (newLocationName c))
      = Js.trim (Js.toLowerCase (newLocationName c))).
Proof.
  intros Hshown Hnd. split_and!.
  - intros uuid now_iso cu Hcomm. simpl. unfold handleAdd.
    destruct (Js.truthy (Js.trim (newLocationName c))) eqn:Hname; simpl;
      [|by auto].
    destruct cu as [u|]; simpl; [|by auto].
    destruct (existsb _ (shown_locations c)) eqn:Hex; simpl; [by auto|].
    split; [done|]. split; [|split].
    + unfold distinct_names, lower_names, getLocations.
      rewrite fmap_app. apply NoDup_app. split_and!; [done| |apply NoDup_singleton].
      intros x Hx ->%list_elem_of_singleton.
      apply list_elem_of_fmap in Hx as (l & Hl & Hin).
      rewrite <- Hshown in Hin.
      pose proof (existsb_false_elem _ _ Hex l Hin) as Hf. simpl in Hf.
      apply bool_decide_eq_false in Hf. apply Hf.
      simpl in Hl. by rewrite <- Hcomm.
    + right. eexists. split; [reflexivity|]. simpl. split_and!; try done.
      by apply truthy_true.
    + intros (l & Hin & Hl). exfalso.
      rewrite <- Hshown in Hin.
      pose proof (existsb_false_elem _ _ Hex l Hin) as Hf. simpl in Hf.
      apply bool_decide_eq_false in Hf. apply Hf. by rewrite <- Hcomm.
  - intros locId. simpl. unfold handleDeleteLocation.
    pose proof (deleteLocation_filter locId ls) as Hf.
    destruct (deleteLocation locId ls) as [b ls1]. simpl in *. subst ls1.
    split_and!; try done.
    unfold distinct_names, lower_names.
    eapply sublist_NoDup; [exact Hnd|]. apply fmap_sublist, sublist_filter.
  - intros Hcm Hascii. by apply trim_toLowerCase.
Qed.

Lemma location_names_distinct_witness :
  shown_locations (adding_location " Depot ") = [lobby; garage]
  /\ distinct_names [lobby; garage]
  /\ (l_name <$> snd (fst (handleAdd "loc-3" "2024-01-02T10:00:00.000Z"
                             (Some admin_user) (adding_location " Depot ")
                             [lobby; garage])))
     = ["Lobby"; "Garage"; "Depot"]
  /\ distinct_names (snd (fst (handleAdd "loc-3" "2024-01-02T10:00:00.000Z"
                                 (Some admin_user) (adding_location " Depot ")
                                 [lobby; garage])))
  /\ snd (fst (handleAdd "loc-3" "2024-01-02T10:00:00.000Z"
                 (Some admin_user) (adding_location " LOBBY ") [lobby; garage]))
     = [lobby; garage].
Proof.
  assert (distinct_names [lobby; garage]) as Hnd.
  { unfold distinct_names, lower_names. simpl.
    apply NoDup_cons. split; [|apply NoDup_singleton].
    intros Hin%list_elem_of_singleton. discriminate Hin. }
  split; [reflexivity|]. split; [exact Hnd|]. split; [reflexivity|]. split.
  - destruct (location_names_distinct (cm := Js.ascii_case)
                (adding_location " Depot ") [lobby; garage] eq_refl Hnd)
      as (Hadd & _).
    exact (proj1 (proj2 (Hadd "loc-3" "2024-01-02T10:00:00.000Z" (Some admin_user)
                           eq_refl))).
  - destruct (location_names_distinct (cm := Js.ascii_case)
                (adding_location " LOBBY ") [lobby; garage] eq_refl Hnd)
      as (Hadd & _).
    apply (Hadd "loc-3" "2024-01-02T10:00:00.000Z" (Some admin_user) eq_refl).
    exists lobby. split; [apply list_elem_of_here|reflexivity].
Defined.

(** X30. [saveEdit] with a non-blank name and an id under edit renames the
    first location carrying that id to the trimmed name and changes
    nothing else: the ids, their order and every other entry stay.  It
    reports success and closes the edit whether or not the id was found,
    and it makes no duplicate check: when another location already
    carries a name with the same lower-case form, the lower-case forms of
    the names are no longer pairwise different afterwards.  Blank is what
    [trim] empties, a name of no-break spaces included. *)
Theorem saveEdit_renames {cm : Js.CaseMap} (c : LocationAdmin) (ls : list Location)
    (eid : string) :
  editingId c = Some eid -> eid <> "" -> Js.trim (editingName c) <> "" ->
  let r := saveEdit c ls in
  let name := Js.trim (editingName c) in
  snd r = Some (toast_success "Helyszín módosítva!")
  /\ editingId (fst (fst r)) = None
  /\ shown_locations (fst (fst r)) = snd (fst r)
  /\ (l_id <$> snd (fst r)) = (l_id <$> ls)
  /\ (list_find (fun l => l_id l = eid) ls = None -> snd (fst r) = ls)
  /\ (forall i l, list_find (fun l => l_id l = eid) ls = Some (i, l) ->
        snd (fst r) = <[i := with_name name l]> ls
        /\ forall j l', j <> i -> ls !! j = Some l' ->
             Js.toLowerCase (l_name l') = Js.toLowerCase name ->
             ~ distinct_names (snd (fst r))).
Proof.
  intros Hid Heid Hname. simpl. unfold saveEdit.
  apply truthy_true in Hname. rewrite Hname, Hid. simpl.
  apply truthy_true in Heid. rewrite Heid.
  unfold updateLocation, getLocations.
  destruct (list_find (fun l => l_id l = eid) ls) as [[i l]|] eqn:Hfind; simpl.
  - apply list_find_Some in Hfind as (Hi & Hl & _).
    split_and!; try done.
    + rewrite list_fmap_insert. simpl. apply list_insert_id.
      by rewrite list_lookup_fmap, Hi.
    + intros i0 l0 [= <- <-]. split; [done|].
      intros j l' Hj Hl' Hsame Hnd.
      unfold distinct_names, lower_names in Hnd.
      rewrite list_fmap_insert in Hnd. simpl in Hnd.
      apply Hj. eapply (proj1 (NoDup_alt _) Hnd).
      * rewrite list_lookup_insert_ne by done.
        rewrite list_lookup_fmap, Hl'. simpl. by rewrite Hsame.
      * apply list_lookup_insert_eq. rewrite length_fmap.
        by eapply lookup_lt_Some.
  - split_and!; done.
Qed.

Lemma saveEdit_renames_witness :
  editingId renaming_garage = Some "loc-2"
  /\ Js.trim (editingName renaming_garage) = "lobby"
  /\ distinct_names [lobby; garage]
  /\ ~ distinct_names (snd (fst (saveEdit renaming_garage [lobby; garage])))
  /\ saveEdit (editing_blank "loc-2") [lobby; garage]
     = (editing_blank "loc-2", [lobby; garage],
        Some (toast_error "Adja meg a helyszín nevét!")).
Proof.
  split; [reflexivity|]. split; [reflexivity|]. split.
  { unfold distinct_names, lower_names. simpl.
    apply NoDup_cons. split; [|apply NoDup_singleton].
    intros Hin%list_elem_of_singleton. discriminate Hin. }
  split; [|reflexivity].
  destruct (saveEdit_renames (cm := Js.ascii_case) renaming_garage [lobby; garage]
              "loc-2")
    as (_ & _ & _ & _ & _ & Hfound); [reflexivity|discriminate|discriminate|].
  destruct (Hfound 1 garage eq_refl) as [_ Hdup].
  apply (Hdup 0 lobby); [lia|reflexivity|reflexivity].
Defined.
